(** * DraftEdge scrapers: extraction, reconciliation and year-scoped merge

    A shallow embedding of [battorvikScraper.py] (source A, college) and
    [nbaScraper.py] (source B, pro league).

    - Python [str] is [string]; a character is a code point below 256.
    - A cell value of a data frame is [value]: a text, an integer (the
      [Year] stamp, or the number a read makes of an integer text) or a
      null.  [VNull] stands for both [None] and [NaN];
      the one place where the source tells them apart ([is not None] on the
      year to append) leaves the same rows in both cases, see
      [drop_year].
    - A pandas [DataFrame] is an ordered list of column labels and a list
      of rows, each row a finite map from label to value.
    - Code that may raise returns [result].  A merge starts from what
      [pd.read_excel] returns of the file, an [option DataFrame] ([None]: no
      file, or a file that cannot be read), and ends in the frame it hands
      to [to_excel].  What a later read returns of a sheet that was written
      is another frame, since [read_excel] types every column anew: where
      one merge follows another the read between the two is explicit.
    - The live browser document is a state machine given by the operations
      the loops call on it; calls that only read the page ([find_elements])
      return and leave it as it is.
    - The scraper object is the world it acts on, whether it holds a driver,
      and the file at [excel_path]; [scrape_data] and the main block thread
      it through the calls, and an exception is a returned failure.  The
      file is read and written through [read_excel] and [to_excel], and the
      call of [append_to_excel] can raise after it has written. *)

From Stdlib Require Import ZArith String Ascii List.
From stdpp Require Import base list strings gmap fin_maps sorting pretty.

Local Open Scope string_scope.
Local Open Scope list_scope.

(** ** Values and exceptions *)

Inductive value : Type :=
  | VNull
  | VStr (s : string)
  | VInt (z : Z).

Global Instance value_eq_dec : EqDecision value.
Proof. solve_decision. Defined.

Inductive exn : Type :=
  | ValueError (msg : string)
  | KeyError (col : string)
  | NoSuchElementException.

Inductive result (A : Type) : Type :=
  | Ok (a : A)
  | Raise (e : exn).
Arguments Ok {A} a.
Arguments Raise {A} e.

Global Instance result_bind : MBind result := λ A B k m,
  match m with
  | Ok a => k a
  | Raise e => Raise e
  end.

(** ** Data frames *)

Module Frame.

Record DataFrame : Type := mkDF {
  columns : list string;
  rows : list (gmap string value)
}.

(** What pandas guarantees of every frame: labels are distinct (frames built
    from dicts, and sheets read back, have distinct labels) and every row
    has a cell for exactly the labels. *)
Definition row_ok (cols : list string) (r : gmap string value) : Prop :=
  dom r = (list_to_set cols : gset string).

Definition wf (df : DataFrame) : Prop :=
  NoDup (columns df) ∧ Forall (row_ok (columns df)) (rows df).

(** [df.empty]: some axis has length zero. *)
Definition empty (df : DataFrame) : bool :=
  bool_decide (rows df = []) || bool_decide (columns df = []).

(** [df[col] = v] with a scalar [v]: overwrite the column, or add it last. *)
Definition set_column (col : string) (v : value) (df : DataFrame) : DataFrame :=
  {| columns := if decide (col ∈ columns df) then columns df
                else columns df ++ [col];
     rows := (λ r, <[col := v]> r) <$> rows df |}.

(** [for col in cols: if col not in df.columns: df[col] = None] *)
Definition fill_missing (cols : list string) (df : DataFrame) : DataFrame :=
  foldl (λ d col, if decide (col ∈ columns d) then d else set_column col VNull d)
        df cols.

Definition project (cols : list string) (r : gmap string value) : gmap string value :=
  filter (λ kv, kv.1 ∈ cols) r.

(** [df[cols]] with a list of labels: [KeyError] on the first label that
    is not a column. *)
Definition select (cols : list string) (df : DataFrame) : result DataFrame :=
  match List.find (λ c, bool_decide (c ∉ columns df)) cols with
  | Some c => Raise (KeyError c)
  | None => Ok {| columns := cols; rows := project cols <$> rows df |}
  end.

(** Element-wise [!=]: a null differs from everything, itself included. *)
Definition value_ne (a b : value) : bool :=
  match a, b with
  | VNull, _ | _, VNull => true
  | _, _ => bool_decide (a ≠ b)
  end.

Definition cell (col : string) (r : gmap string value) : value :=
  default VNull (r !! col).

(** [df[df['Year'] != y]] *)
Definition where_year_ne (y : value) (df : DataFrame) : DataFrame :=
  {| columns := columns df;
     rows := filter (λ r, value_ne (cell "Year" r) y = true) (rows df) |}.

(** [df['Year'].iloc[0] if len(df) > 0 else None] *)
Definition year_to_append (df : DataFrame) : value :=
  match rows df with
  | r :: _ => cell "Year" r
  | [] => VNull
  end.

(** The block guarded by ['Year' in df.columns and 'Year' in
    existing_df.columns]: rows of the year being appended are removed from
    the existing frame.  When the year is [None] the source skips the
    filter; when it is [NaN] the filter keeps every row. *)
Definition drop_year (df existing_df : DataFrame) : DataFrame :=
  if bool_decide ("Year" ∈ columns df) && bool_decide ("Year" ∈ columns existing_df)
  then match year_to_append df with
       | VNull => existing_df
       | y => where_year_ne y existing_df
       end
  else existing_df.

Definition fill_row (cols : list string) (r : gmap string value) : gmap string value :=
  r ∪ gset_to_gmap VNull (list_to_set cols).

(** [pd.concat([a, b], ignore_index=True)]: outer join on the labels, the
    labels of [a] first, absent cells null. *)
Definition concat (a b : DataFrame) : DataFrame :=
  let cols := columns a ++ list_difference (columns b) (columns a) in
  {| columns := cols; rows := fill_row cols <$> (rows a ++ rows b) |}.

(** The emptiness check that follows [read_excel] (the same lines in both
    scrapers).  [store] is what [pd.read_excel] returned, [None] where the
    file is missing or the read raised: an empty or column-less frame
    counts as no sheet, and any other frame is used as it was read. *)
Definition load (store : option DataFrame) : option DataFrame :=
  match store with
  | Some existing_df =>
      if empty existing_df || bool_decide (length (columns existing_df) = 0)
      then None else Some existing_df
  | None => None
  end.

End Frame.

Import Frame.


(** ** Text *)

Module Text.

(** [str.isspace] on the code points below 256. *)
Definition is_space (c : ascii) : bool :=
  let n := N_of_ascii c in
  ((9 <=? n) && (n <=? 13) || (28 <=? n) && (n <=? 32)
   || (n =? 133) || (n =? 160))%N.

Fixpoint lstrip (s : list ascii) : list ascii :=
  match s with
  | c :: s' => if is_space c then lstrip s' else s
  | [] => []
  end.

Definition rstrip (s : list ascii) : list ascii := rev (lstrip (rev s)).

(** [s.strip()] *)
Definition strip (s : string) : string :=
  string_of_list_ascii (rstrip (lstrip (list_ascii_of_string s))).

End Text.

Import Text.

(** ** Python dicts (insertion-ordered) and frames built from them *)

Module Dict.

Definition dict : Type := list (string * value).

(** [d[k] = v] *)
Fixpoint set (k : string) (v : value) (d : dict) : dict :=
  match d with
  | [] => [(k, v)]
  | (k', v') :: d' =>
      if decide (k = k') then (k, v) :: d' else (k', v') :: set k v d'
  end.

Fixpoint get (k : string) (d : dict) : option value :=
  match d with
  | [] => None
  | (k', v') :: d' => if decide (k = k') then Some v' else get k d'
  end.

Definition keys (d : dict) : list string := fst <$> d.

(** Labels in order of first appearance. *)
Definition first_seen (ks : list string) : list string :=
  foldl (λ acc k, if decide (k ∈ acc) then acc else acc ++ [k]) [] ks.

(** [pd.DataFrame(data_rows)] for a list of dicts: the labels are the keys
    in order of first appearance, a key a row lacks gives a null cell. *)
Definition to_frame (data_rows : list dict) : DataFrame :=
  let cols := first_seen (mjoin (keys <$> data_rows)) in
  {| columns := cols;
     rows := (λ d, fill_row cols (list_to_map d)) <$> data_rows |}.

End Dict.

(** ** Regular expressions: the fragment of [re] the name splitter uses

    Backtracking semantics as a list of successes in priority order;
    [re.match] takes the first. *)

Module Re.

Inductive re : Type :=
  | Dot                                   (* .  : any character but a line feed *)
  | Lit (c : ascii)
  | Range (lo hi : ascii)                 (* [lo-hi] *)
  | Cat (r1 r2 : re)
  | Rep (r : re) (lo : nat) (hi : option nat) (greedy : bool)
                                          (* r{lo,hi}, r+ = r{1,}; lazy with ? *)
  | Group (i : nat) (r : re)              (* capturing group number i *)
  | Bol                                   (* ^ *)
  | Eol.                                  (* $ : at the end, or before a final line feed *)

Definition LF : ascii := "010"%char.

Record state : Type := mkState {
  pos : nat;
  caps : gmap nat (nat * nat)
}.

Definition in_range (lo hi c : ascii) : bool :=
  ((N_of_ascii lo <=? N_of_ascii c) && (N_of_ascii c <=? N_of_ascii hi))%N.

Definition at_eol (s : list ascii) (p : nat) : bool :=
  bool_decide (p = length s)
  || bool_decide (S p = length s) && bool_decide (s !! p = Some LF).

Definition step_char (ok : ascii → bool) (s : list ascii) (st : state) : list state :=
  match s !! pos st with
  | Some c => if ok c then [mkState (S (pos st)) (caps st)] else []
  | None => []
  end.

Definition below (count : nat) (hi : option nat) : bool :=
  match hi with
  | Some h => bool_decide (count < h)%nat
  | None => true
  end.

(** [r{lo,hi}] over the body [step]: [count] iterations are done, [fuel]
    bounds those to come (an iteration consumes a character).  Greedy
    repetition tries one more iteration before stopping, lazy repetition
    stops before trying one more. *)
Fixpoint rep (step : state → list state) (lo : nat) (hi : option nat)
    (greedy : bool) (fuel count : nat) (st : state) : list state :=
  let stop := if decide (lo ≤ count)%nat then [st] else [] in
  let more :=
    match fuel with
    | 0 => []
    | S fuel' =>
        if below count hi
        then st1 ← step st;
             if decide (pos st < pos st1)%nat
             then rep step lo hi greedy fuel' (S count) st1 else []
        else []
    end in
  if greedy then more ++ stop else stop ++ more.

Fixpoint exec (r : re) (s : list ascii) (st : state) : list state :=
  match r with
  | Dot => step_char (λ c, bool_decide (c ≠ LF)) s st
  | Lit c => step_char (λ c', bool_decide (c' = c)) s st
  | Range lo hi => step_char (in_range lo hi) s st
  | Cat r1 r2 => st1 ← exec r1 s st; exec r2 s st1
  | Rep r lo hi greedy => rep (exec r s) lo hi greedy (length s) 0 st
  | Group i r =>
      (λ st1, mkState (pos st1) (<[i := (pos st, pos st1)]> (caps st1)))
        <$> exec r s st
  | Bol => if decide (pos st = 0) then [st] else []
  | Eol => if at_eol s (pos st) then [st] else []
  end.

(** A match object: the subject and the spans of the groups. *)
Record match_obj : Type := mkMatch {
  subject : list ascii;
  spans : gmap nat (nat * nat)
}.

(** [re.match(pattern, string)] *)
Definition re_match (r : re) (str : string) : option match_obj :=
  let s := list_ascii_of_string str in
  mkMatch s ∘ caps <$> head (exec r s (mkState 0 ∅)).

(** [m.group(i)] for a group that took part in the match. *)
Definition group (m : match_obj) (i : nat) : string :=
  match spans m !! i with
  | Some (b, e) => string_of_list_ascii (take (e - b) (drop b (subject m)))
  | None => ""
  end.

Definition plus (r : re) : re := Rep r 1 None true.
Definition plus_lazy (r : re) : re := Rep r 1 None false.
Definition AZ : re := Range "A" "Z".

End Re.

(** ** The live document *)

Section browser.
(** The state of the page and the driver calls the loops make on it.  A
    call that waits or acts may change the page; a call that only reads
    does not. *)
Context {S : Type}.

Record Browser : Type := mkBrowser {
  (** [WebDriverWait(driver, 3).until(element_to_be_clickable(...))]:
      [false] is the [TimeoutException]. *)
  wait_clickable : S → bool * S;
  (** [driver.execute_script("arguments[0].click();", e)]: [false] is any
      exception it raises. *)
  click : S → bool * S;
  (** [time.sleep(2)] *)
  sleep : S → S;
  (** The number of [tbody tr] rows of every [table.Table] element. *)
  table_rows : S → list nat
}.
End browser.
Arguments Browser : clear implicits.

(** ** Source A: [BartTorvikScraper] *)

Module BartTorvikScraper.

Definition desired_columns : list string :=
  ["Rk"; "Player"; "Class"; "Team"; "Conf"; "Min%"; "PRPG!"; "BPM"; "ORtg";
   "Usg"; "eFG"; "TS"; "OR"; "DR"; "Ast"; "TO"; "Blk"; "Stl"; "FTR"; "2P";
   "3P/100"; "3P"].

Definition max_clicks : nat := 30.

(** The [for i in range(max_clicks)] loop of [scrape_data]; [n] is what is
    left of the range.  Returns [clicks] and the page.  The progress line
    printed every fifth click only reads the page. *)
Fixpoint load_more_loop {S} (b : Browser S) (n clicks : nat) (page : S) : nat * S :=
  match n with
  | 0 => (clicks, page)
  | Datatypes.S n' =>
      let '(found, page) := wait_clickable b page in
      if negb found then (clicks, page) else
      let '(clicked, page) := click b page in
      if negb clicked then (clicks, page) else
      let clicks := clicks + 1 in
      let page := sleep b page in
      load_more_loop b n' clicks page
  end.

Definition load_all {S} (b : Browser S) (page : S) : nat * S :=
  load_more_loop b max_clicks 0 page.

(** A [tr] is the texts of its [td] cells; a table is its [tr] rows, the
    header row first; the document is its [table] elements. *)
Abbreviation tr := (list string).
Abbreviation table := (list (list string)).

(** [if len(cells) > i: row_data[field] = cells[i].text.strip()] *)
Definition put (field : string) (i : nat) (cells : tr) (row_data : Dict.dict)
  : Dict.dict :=
  if decide (i < length cells)%nat
  then Dict.set field (VStr (strip (cells !!! i))) row_data
  else row_data.

Definition parse_row (cells : tr) : Dict.dict :=
  let row_data := [] in
  let row_data := put "Rk" 0 cells row_data in
  let row_data := put "Class" 2 cells row_data in
  let row_data := put "Player" 4 cells row_data in
  let row_data := put "Team" 6 cells row_data in
  let row_data := put "Conf" 7 cells row_data in
  let row_data := put "Min%" 10 cells row_data in
  let row_data := put "PRPG!" 11 cells row_data in
  let row_data := put "BPM" 13 cells row_data in
  let row_data := put "ORtg" 16 cells row_data in
  let row_data := put "Usg" 18 cells row_data in
  let row_data := put "eFG" 19 cells row_data in
  let row_data := put "TS" 20 cells row_data in
  let row_data := put "OR" 21 cells row_data in
  let row_data := put "DR" 22 cells row_data in
  let row_data := put "Ast" 23 cells row_data in
  let row_data := put "TO" 24 cells row_data in
  let row_data := put "Blk" 26 cells row_data in
  let row_data := put "Stl" 27 cells row_data in
  let row_data := put "FTR" 28 cells row_data in
  let row_data := put "2P" 39 cells row_data in
  let row_data := put "3P/100" 41 cells row_data in
  let row_data := put "3P" 43 cells row_data in
  row_data.

(** [for row in rows[1:]], with its [continue] on short rows. *)
Fixpoint parse_rows (rows : list tr) : list Dict.dict :=
  match rows with
  | [] => []
  | cells :: rows' =>
      if decide (length cells < 20)%nat then parse_rows rows'
      else parse_row cells :: parse_rows rows'
  end.

(** [scrape_data] from [tables = driver.find_elements(By.TAG_NAME, 'table')]
    on: the loaded document to the frame returned.  [header_texts] is
    computed there and never used. *)
Definition extract (tables : list table) (year : Z) : result DataFrame :=
  if decide (length tables < 2)%nat
  then Raise (ValueError "Player stats table not found") else
  let player_table := tables !!! 1 in
  let rows := player_table in
  if decide (length rows < 2)%nat
  then Raise (ValueError "No data rows found in table") else
  let data_rows := parse_rows (drop 1 rows) in
  let df := Dict.to_frame data_rows in
  let final_columns := filter (λ col, col ∈ columns df) desired_columns in
  df ← select final_columns df ;
  Ok (set_column "Year" (VInt year) df).

(** [append_to_excel] up to the [try] that saves: the frame the call hands
    to [to_excel], from [store], what [read_excel] returned. *)
Definition append_to_excel (store : option DataFrame) (df : DataFrame)
  : result (option DataFrame) :=
  let desired_cols_with_year := desired_columns ++ ["Year"] in
  let df := fill_missing desired_cols_with_year df in
  df ← select desired_cols_with_year df ;
  match load store with
  | Some existing_df =>
      if negb (empty existing_df) then
        let existing_df := fill_missing desired_cols_with_year existing_df in
        existing_df ← select desired_cols_with_year existing_df ;
        let existing_df := drop_year df existing_df in
        Ok (Some (concat existing_df df))
      else Ok (Some df)
  | None => Ok (Some df)
  end.

(** The caller's frame after the call: [df[col] = None] adds the missing
    columns to the frame that was passed in, before [df] is rebound. *)
Definition frame_after (df : DataFrame) : DataFrame :=
  fill_missing (desired_columns ++ ["Year"]) df.

End BartTorvikScraper.

(** ** Source B: [NBAScraper] *)

Module NBAScraper.

Import Re.

(** [^(.+?)([A-Z]{2,4}(?:/[A-Z]{2,4})+)$] *)
Definition multi_team_re : re :=
  Cat Bol
 (Cat (Group 1 (plus_lazy Dot))
 (Cat (Group 2 (Cat (Rep AZ 2 (Some 4) true)
                    (plus (Cat (Lit "/") (Rep AZ 2 (Some 4) true)))))
      Eol)).

(** [^(.+?)([A-Z]{2,4})] *)
Definition fallback_re : re :=
  Cat Bol (Cat (Group 1 (plus_lazy Dot)) (Group 2 (Rep AZ 2 (Some 4) true))).

(** [^(.+?)([A-Z]{2,4})$] *)
Definition standard_re : re :=
  Cat Bol
 (Cat (Group 1 (plus_lazy Dot)) (Cat (Group 2 (Rep AZ 2 (Some 4) true)) Eol)).

Definition contains_slash (name_text : string) : bool :=
  bool_decide ("/"%char ∈ list_ascii_of_string name_text).

(** [name_text[n:]] *)
Definition slice_from (n : nat) (name_text : string) : string :=
  string_of_list_ascii (drop n (list_ascii_of_string name_text)).

Definition extract_player_name_and_team (name_text : string) : string * string :=
  if contains_slash name_text then
    match re_match multi_team_re name_text with
    | Some m => (group m 1, group m 2)
    | None =>
        match re_match fallback_re name_text with
        | Some m =>
            let player_name := group m 1 in
            let team := slice_from (String.length player_name) name_text in
            (player_name, team)
        | None => (name_text, "")
        end
    end
  else
    match re_match standard_re name_text with
    | Some m => (group m 1, group m 2)
    | None => (name_text, "")
    end.

Definition max_clicks : nat := 20.

(** The [for i in range(max_clicks)] loop of [scrape_data]; [n] is what is
    left of the range. *)
Fixpoint show_more_loop {S} (b : Browser S) (n clicks previous_row_count : nat)
    (page : S) : nat * S :=
  match n with
  | 0 => (clicks, page)
  | Datatypes.S n' =>
      let '(found, page) := wait_clickable b page in
      if negb found then (clicks, page) else
      let tables_before := table_rows b page in
      let previous_row_count :=
        if decide (2 ≤ length tables_before)%nat then tables_before !!! 0
        else previous_row_count in
      let '(clicked, page) := click b page in
      if negb clicked then (clicks, page) else
      let clicks := clicks + 1 in
      let page := sleep b page in
      let tables_after := table_rows b page in
      if decide (2 ≤ length tables_after)%nat then
        let current_row_count := tables_after !!! 0 in
        if decide (current_row_count = previous_row_count) then (clicks, page)
        else show_more_loop b n' clicks current_row_count page
      else show_more_loop b n' clicks previous_row_count page
  end.

Definition load_all {S} (b : Browser S) (page : S) : nat * S :=
  show_more_loop b max_clicks 0 0 page.

(** A [table.Table] element: the [th] texts of its [thead], when it has one,
    and the [td] texts of each [tbody tr]. *)
Record table : Type := mkTable {
  thead : option (list string);
  tbody : list (list string)
}.

(** [for j, header in enumerate(stats_headers): if j < len(stats_cells): ...] *)
Fixpoint add_stats (j : nat) (stats_headers stats_cells : list string)
    (row_data : Dict.dict) : Dict.dict :=
  match stats_headers with
  | [] => row_data
  | header :: rest =>
      let row_data :=
        if decide (j < length stats_cells)%nat
        then Dict.set header (VStr (strip (stats_cells !!! j))) row_data
        else row_data in
      add_stats (j + 1) rest stats_cells row_data
  end.

(** [for i in range(min_rows)], with its two [continue]s. *)
Fixpoint parse_rows (stats_headers : list string)
    (name_rows stats_rows : list (list string)) : list Dict.dict :=
  match name_rows, stats_rows with
  | name_cells :: name_rows', stats_cells :: stats_rows' =>
      if decide (length name_cells < 2)%nat
      then parse_rows stats_headers name_rows' stats_rows' else
      let rk := strip (name_cells !!! 0) in
      let name_text := strip (name_cells !!! 1) in
      let '(player_name, team) := extract_player_name_and_team name_text in
      if decide (length stats_cells < length stats_headers)%nat
      then parse_rows stats_headers name_rows' stats_rows' else
      let row_data :=
        [("RK", VStr rk); ("Player", VStr player_name); ("Team", VStr team)] in
      let row_data := add_stats 0 stats_headers stats_cells row_data in
      row_data :: parse_rows stats_headers name_rows' stats_rows'
  | _, _ => []
  end.

(** [scrape_data] from [tables = driver.find_elements(By.CSS_SELECTOR,
    "table.Table")] on.  [find_element] (singular) raises when the stats
    table has no [thead].  The message of the [ValueError] is kept without
    the count it formats in. *)
Definition extract (tables : list table) (year : Z) : result DataFrame :=
  match tables with
  | name_table :: stats_table :: _ =>
      stats_header_cells ←
        match thead stats_table with
        | Some cells => Ok cells
        | None => Raise NoSuchElementException
        end ;
      let stats_headers := strip <$> stats_header_cells in
      let name_rows := tbody name_table in
      let stats_rows := tbody stats_table in
      let data_rows := parse_rows stats_headers name_rows stats_rows in
      let df := Dict.to_frame data_rows in
      Ok (set_column "Year" (VInt year) df)
  | _ => Raise (ValueError "Expected 2 tables")
  end.

Definition priority_cols : list string := ["RK"; "Player"; "Team"].

(** [sorted(...)] on labels: by code point, lexicographically. *)
Definition sorted (l : list string) : list string := merge_sort String.le l.

(** The four lines that build [column_order], the same in both branches of
    [append_to_excel]; [cols] is [all_columns], respectively [df.columns]. *)
Definition column_order (cols : list string) : list string :=
  let other_cols :=
    sorted (filter (λ col, (col ∉ priority_cols) ∧ (col ≠ "Year")) cols) in
  let column_order :=
    priority_cols ++ other_cols
      ++ (if decide ("Year" ∈ cols) then ["Year"] else []) in
  filter (λ col, col ∈ cols) column_order.

(** [append_to_excel] up to the [try] that saves: the frame the call hands
    to [to_excel], from [store], what [read_excel] returned; on an empty
    frame the call returns at once, and [store] is handed back. *)
Definition append_to_excel (store : option DataFrame) (df : DataFrame)
  : result (option DataFrame) :=
  if empty df then Ok store else
  match load store with
  | Some existing_df =>
      if negb (empty existing_df) then
        let all_columns :=
          sorted (remove_dups (columns df ++ columns existing_df)) in
        let df := fill_missing all_columns df in
        let existing_df := fill_missing all_columns existing_df in
        let column_order := column_order all_columns in
        df ← select column_order df ;
        existing_df ← select column_order existing_df ;
        let existing_df := drop_year df existing_df in
        Ok (Some (concat existing_df df))
      else
        df ← select (column_order (columns df)) df ;
        Ok (Some df)
  | None =>
      df ← select (column_order (columns df)) df ;
      Ok (Some df)
  end.

(** The caller's frame after the call: the branch that merges into a loaded
    sheet adds the missing columns to the frame that was passed in. *)
Definition frame_after (store : option DataFrame) (df : DataFrame) : DataFrame :=
  if empty df then df else
  match load store with
  | Some existing_df =>
      if negb (empty existing_df)
      then fill_missing (sorted (remove_dups (columns df ++ columns existing_df))) df
      else df
  | None => df
  end.

End NBAScraper.

(** ** Vocabulary of the statements *)

(** A row brought to the labels [cols]: cells outside [cols] dropped, cells
    of [cols] the row lacks null. *)
Definition norm (cols : list string) (r : gmap string value) : gmap string value :=
  project cols (fill_row cols r).

(** The sheet a call hands to [to_excel]. *)
Definition writes (call : result (option DataFrame)) (sheet : DataFrame) : Prop :=
  call = Ok (Some sheet).

(** What [read_excel] returned is a frame; no sheet is fine too. *)
Definition store_wf (store : option DataFrame) : Prop :=
  ∀ existing_df, store = Some existing_df → wf existing_df.

(** The rows of the loaded sheet that a merge keeps, brought to [cols]:
    all of them when the new frame gives no year, else those whose [Year]
    differs from it. *)
Definition kept (cols : list string) (existing_df df : DataFrame)
  : list (gmap string value) :=
  match year_to_append df with
  | VNull => norm cols <$> rows existing_df
  | y => filter (λ r, value_ne (cell "Year" r) y = true)
                (norm cols <$> rows existing_df)
  end.

(** [desired_cols_with_year] of source A. *)
Definition cols_a : list string := BartTorvikScraper.desired_columns ++ ["Year"].

(** [column_order] of source B for a sheet and a new frame: built from
    [all_columns] when a sheet is loaded, from [df.columns] otherwise. *)
Definition cols_b (store : option DataFrame) (df : DataFrame) : list string :=
  NBAScraper.column_order
    match load store with
    | Some existing_df =>
        NBAScraper.sorted (remove_dups (columns df ++ columns existing_df))
    | None => columns df
    end.

(** The merged sheet under the labels [cols]: what is kept of the loaded
    sheet, then the new rows. *)
Definition merged (cols : list string) (store : option DataFrame) (df : DataFrame)
  : DataFrame :=
  {| columns := cols;
     rows := match load store with
             | Some existing_df => kept cols existing_df df
             | None => []
             end ++ (norm cols <$> rows df) |}.

Global Instance row_ok_dec cols r : Decision (row_ok cols r).
Proof. unfold row_ok. apply _. Defined.

Global Instance wf_dec df : Decision (wf df).
Proof. unfold wf. apply _. Defined.

(** Season isolation as the specification words it, for a merge [append]:
    every record of the persisted sheet whose [Year] differs from the new
    records' is found in the merged sheet with all its field values. *)
Definition season_isolation
    (append : option DataFrame → DataFrame → result (option DataFrame)) : Prop :=
  ∀ existing_df df sheet y r,
    wf existing_df → wf df →
    (∀ r', r' ∈ rows df → r' !! "Year" = Some y) →
    writes (append (Some existing_df) df) sheet →
    r ∈ rows existing_df → r !! "Year" ≠ Some y →
    ∃ r', r' ∈ rows sheet ∧ ∀ c v, r !! c = Some v → r' !! c = Some v.

(** ** Sample frames *)

(** A persisted sheet with a column no whitelist knows. *)
Definition sheet_2020 : DataFrame :=
  {| columns := ["Rk"; "Scout"; "Year"];
     rows := [ {[ "Rk" := VStr "1"; "Scout" := VStr "x"; "Year" := VInt 2020 ]};
               {[ "Rk" := VStr "2"; "Scout" := VStr "y"; "Year" := VInt 2021 ]} ] |}.

Definition season_2021 : DataFrame :=
  {| columns := ["Rk"; "Player"; "Year"];
     rows := [ {[ "Rk" := VStr "7"; "Player" := VStr "Bob"; "Year" := VInt 2021 ]} ] |}.

Definition nba_sheet_2020 : DataFrame :=
  {| columns := ["RK"; "Player"; "Team"; "GP"; "Year"];
     rows := [ {[ "RK" := VStr "1"; "Player" := VStr "ray allen";
                  "Team" := VStr "MIA"; "GP" := VStr "70"; "Year" := VInt 2020 ]};
               {[ "RK" := VStr "1"; "Player" := VStr "old row";
                  "Team" := VStr "SA"; "GP" := VStr "3"; "Year" := VInt 2021 ]} ] |}.


(** The documented layout of a source A data row: cell position, field. *)
Definition documented_layout : list (nat * string) :=
  [(0, "Rk"); (2, "Class"); (4, "Player"); (6, "Team"); (7, "Conf");
   (10, "Min%"); (11, "PRPG!"); (13, "BPM"); (16, "ORtg"); (18, "Usg");
   (19, "eFG"); (20, "TS"); (21, "OR"); (22, "DR"); (23, "Ast"); (24, "TO");
   (26, "Blk"); (27, "Stl"); (28, "FTR");
   (39, "2P"); (41, "3P/100"); (43, "3P")].

(** A source A document: a layout table, then the player table with its
    header row, a separator row and one data row of 44 cells. *)
Definition player_row : list string :=
  ["1"; ""; " Jr"; ""; "Zach Edey "; ""; "Purdue"; "B10"; ""; ""; "74.3";
   "8.3"; ""; "13.2"; ""; ""; "130.8"; ""; "33.4"; "62.4"; "67.1"; "16.0";
   "25.6"; "11.1"; "13.7"; ""; "6.4"; "0.6"; "71.4"; ""; ""; ""; ""; "";
   ""; ""; ""; ""; ""; ".624"; ""; "0.2"; ""; ".500"].

Definition torvik_document : list (list (list string)) :=
  [ [["menu"]];
    [ ["Rk"; "Player"; "Team"]; ["separator"]; player_row ] ].

(** A source B document with both tables and no data row. *)
Definition nba_document_without_rows : list NBAScraper.table :=
  [ {| NBAScraper.thead := Some ["RK"; "Name"]; NBAScraper.tbody := [] |};
    {| NBAScraper.thead := Some ["POS"; "GP"; "PTS"]; NBAScraper.tbody := [] |} ].

(** The rows of a source B table: a header row when there is a [thead],
    and the [tbody] rows. *)
Definition table_row_count (t : NBAScraper.table) : nat :=
  match NBAScraper.thead t with Some _ => 1 | None => 0 end
  + length (NBAScraper.tbody t).

(** Extraction fails exactly on structurally short documents, as the
    specification words it for source B. *)
Definition fails_iff_short_b : Prop :=
  ∀ (tables : list NBAScraper.table) (year : Z),
    (∃ e, NBAScraper.extract tables year = Raise e)
    ↔ (length tables < 2)%nat
      ∨ (∃ t, t ∈ take 2 tables ∧ (table_row_count t < 2)%nat).

(** ** Pagination vocabulary *)

(** The same browser with a counter of the calls to [click], successful or
    not: the click attempts. *)
Definition counting {S} (b : Browser S) : Browser (S * nat) :=
  {| wait_clickable := λ st, let '(found, page) := wait_clickable b st.1 in
                             (found, (page, st.2));
     click := λ st, let '(clicked, page) := click b st.1 in
                    (clicked, (page, Datatypes.S st.2));
     sleep := λ st, (sleep b st.1, st.2);
     table_rows := λ st, table_rows b st.1 |}.

(** The rendered row count: the rows of the first [table.Table] element. *)
Definition rendered_rows {S} (b : Browser S) (page : S) : nat :=
  default 0 (head (table_rows b page)).

(** Row-count-stable termination as the specification words it. *)
Definition stops_when_rows_stall : Prop :=
  ∀ (S : Type) (b : Browser S) (n clicks previous_row_count : nat) (page : S),
    let before := (wait_clickable b page).2 in
    let after := sleep b (click b before).2 in
    (wait_clickable b page).1 = true → (click b before).1 = true →
    rendered_rows b after = rendered_rows b before →
    NBAScraper.show_more_loop b (Datatypes.S n) clicks previous_row_count page
    = (clicks + 1, after).

(** A page whose affordance stays clickable and whose click loads 50 more
    rows into both tables; the state is the row count. *)
Definition endless_page : Browser nat :=
  {| wait_clickable := λ rows, (true, rows);
     click := λ rows, (true, rows + 50);
     sleep := λ rows, rows;
     table_rows := λ rows, [rows; rows] |}.

(** A page with a single [table.Table] of 50 rows whose affordance stays
    clickable and loads nothing. *)
Definition single_table_page : Browser unit :=
  {| wait_clickable := λ page, (true, page);
     click := λ page, (true, page);
     sleep := λ page, page;
     table_rows := λ _, [50] |}.

(** A page with both tables at 600 rows whose affordance stays clickable
    and loads nothing. *)
Definition finished_page : Browser unit :=
  {| wait_clickable := λ page, (true, page);
     click := λ page, (true, page);
     sleep := λ page, page;
     table_rows := λ _, [600; 600] |}.

(** ** Regular expressions, declaratively *)

(** [n] consecutive non-empty steps of [R] lead from [i] to [j]. *)
Fixpoint power (R : nat → nat → Prop) (n i j : nat) : Prop :=
  match n with
  | 0 => i = j
  | Datatypes.S n' => ∃ k, R i k ∧ (i < k)%nat ∧ power R n' k j
  end.

(** [r] matches the characters of [s] from position [i] up to [j]. *)
Fixpoint matches (r : Re.re) (s : list ascii) (i j : nat) : Prop :=
  match r with
  | Re.Dot => j = Datatypes.S i ∧ ∃ c, s !! i = Some c ∧ c ≠ Re.LF
  | Re.Lit c => j = Datatypes.S i ∧ s !! i = Some c
  | Re.Range lo hi =>
      j = Datatypes.S i ∧ ∃ c, s !! i = Some c ∧ Re.in_range lo hi c = true
  | Re.Cat r1 r2 => ∃ k, matches r1 s i k ∧ matches r2 s k j
  | Re.Rep r lo hi _ =>
      ∃ n, (lo ≤ n)%nat
        ∧ match hi with Some h => (n ≤ h)%nat | None => True end
        ∧ power (matches r s) n i j
  | Re.Group _ r => matches r s i j
  | Re.Bol => i = 0 ∧ j = 0
  | Re.Eol => j = i ∧ Re.at_eol s i = true
  end.

Fixpoint groups (r : Re.re) : list nat :=
  match r with
  | Re.Cat r1 r2 => groups r1 ++ groups r2
  | Re.Rep r _ _ _ => groups r
  | Re.Group i r => i :: groups r
  | _ => []
  end.

(** ** Shapes of a name text *)

Definition upper_at (l : list ascii) (k : nat) : bool :=
  match l !! k with
  | Some c => Re.in_range "A" "Z" c
  | None => false
  end.

(** The text ends in a line feed. *)
Definition ends_with_LF (name_text : string) : bool :=
  bool_decide (last (list_ascii_of_string name_text) = Some Re.LF).

(** The text ends in two uppercase letters, that is in a run of 2 to 4 (or
    more) of them. *)
Definition ends_in_team_code (name_text : string) : bool :=
  let l := list_ascii_of_string name_text in
  bool_decide (2 ≤ length l)%nat
  && upper_at l (length l - 2) && upper_at l (length l - 1).

(** Somewhere after its first character the text has two uppercase letters
    in a row. *)
Definition team_code_inside (name_text : string) : bool :=
  let l := list_ascii_of_string name_text in
  existsb (λ k, upper_at l k && upper_at l (Datatypes.S k)) (seq 1 (length l)).

(** The splitter as the specification words it: lossless on every input,
    and the whole input with an empty team when the input neither ends in
    a team code nor matches the multi-team pattern. *)
Definition splitter_lossless : Prop :=
  ∀ name_text : string,
    let '(player_name, team) := NBAScraper.extract_player_name_and_team name_text in
    String.append player_name team = name_text
    ∧ (ends_in_team_code name_text = false →
       Re.re_match NBAScraper.multi_team_re name_text = None →
       (player_name, team) = (name_text, "")).

(** A match object [m] on the characters [l] that splits them at [p1] and
    ends its second group at [p2]: the first group is not empty, the second
    starts with two uppercase letters. *)
Definition splits_at (l : list ascii) (m : Re.match_obj) (p1 p2 : nat) : Prop :=
  (1 ≤ p1)%nat ∧ (p1 + 2 ≤ p2)%nat ∧ (p2 ≤ length l)%nat
  ∧ upper_at l p1 = true ∧ upper_at l (Datatypes.S p1) = true
  ∧ Re.group m 1 = string_of_list_ascii (take p1 l)
  ∧ Re.group m 2 = string_of_list_ascii (take (p2 - p1) (drop p1 l)).

(** A source B document: the name table and the stats table, two players. *)
Definition nba_document : list NBAScraper.table :=
  [ {| NBAScraper.thead := Some ["RK"; "Name"];
       NBAScraper.tbody := [ ["1"; "ray allenMIA"];
                             ["2"; "De'Aaron FoxSAC/SA"] ] |};
    {| NBAScraper.thead := Some ["POS"; "GP"; "PTS"];
       NBAScraper.tbody := [ ["SG"; "70"; "21.8"]; ["PG"; "65"; "25.1"] ] |} ].

(** The frame extracted from it for 2021. *)
Definition nba_frame_2021 : DataFrame :=
  match NBAScraper.extract nba_document 2021 with
  | Ok df => df
  | Raise _ => {| columns := []; rows := [] |}
  end.

(** ** Further vocabulary *)

(** The data rows source A keeps: those of at least 20 cells. *)
Definition kept_rows_a (tables : list (list (list string))) : list (list string) :=
  filter (λ cells, 20 ≤ length cells)%nat (drop 1 (tables !!! 1)).

(** The pairs of rows source B keeps from the positional join of the name
    table and the stats table: at least two name cells, and a stats cell for
    every header. *)
Definition kept_pairs_b (headers : list string)
    (name_rows stats_rows : list (list string))
  : list (list string * list string) :=
  filter (λ p, 2 ≤ length p.1 ∧ length headers ≤ length p.2)%nat
         (zip name_rows stats_rows).

(** The frame extracted from [torvik_document] for 2021. *)
Definition torvik_frame_2021 : DataFrame :=
  match BartTorvikScraper.extract torvik_document 2021 with
  | Ok df => df
  | Raise _ => {| columns := []; rows := [] |}
  end.

(** The record source B builds from a row of the name table and the row of
    the stats table at the same position: the body of its row loop past the
    two [continue]s. *)
Definition build_record (headers : list string) (p : list string * list string)
  : Dict.dict :=
  NBAScraper.add_stats 0 headers p.2
    [("RK", VStr (strip (p.1 !!! 0)));
     ("Player",
      VStr (NBAScraper.extract_player_name_and_team (strip (p.1 !!! 1))).1);
     ("Team",
      VStr (NBAScraper.extract_player_name_and_team (strip (p.1 !!! 1))).2)].

(** A source A document whose player table has a header and a separator
    row, and no data row. *)
Definition torvik_document_without_rows : list (list (list string)) :=
  [ [["menu"]]; [ ["Rk"; "Player"; "Team"]; ["separator"] ] ].

(** A page whose affordance is clickable and whose click raises. *)
Definition broken_page : Browser unit :=
  {| wait_clickable := λ page, (true, page);
     click := λ page, (false, page);
     sleep := λ page, page;
     table_rows := λ _, [50; 50] |}.

(** ** The text of a name cell of source B *)

(** A team code: two to four uppercase letters. *)
Definition is_team_code (code : list ascii) : bool :=
  bool_decide (2 ≤ length code ≤ 4)%nat && forallb (Re.in_range "A" "Z") code.

(** The codes that follow the first, each after a slash. *)
Definition slash_tail (codes : list (list ascii)) : list ascii :=
  mjoin ((λ code, "/"%char :: code) <$> codes).

(** ["/".join(codes)] *)
Definition join_slash (codes : list (list ascii)) : list ascii :=
  match codes with
  | [] => []
  | code :: codes' => code ++ slash_tail codes'
  end.

(** An uppercase letter, as [[A-Z]] reads it. *)
Definition is_upper (c : ascii) : bool := Re.in_range "A" "Z" c.

(** ** The file at [excel_path] *)

(** What [append_to_excel] asks of pandas and of the file system, over the
    states [F] of the file. *)
Record Excel (F : Type) : Type := mkExcel {
  (** [os.path.exists] and [pd.read_excel] under its [try]: the frame read,
      [None] where the file is missing or the read raises. *)
  read_excel : F → option DataFrame;
  (** [combined_df.to_excel(...)]: the file it leaves, and [false] for any
      exception it raises. *)
  to_excel : DataFrame → F → bool * F;
  (** The three [print]s that follow [to_excel] inside the same [try]; the
      last evaluates [sorted(combined_df['Year'].unique())], which raises on
      years that cannot be compared with one another: [false] is that
      exception. *)
  report : DataFrame → bool
}.
Arguments read_excel {F} _ _.
Arguments to_excel {F} _ _ _.
Arguments report {F} _ _.

(** The [try] that ends [append_to_excel]: write, print, and re-raise what
    either raises.  It gives whether the call returns, and the file it
    leaves: a call that raises in the prints has written. *)
Definition save {F} (x : Excel F) (combined_df : DataFrame) (file : F)
  : bool * F :=
  let '(saved, file) := to_excel x combined_df file in
  (saved && report x combined_df, file).

(** ** Reading a written sheet *)

(** [read] is a reading of the sheet [written] as far as the year [y] goes:
    the rows come back in the order they were written, and a row comes back
    with the year [y] exactly when it was written with it. *)
Definition reads_year (y : value) (written read : DataFrame) : Prop :=
  Forall2 (λ r r', cell "Year" r' = y ↔ cell "Year" r = y)
          (rows written) (rows read).

(** [read] is a reading of [written] as far as the years go: the rows in
    the order they were written, each with the year it was written with. *)
Definition same_years (written read : DataFrame) : Prop :=
  Forall2 (λ r r', cell "Year" r' = cell "Year" r) (rows written) (rows read).

Global Instance reads_year_dec y written read :
  Decision (reads_year y written read).
Proof. unfold reads_year. apply _. Defined.

Global Instance same_years_dec written read : Decision (same_years written read).
Proof. unfold same_years. apply _. Defined.

(** A row stamped with an integer year of at most four digits. *)
Definition year_row (r : gmap string value) : bool :=
  match cell "Year" r with
  | VInt y => bool_decide (0 ≤ y < 10000)%Z
  | _ => false
  end.

(** The round trip the seasons of a run go through, as a condition on the
    file: [to_excel] returns on a sheet whose rows are all stamped with a
    year, and the next read returns a frame with the same rows in the same
    order, each with its year.  Nothing is asked of the other cells, which
    [read_excel] types anew, nor of the labels. *)
Definition keeps_years {F} (x : Excel F) : Prop :=
  ∀ (sheet : DataFrame) (file : F),
    wf sheet → Forall (λ r, year_row r = true) (rows sheet) →
    (to_excel x sheet file).1 = true
    ∧ ∃ e, read_excel x (to_excel x sheet file).2 = Some e
         ∧ wf e ∧ same_years sheet e.

(** The rows of the year [y] in what [read_excel] returns of a file. *)
Definition year_rows {F} (x : Excel F) (y : Z) (file : F)
  : list (gmap string value) :=
  filter (λ r, cell "Year" r = VInt y)
         match read_excel x file with
         | Some e => rows e
         | None => []
         end.

(** *** Integer texts

    [read_excel] infers the type of every column from its cells: a column
    whose cells are all numbers, texts that denote numbers, or empty comes
    back as numbers, and any other column comes back cell for cell.  The
    part of this that is modelled: integers written with one to nine digits,
    and words, that is texts of letters that pandas reads as nothing else. *)

Definition is_digit (c : ascii) : bool := Re.in_range "0" "9" c.

Definition is_letter (c : ascii) : bool :=
  Re.in_range "A" "Z" c || Re.in_range "a" "z" c.

Definition lower (c : ascii) : ascii :=
  if Re.in_range "A" "Z" c then ascii_of_N (N_of_ascii c + 32) else c.

(** The integer a text of one to nine digits denotes; a text that starts
    with a zero is left out, the text of the digit zero apart. *)
Definition integer_text (s : string) : option Z :=
  let l := list_ascii_of_string s in
  match l with
  | [] => None
  | c :: l' =>
      if forallb is_digit l && bool_decide (length l ≤ 9)%nat
         && (negb (bool_decide (c = "0"%char)) || bool_decide (l' = []))
      then Some (foldl (λ n d, 10 * n + (Z.of_N (N_of_ascii d) - 48))%Z 0%Z l)
      else None
  end.

(** The words that pandas reads as a missing value, a float or a boolean,
    in lower case. *)
Definition special_words : list string :=
  ["na"; "nan"; "null"; "none"; "inf"; "infinity"; "true"; "false"].

(** A text of letters that is none of these words, in any case, and that
    fits into a cell. *)
Definition word (s : string) : bool :=
  let l := list_ascii_of_string s in
  bool_decide (l ≠ []) && forallb is_letter l
  && bool_decide (Z.of_nat (length l) ≤ 32767)%Z
  && bool_decide (string_of_list_ascii (lower <$> l) ∉ special_words).

(** A cell that counts as a number when the type of its column is
    inferred. *)
Definition numeric (v : value) : bool :=
  match v with
  | VNull | VInt _ => true
  | VStr s => bool_decide (is_Some (integer_text s))
  end.

Definition to_number (v : value) : value :=
  match v with
  | VStr s => match integer_text s with Some z => VInt z | None => v end
  | _ => v
  end.

Definition numeric_column (df : DataFrame) (col : string) : bool :=
  forallb (λ r, numeric (cell col r)) (rows df).

(** A row of the sheet [df] with its cells in the columns of numbers and
    integer texts turned into numbers. *)
Definition retype_row (df : DataFrame) (r : gmap string value)
  : gmap string value :=
  map_imap (λ col v, Some (if numeric_column df col then to_number v else v)) r.

(** The sheet with every column of numbers and integer texts turned into
    numbers, and every other column as it is. *)
Definition retype (df : DataFrame) : DataFrame :=
  {| columns := columns df; rows := retype_row df <$> rows df |}.

(** The cells and labels of the modelled part: a cell is empty, an integer
    of at most nine digits, an integer text or a word; a label has a
    letter and is no special word. *)
Definition plain_cell (v : value) : bool :=
  match v with
  | VNull => true
  | VInt z => bool_decide (0 ≤ z < 1000000000)%Z
  | VStr s => bool_decide (is_Some (integer_text s)) || word s
  end.

Definition plain_label (s : string) : bool :=
  let l := list_ascii_of_string s in
  existsb is_letter l
  && bool_decide (Z.of_nat (length l) ≤ 32767)%Z
  && bool_decide (string_of_list_ascii (lower <$> l) ∉ special_words).

(** A sheet of the modelled part: a frame with at least one row that fits
    into a worksheet, with plain labels and plain cells, and with no row
    that is empty throughout (the reader drops such rows at the end of a
    sheet). *)
Definition covered (df : DataFrame) : bool :=
  bool_decide (wf df) && bool_decide (rows df ≠ [])
  && bool_decide (Z.of_nat (length (rows df)) < 1048576)%Z
  && bool_decide (Z.of_nat (length (columns df)) ≤ 16384)%Z
  && forallb plain_label (columns df)
  && forallb (λ r, forallb (λ col, plain_cell (cell col r)) (columns df)
                   && existsb (λ col, bool_decide (cell col r ≠ VNull))
                              (columns df))
             (rows df).

(** [pd.read_excel] of the file [to_excel] wrote from [df], for a sheet of
    the modelled part; [None] outside of it. *)
Definition read_back (df : DataFrame) : option DataFrame :=
  if covered df then Some (retype df) else None.

(** A file that holds the frame last written, read with every column of
    integer texts turned into numbers; writing and the prints return. *)
Definition typed_file : Excel (option DataFrame) :=
  {| read_excel := λ file, retype <$> file;
     to_excel := λ combined_df _, (true, Some combined_df);
     report := λ _, true |}.

(** Idempotent rerun as the specification words it, for a merge [append]:
    the second merge, which starts from what is read of the sheet the first
    one wrote, writes that sheet again.  The sheet the first merge starts
    from is one that a read returns. *)
Definition rerun_writes_the_same
    (append : option DataFrame → DataFrame → result (option DataFrame)) : Prop :=
  ∀ (existing_df df sheet sheet_read sheet' : DataFrame) (y : Z),
    wf existing_df → read_back existing_df = Some existing_df →
    wf df → rows df ≠ [] →
    (∀ r, r ∈ rows df → r !! "Year" = Some (VInt y)) →
    writes (append (Some existing_df) df) sheet →
    read_back sheet = Some sheet_read →
    writes (append (Some sheet_read) df) sheet' →
    sheet' = sheet.

(** A sheet as it is read, with a rank column that a word keeps textual:
    one row of 2020, one of 2021. *)
Definition ranked_sheet : DataFrame :=
  {| columns := ["Rk"; "Year"];
     rows := [ {[ "Rk" := VStr "7"; "Year" := VInt 2020 ]};
               {[ "Rk" := VStr "NR"; "Year" := VInt 2021 ]} ] |}.

(** A record scraped for 2021. *)
Definition ranked_2021 : DataFrame :=
  {| columns := ["Rk"; "Year"];
     rows := [ {[ "Rk" := VStr "5"; "Year" := VInt 2021 ]} ] |}.

(** The same for source B: the games column was read as numbers, the rank
    column as texts. *)
Definition nba_ranked_sheet : DataFrame :=
  {| columns := ["RK"; "Player"; "Team"; "GP"; "Year"];
     rows := [ {[ "RK" := VStr "7"; "Player" := VStr "allen";
                  "Team" := VStr "MIA"; "GP" := VInt 70; "Year" := VInt 2020 ]};
               {[ "RK" := VStr "NR"; "Player" := VStr "old";
                  "Team" := VStr "SA"; "GP" := VInt 3; "Year" := VInt 2021 ]} ] |}.

Definition nba_ranked_2021 : DataFrame :=
  {| columns := ["RK"; "Player"; "Team"; "GP"; "Year"];
     rows := [ {[ "RK" := VStr "5"; "Player" := VStr "fox";
                  "Team" := VStr "SAC"; "GP" := VStr "65"; "Year" := VInt 2021 ]} ] |}.

(** The sheet a merge hands to [to_excel], or a frame without labels. *)
Definition written (call : result (option DataFrame)) : DataFrame :=
  match call with
  | Ok (Some sheet) => sheet
  | _ => {| columns := []; rows := [] |}
  end.

(** The sheet source A writes when [ranked_2021] is merged into
    [ranked_sheet], and what is read of it: the ranks come back as
    numbers. *)
Definition ranked_written : DataFrame :=
  written (BartTorvikScraper.append_to_excel (Some ranked_sheet) ranked_2021).

Definition ranked_read : DataFrame := retype ranked_written.

(** The same for source B. *)
Definition nba_ranked_written : DataFrame :=
  written (NBAScraper.append_to_excel (Some nba_ranked_sheet) nba_ranked_2021).

Definition nba_ranked_read : DataFrame := retype nba_ranked_written.

(** A source A document whose player table has a data row of 20 cells
    before the one of 44. *)
Definition torvik_document_short_row : list (list (list string)) :=
  [ [["menu"]];
    [ ["Rk"; "Player"; "Team"]; ["separator"]; take 20 player_row; player_row ] ].

(** The frame extracted from it for 2021. *)
Definition torvik_frame_short_row : DataFrame :=
  match BartTorvikScraper.extract torvik_document_short_row 2021 with
  | Ok df => df
  | Raise _ => {| columns := []; rows := [] |}
  end.

(** A sheet with a row of 1999 and a row of 2021. *)
Definition sheet_1999 : DataFrame :=
  {| columns := ["Rk"; "Scout"; "Year"];
     rows := [ {[ "Rk" := VStr "1"; "Scout" := VStr "x"; "Year" := VInt 1999 ]};
               {[ "Rk" := VStr "2"; "Scout" := VStr "y"; "Year" := VInt 2021 ]} ] |}.

(** The rows a merge starts from. *)
Definition loaded_rows (store : option DataFrame) : list (gmap string value) :=
  match load store with
  | Some existing_df => rows existing_df
  | None => []
  end.

(** What is read of the file is a frame whose rows are all stamped with a
    year; no file is fine too. *)
Definition stamped {F} (x : Excel F) (file : F) : Prop :=
  ∀ e, read_excel x file = Some e →
       wf e ∧ Forall (λ r, year_row r = true) (rows e).

(** ** Driving the browser: the session, a season's scrape, the main block *)

(** What [scrape_data] raises: the browser cannot be launched or the page
    cannot be requested, no table shows up in time, or the tables cannot be
    read. *)
Inductive failure : Type :=
  | WebDriverException
  | TimeoutException
  | Extraction (e : exn).

Section session.
(** [W] is the state of everything outside the script but the file (the
    browser process and the site), [T] what a [table] element is read as,
    [F] the state of the file at [excel_path]. *)
Context {W T F : Type}.

Record Chrome : Type := mkChrome {
  (** [webdriver.Chrome(service=Service(ChromeDriverManager().install()),
      options=chrome_options)]: [false] is any exception it raises. *)
  launch : W → bool * W;
  (** [driver.quit()], taken to return *)
  quit : W → W;
  (** [driver.get(url)]: [false] is any exception it raises. *)
  get : string → W → bool * W;
  (** [WebDriverWait(driver, 20).until(presence_of_element_located(...))]:
      [false] is the [TimeoutException]. *)
  wait_present : W → bool * W;
  (** [time.sleep(n)] outside the pagination loop *)
  pause : nat → W → W;
  (** the calls of the pagination loop *)
  paging : Browser W;
  (** [driver.find_elements(...)] for the tables, with what the extraction
      reads of them; it leaves the page as it is *)
  find_tables : W → list T
}.

(** The scraper object ([self.driver is not None], as [driver]) with the
    world it acts on and the file at [self.excel_path]. *)
Record scraper : Type := mkScraper {
  world : W;
  driver : bool;
  excel : F
}.

Definition _get_driver (c : Chrome) (self : scraper) : bool * scraper :=
  if driver self then (true, self) else
  let '(launched, w) := launch c (world self) in
  (launched, {| world := w; driver := launched; excel := excel self |}).

Definition close_driver (c : Chrome) (self : scraper) : scraper :=
  if driver self
  then {| world := quit c (world self); driver := false; excel := excel self |}
  else self.

(** [scrape_data] of either class, given what the two differ in: the URL,
    the seconds slept before and after the pagination loop, the loop, and
    the extraction from the tables.  [_get_driver] is called before the
    [try]; the [except] clause prints and re-raises. *)
Definition scrape (c : Chrome) (url : string) (settle : nat)
    (load_all : Browser W → W → nat * W) (render : nat)
    (extract : list T → Z → result DataFrame) (year : Z) (self : scraper)
  : (failure + DataFrame) * scraper :=
  let '(launched, self) := _get_driver c self in
  if negb launched then (inl WebDriverException, self) else
  let at_world w := {| world := w; driver := driver self; excel := excel self |} in
  let '(loaded, w) := get c url (world self) in
  if negb loaded then (inl WebDriverException, at_world w) else
  let '(present, w) := wait_present c w in
  if negb present then (inl TimeoutException, at_world w) else
  let w := pause c settle w in
  let '(_, w) := load_all (paging c) w in
  let w := pause c render w in
  let tables := find_tables c w in
  match extract tables year with
  | Ok df => (inr df, at_world w)
  | Raise e => (inl (Extraction e), at_world w)
  end.

(** The state of the main block: the scraper and the two counters. *)
Record run : Type := mkRun {
  self : scraper;
  successful : nat;
  failed : nat
}.

(** The body of [for i, year in enumerate(years, 1)]: scrape, merge, count.
    Any exception counts the season as failed and the loop goes on; one
    that [append_to_excel] raises leaves the file as that call left it. *)
Definition season
    (scrape_data : Z → scraper → (failure + DataFrame) * scraper)
    (append_to_excel : F → DataFrame → bool * F)
    (r : run) (year : Z) : run :=
  match scrape_data year (self r) with
  | (inr df, self') =>
      let '(returned, file) := append_to_excel (excel self') df in
      let self' := {| world := world self'; driver := driver self';
                      excel := file |} in
      if returned
      then {| self := self'; successful := successful r + 1; failed := failed r |}
      else {| self := self'; successful := successful r; failed := failed r + 1 |}
  | (inl _, self') =>
      {| self := self'; successful := successful r; failed := failed r + 1 |}
  end.

(** The main block: the loop over the years, then [close_driver] in the
    [finally] clause. *)
Definition main_block (c : Chrome)
    (scrape_data : Z → scraper → (failure + DataFrame) * scraper)
    (append_to_excel : F → DataFrame → bool * F)
    (years : list Z) (scraper0 : scraper) : run :=
  let r := foldl (season scrape_data append_to_excel)
                 {| self := scraper0; successful := 0; failed := 0 |} years in
  {| self := close_driver c (self r);
     successful := successful r; failed := failed r |}.

End session.
Arguments Chrome : clear implicits.
Arguments scraper : clear implicits.
Arguments run : clear implicits.

(** [BartTorvikScraper], the methods that drive the browser and the file,
    and the main block of its file. *)
Module BartTorvikRun.

Definition base_url : string := "https://barttorvik.com/playerstat.php".

(** [f"{self.base_url}?link=y&year={year}&start={year-1}1101&end={year}0501"] *)
Definition get_url (year : Z) : string :=
  base_url +:+ "?link=y&year=" +:+ pretty year
    +:+ "&start=" +:+ pretty (year - 1)%Z +:+ "1101&end=" +:+ pretty year
    +:+ "0501".

Definition scrape_data {W F} (c : Chrome W (list (list string))) (year : Z)
    (self : scraper W F) : (failure + DataFrame) * scraper W F :=
  scrape c (get_url year) 5 (@BartTorvikScraper.load_all W) 3
         BartTorvikScraper.extract year self.

(** [append_to_excel] on the file: the merge of what [read_excel] returns
    with [df], then the [try] that saves.  A [KeyError] of the merge comes
    before anything is written. *)
Definition append_to_excel {F} (x : Excel F) (file : F) (df : DataFrame)
  : bool * F :=
  match BartTorvikScraper.append_to_excel (read_excel x file) df with
  | Ok (Some combined_df) => save x combined_df file
  | Ok None => (true, file)
  | Raise _ => (false, file)
  end.

(** [range(2025, 2007, -1)] *)
Definition years : list Z := (λ k, 2025 - Z.of_nat k)%Z <$> seq 0 18.

Definition main {W F} (x : Excel F) (c : Chrome W (list (list string)))
    (scraper0 : scraper W F) : run W F :=
  main_block c (scrape_data c) (append_to_excel x) years scraper0.

End BartTorvikRun.

(** [NBAScraper], the methods that drive the browser and the file, and the
    main block of its file. *)
Module NBARun.

Definition base_url : string := "https://www.espn.com/nba/stats/player/_/season/".

(** [f"{self.base_url}{year}/seasontype/2"] *)
Definition get_url (year : Z) : string :=
  base_url +:+ pretty year +:+ "/seasontype/2".

Definition scrape_data {W F} (c : Chrome W NBAScraper.table) (year : Z)
    (self : scraper W F) : (failure + DataFrame) * scraper W F :=
  scrape c (get_url year) 3 (@NBAScraper.load_all W) 2
         NBAScraper.extract year self.

(** [append_to_excel] on the file: an empty frame returns before the file
    is looked at; otherwise the merge of what [read_excel] returns with
    [df], then the [try] that saves. *)
Definition append_to_excel {F} (x : Excel F) (file : F) (df : DataFrame)
  : bool * F :=
  if empty df then (true, file) else
  match NBAScraper.append_to_excel (read_excel x file) df with
  | Ok (Some combined_df) => save x combined_df file
  | Ok None => (true, file)
  | Raise _ => (false, file)
  end.

(** [range(2002, 2026)] *)
Definition years : list Z := (λ k, 2002 + Z.of_nat k)%Z <$> seq 0 24.

Definition main {W F} (x : Excel F) (c : Chrome W NBAScraper.table)
    (scraper0 : scraper W F) : run W F :=
  main_block c (scrape_data c) (append_to_excel x) years scraper0.

End NBARun.

(** The calls of the pagination loop in a world that carries meters: they
    leave the meters alone. *)
Definition metered_paging {W M} (b : Browser W) : Browser (W * M) :=
  {| wait_clickable := λ st, let '(found, w) := wait_clickable b st.1 in
                             (found, (w, st.2));
     click := λ st, let '(clicked, w) := click b st.1 in (clicked, (w, st.2));
     sleep := λ st, (sleep b st.1, st.2);
     table_rows := λ st, table_rows b st.1 |}.

(** The same browser with two meters: the launches that succeeded, and the
    calls to [quit]. *)
Definition metered {W T} (c : Chrome W T) : Chrome (W * (nat * nat)) T :=
  {| launch := λ st, let '(launched, w) := launch c st.1 in
                     (launched,
                      (w, (if launched then S st.2.1 else st.2.1, st.2.2)));
     quit := λ st, (quit c st.1, (st.2.1, S st.2.2));
     get := λ url st, let '(loaded, w) := get c url st.1 in (loaded, (w, st.2));
     wait_present := λ st, let '(present, w) := wait_present c st.1 in
                           (present, (w, st.2));
     pause := λ n st, (pause c n st.1, st.2);
     paging := metered_paging (paging c);
     find_tables := λ st, find_tables c st.1 |}.

(** The meters agree with the scraper's [driver]: no call to [quit] yet,
    and one launch exactly when a driver is held. *)
Definition in_session {W F} (s : scraper (W * (nat * nat)) F) : Prop :=
  (world s).2.2 = 0 ∧ (world s).2.1 = if driver s then 1 else 0.

(** A site that serves [torvik_document] for every season, on one page,
    to a browser that launches. *)
Definition static_site : Chrome unit (list (list string)) :=
  {| launch := λ w, (true, w);
     quit := λ w, w;
     get := λ _ w, (true, w);
     wait_present := λ w, (true, w);
     pause := λ _ w, w;
     paging := {| wait_clickable := λ w, (false, w);
                  click := λ w, (false, w);
                  sleep := λ w, w;
                  table_rows := λ _, [] |};
     find_tables := λ _, torvik_document |}.

(** The same for source B and [nba_document]. *)
Definition static_nba_site : Chrome unit NBAScraper.table :=
  {| launch := λ w, (true, w);
     quit := λ w, w;
     get := λ _ w, (true, w);
     wait_present := λ w, (true, w);
     pause := λ _ w, w;
     paging := {| wait_clickable := λ w, (false, w);
                  click := λ w, (false, w);
                  sleep := λ w, w;
                  table_rows := λ _, [2; 2] |};
     find_tables := λ _, nba_document |}.

(** The characters of a formatted integer. *)
Definition digit_or_dash (c : ascii) : Prop :=
  c = "-"%char ∨ (48 ≤ N_of_ascii c ≤ 57)%N.

(** A scraper that holds no driver, with a file that [sheet_1999] was
    written to. *)
Definition scraper_1999 : scraper unit (option DataFrame) :=
  {| world := tt; driver := false; excel := Some sheet_1999 |}.

(** A scraper that holds no driver, and no file. *)
Definition fresh_scraper : scraper unit (option DataFrame) :=
  {| world := tt; driver := false; excel := None |}.
(** ** Facts about frames *)

Section frame_facts.
Implicit Types (df a b : DataFrame) (r : gmap string value) (cols : list string).

Lemma lookup_project cols r c :
  project cols r !! c = if decide (c ∈ cols) then r !! c else None.
Proof.
  unfold project. destruct (r !! c) as [v|] eqn:E.
  - case_decide.
    + by apply map_lookup_filter_Some.
    + apply map_lookup_filter_None. right. intros v' _. done.
  - assert (filter (λ kv : string * value, kv.1 ∈ cols) r !! c = None) as ->.
    { apply map_lookup_filter_None. by left. }
    by case_decide.
Qed.

Lemma lookup_fill_row cols r c :
  fill_row cols r !! c =
    match r !! c with
    | Some v => Some v
    | None => if decide (c ∈ cols) then Some VNull else None
    end.
Proof.
  unfold fill_row. rewrite lookup_union, lookup_gset_to_gmap.
  destruct (r !! c); simpl.
  - by case_guard.
  - case_decide.
    + rewrite option_guard_True by set_solver. done.
    + rewrite option_guard_False by set_solver. done.
Qed.

Lemma row_ok_lookup cols r c : row_ok cols r → (c ∈ cols ↔ is_Some (r !! c)).
Proof.
  unfold row_ok. intros H. rewrite <-elem_of_dom, H. set_solver.
Qed.

Lemma project_id cols r : row_ok cols r → project cols r = r.
Proof.
  intros H. apply map_eq. intros c. rewrite lookup_project.
  case_decide as Hc; [done|].
  destruct (r !! c) eqn:E; [|done].
  exfalso. apply Hc. apply (row_ok_lookup _ _ _ H). eauto.
Qed.

Lemma fill_row_id cols cols' r :
  row_ok cols r → cols' ⊆ cols → fill_row cols' r = r.
Proof.
  intros H Hsub. apply map_eq. intros c. rewrite lookup_fill_row.
  destruct (r !! c) eqn:E; [done|]. case_decide as Hc; [|done].
  apply Hsub, (row_ok_lookup _ _ _ H) in Hc. rewrite E in Hc. by destruct Hc.
Qed.

Lemma fill_row_cons c cols r :
  fill_row cols (fill_row [c] r) = fill_row (c :: cols) r.
Proof.
  apply map_eq. intros k. rewrite !lookup_fill_row.
  destruct (r !! k); [done|].
  repeat case_decide; set_solver.
Qed.

Lemma fill_row_nil r : fill_row [] r = r.
Proof.
  apply map_eq. intros k. rewrite lookup_fill_row.
  destruct (r !! k); [done|]. case_decide; set_solver.
Qed.

Lemma insert_null_fill_row cols c r :
  row_ok cols r → c ∉ cols → <[c := VNull]> r = fill_row [c] r.
Proof.
  intros H Hc. apply map_eq. intros k. rewrite lookup_fill_row.
  destruct (decide (c = k)) as [->|Hne].
  - rewrite lookup_insert_eq.
    destruct (r !! k) eqn:E.
    + exfalso. apply Hc, (row_ok_lookup _ _ _ H). eauto.
    + case_decide; set_solver.
  - rewrite lookup_insert_ne by done.
    destruct (r !! k); [done|]. case_decide; set_solver.
Qed.

End frame_facts.

Section frame_ops.
Implicit Types (df a b : DataFrame) (r : gmap string value) (cols : list string).

Lemma lookup_norm cols r c :
  norm cols r !! c = if decide (c ∈ cols) then Some (cell c r) else None.
Proof.
  unfold norm, cell. rewrite lookup_project, lookup_fill_row.
  case_decide; [|done]. by destruct (r !! c).
Qed.

Lemma row_ok_norm cols r : row_ok cols (norm cols r).
Proof.
  unfold row_ok. apply set_eq. intros c.
  rewrite elem_of_dom, lookup_norm, elem_of_list_to_set.
  case_decide; split; try done; try (by eauto); by intros [? ?].
Qed.

Lemma norm_id cols r : row_ok cols r → norm cols r = r.
Proof.
  intros H. unfold norm. rewrite (fill_row_id cols cols r H) by done.
  by apply project_id.
Qed.

Lemma project_fill_row cols all r :
  cols ⊆ all → project cols (fill_row all r) = norm cols r.
Proof.
  intros H. apply map_eq. intros c.
  rewrite lookup_norm, lookup_project, lookup_fill_row. unfold cell.
  case_decide as Hc; [|done]. destruct (r !! c); [done|].
  rewrite decide_True; [done|]. by apply H.
Qed.

Lemma cell_norm cols r c : c ∈ cols → cell c (norm cols r) = cell c r.
Proof.
  intros H. unfold cell at 1. rewrite lookup_norm. by rewrite decide_True.
Qed.

Lemma wf_set_column_null c df :
  wf df → c ∉ columns df →
  wf (set_column c VNull df)
  ∧ rows (set_column c VNull df) = fill_row [c] <$> rows df
  ∧ columns (set_column c VNull df) = columns df ++ [c].
Proof.
  intros [Hnd Hrows] Hc. unfold set_column. simpl.
  rewrite decide_False by done. split_and!; [| |done].
  - split; simpl.
    + apply NoDup_app. split_and!; [done| |apply NoDup_singleton].
      intros x Hx ->%list_elem_of_singleton. done.
    + apply Forall_fmap. eapply Forall_impl; [exact Hrows|].
      intros r Hr. simpl. unfold row_ok in *.
      rewrite dom_insert_L, Hr, list_to_set_app_L. set_solver.
  - apply Forall_fmap_ext_1. eapply Forall_impl; [exact Hrows|].
    intros r Hr. simpl. by eapply insert_null_fill_row.
Qed.

Lemma fill_missing_cons c cols df :
  fill_missing (c :: cols) df
  = fill_missing cols
      (if decide (c ∈ columns df) then df else set_column c VNull df).
Proof. done. Qed.

Lemma fill_missing_spec cols df :
  wf df →
  wf (fill_missing cols df)
  ∧ rows (fill_missing cols df) = fill_row cols <$> rows df
  ∧ (∀ c, c ∈ columns (fill_missing cols df) ↔ c ∈ columns df ∨ c ∈ cols).
Proof.
  revert df. induction cols as [|c cols IH]; intros df Hwf.
  - simpl. split_and!; [done| |set_solver].
    rewrite <-(list_fmap_id (rows df)) at 1.
    apply list_fmap_ext. intros ?? _. by rewrite fill_row_nil.
  - rewrite fill_missing_cons. case_decide as Hc.
    + destruct (IH df Hwf) as (Hwf' & Hrows' & Hcols').
      split_and!; [done| |].
      * rewrite Hrows'. apply Forall_fmap_ext_1.
        destruct Hwf as [_ Hrs]. eapply Forall_impl; [exact Hrs|].
        intros r Hr. simpl. rewrite <-fill_row_cons.
        f_equal. symmetry. eapply fill_row_id; [exact Hr|set_solver].
      * intros x. rewrite Hcols'. set_solver.
    + destruct (wf_set_column_null c df Hwf Hc) as (Hwf1 & Hrows1 & Hcols1).
      destruct (IH _ Hwf1) as (Hwf' & Hrows' & Hcols').
      split_and!; [done| |].
      * rewrite Hrows', Hrows1, <-list_fmap_compose.
        apply list_fmap_ext. intros ?? _. simpl. apply fill_row_cons.
      * intros x. rewrite Hcols', Hcols1. set_solver.
Qed.

Lemma select_ok cols df :
  cols ⊆ columns df →
  select cols df = Ok {| columns := cols; rows := project cols <$> rows df |}.
Proof.
  intros Hsub. unfold select.
  destruct (List.find _ cols) as [c|] eqn:E; [|done].
  apply List.find_some in E as [Hin Hc].
  apply bool_decide_eq_true in Hc. exfalso. apply Hc, Hsub.
  by apply list_elem_of_In.
Qed.

(** Filling then selecting the same labels, the two steps both scrapers
    apply to either side. *)
Lemma normalize cols all df :
  wf df → cols ⊆ all →
  select cols (fill_missing all df)
  = Ok {| columns := cols; rows := norm cols <$> rows df |}.
Proof.
  intros Hwf Hsub.
  destruct (fill_missing_spec all df Hwf) as (_ & Hrows & Hcols).
  rewrite select_ok.
  - rewrite Hrows, <-list_fmap_compose. do 2 f_equal.
    apply list_fmap_ext. intros ?? _. simpl. by apply project_fill_row.
  - intros c Hc. apply Hcols. right. by apply Hsub.
Qed.

Lemma list_difference_diag (l : list string) : list_difference l l = [].
Proof.
  destruct (list_difference l l) as [|x k] eqn:E; [done|].
  assert (x ∈ list_difference l l) as Hx by (rewrite E; left).
  apply list_elem_of_difference in Hx as [? ?]. done.
Qed.

Lemma concat_same cols ra rb :
  Forall (row_ok cols) ra → Forall (row_ok cols) rb →
  concat {| columns := cols; rows := ra |} {| columns := cols; rows := rb |}
  = {| columns := cols; rows := ra ++ rb |}.
Proof.
  intros Ha Hb. unfold concat. simpl.
  rewrite list_difference_diag, app_nil_r. f_equal.
  rewrite <-(list_fmap_id (ra ++ rb)) at 2.
  apply Forall_fmap_ext_1. apply Forall_app. split.
  - eapply Forall_impl; [exact Ha|]. intros r Hr. simpl.
    by apply (fill_row_id cols).
  - eapply Forall_impl; [exact Hb|]. intros r Hr. simpl.
    by apply (fill_row_id cols).
Qed.

Lemma Forall_row_ok_norm cols (rs : list (gmap string value)) :
  Forall (row_ok cols) (norm cols <$> rs).
Proof. apply Forall_fmap, Forall_forall. intros r _. apply row_ok_norm. Qed.

End frame_ops.

Section merge_shape.
Implicit Types (df e : DataFrame) (cols : list string).

Lemma Forall_filter_keep {A} (P Q : A → Prop) `{∀ x, Decision (Q x)} (l : list A) :
  Forall P l → Forall P (filter Q l).
Proof.
  rewrite !Forall_forall. intros HP x [_ Hx]%list_elem_of_filter. auto.
Qed.

Lemma load_Some store e :
  load store = Some e → store = Some e ∧ empty e = false.
Proof.
  unfold load. destruct store as [d|]; [|done].
  destruct (empty d) eqn:E; simpl; [done|].
  case_bool_decide; [done|]. by intros [= <-].
Qed.

Lemma year_to_append_norm cols df :
  "Year" ∈ cols →
  year_to_append {| columns := cols; rows := norm cols <$> rows df |}
  = year_to_append df.
Proof.
  intros H. unfold year_to_append. simpl.
  destruct (rows df) as [|r rs]; [done|]. simpl. by apply cell_norm.
Qed.

(** The tail both [append_to_excel]s share once either side has the
    labels [cols]: drop the year, concatenate. *)
Lemma merge_tail cols df e :
  ("Year" ∉ cols → year_to_append df = VNull) →
  concat (drop_year {| columns := cols; rows := norm cols <$> rows df |}
                    {| columns := cols; rows := norm cols <$> rows e |})
         {| columns := cols; rows := norm cols <$> rows df |}
  = {| columns := cols; rows := kept cols e df ++ (norm cols <$> rows df) |}.
Proof.
  intros HY. unfold drop_year, kept. simpl.
  destruct (decide ("Year" ∈ cols)) as [Hin|Hout].
  - rewrite !bool_decide_eq_true_2 by done. simpl.
    rewrite (year_to_append_norm cols df Hin).
    destruct (year_to_append df) eqn:Ey; unfold where_year_ne; simpl;
      apply concat_same;
      auto using Forall_row_ok_norm, Forall_filter_keep.
  - rewrite (HY Hout), !bool_decide_eq_false_2 by done. simpl.
    apply concat_same; auto using Forall_row_ok_norm.
Qed.

End merge_shape.

(** ** Source A: the sheet [append_to_excel] writes *)

Section source_a.
Import BartTorvikScraper.

Lemma append_to_excel_a_shape store df :
  wf df → store_wf store →
  append_to_excel store df = Ok (Some (merged cols_a store df)).
Proof.
  intros Hdf Hst. unfold append_to_excel, merged, cols_a.
  assert ("Year" ∈ desired_columns ++ ["Year"]) as HY
    by (apply elem_of_app; right; left).
  revert HY. generalize (desired_columns ++ ["Year"]). intros cols HY.
  rewrite (normalize cols cols df Hdf) by done.
  change (mbind ?f (Ok ?x)) with (f x). cbv beta.
  destruct (load store) as [e|] eqn:El; [|done].
  apply load_Some in El as [-> Hne]. rewrite Hne.
  change (negb false) with true. cbv iota.
  rewrite (normalize cols cols e) by auto.
  change (mbind ?f (Ok ?x)) with (f x). cbv beta.
  by rewrite merge_tail.
Qed.
End source_a.

(** ** Source B: the column order and the sheet [append_to_excel] writes *)

Section source_b.
Import NBAScraper.
Implicit Types (df e : DataFrame) (cols : list string).

Lemma sorted_perm l : sorted l ≡ₚ l.
Proof. apply merge_sort_Permutation. Qed.

Lemma sorted_Sorted l : Sorted String.le (sorted l).
Proof. apply (Sorted_merge_sort String.le). Qed.

Lemma sorted_elem l c : c ∈ sorted l ↔ c ∈ l.
Proof. by rewrite sorted_perm. Qed.

Lemma sorted_eq_perm l k : l ≡ₚ k → sorted l = sorted k.
Proof.
  intros H. apply (Sorted_unique String.le); auto using sorted_Sorted.
  by rewrite !sorted_perm.
Qed.

Lemma column_order_elem cols c : c ∈ column_order cols ↔ c ∈ cols.
Proof.
  unfold column_order.
  rewrite list_elem_of_filter, !elem_of_app, sorted_elem, list_elem_of_filter.
  split; [naive_solver|]. intros Hc. split; [done|].
  destruct (decide (c ∈ priority_cols)); [by left|].
  destruct (decide (c = "Year")) as [->|].
  - right. right. rewrite decide_True by done. left.
  - right. left. done.
Qed.

Lemma column_order_NoDup cols : NoDup cols → NoDup (column_order cols).
Proof.
  intros Hnd. unfold column_order. apply NoDup_filter.
  apply NoDup_app. split_and!.
  - compute_done.
  - intros c Hc [Ho|Hy]%elem_of_app.
    + apply sorted_elem, list_elem_of_filter in Ho as [[? ?] _]. done.
    + case_decide; [|by apply not_elem_of_nil in Hy].
      apply list_elem_of_singleton in Hy as ->.
      revert Hc. apply (bool_decide_unpack _). by vm_compute.
  - apply NoDup_app. split_and!.
    + rewrite sorted_perm. by apply NoDup_filter.
    + intros c Ho Hy. apply sorted_elem, list_elem_of_filter in Ho as [[? ?] _].
      case_decide; [|by apply not_elem_of_nil in Hy].
      by apply list_elem_of_singleton in Hy.
    + case_decide; [apply NoDup_singleton|apply NoDup_nil_2].
Qed.

Lemma column_order_perm cols cols' :
  cols ≡ₚ cols' → column_order cols = column_order cols'.
Proof.
  intros H. unfold column_order.
  assert (sorted (filter (λ col, (col ∉ priority_cols) ∧ (col ≠ "Year")) cols)
          = sorted (filter (λ col, (col ∉ priority_cols) ∧ (col ≠ "Year")) cols'))
    as -> by (apply sorted_eq_perm; by rewrite H).
  rewrite (decide_ext ("Year" ∈ cols) ("Year" ∈ cols')) by by rewrite H.
  apply list_filter_iff. intros c. by rewrite H.
Qed.

Lemma project_norm_wf cols co r :
  row_ok cols r → (∀ c, c ∈ co ↔ c ∈ cols) → project co r = norm co r.
Proof.
  intros Hr Hco. apply map_eq. intros c. rewrite lookup_project, lookup_norm.
  case_decide as Hc; [|done]. unfold cell.
  apply Hco, (row_ok_lookup _ _ _ Hr) in Hc as [v ->]. done.
Qed.

Lemma year_to_append_absent df :
  wf df → "Year" ∉ columns df → year_to_append df = VNull.
Proof.
  intros [_ Hrs] HY. unfold year_to_append.
  destruct (rows df) as [|r rs]; [done|].
  apply Forall_cons in Hrs as [Hr _]. unfold cell.
  destruct (r !! "Year") eqn:E; [|done].
  exfalso. apply HY, (row_ok_lookup _ _ _ Hr). eauto.
Qed.

Lemma append_to_excel_b_shape store df :
  wf df → store_wf store → empty df = false →
  append_to_excel store df = Ok (Some (merged (cols_b store df) store df)).
Proof.
  intros Hdf Hst Hne. unfold append_to_excel, merged, cols_b. rewrite Hne.
  destruct (load store) as [e|] eqn:El.
  - apply load_Some in El as [-> Hnee]. rewrite Hnee. simpl.
    set (all := sorted (remove_dups (columns df ++ columns e))).
    assert (column_order all ⊆ all) as Hsub.
    { intros c. by rewrite column_order_elem. }
    rewrite (normalize _ all df Hdf Hsub). simpl.
    rewrite (normalize _ all e) by auto. simpl.
    rewrite merge_tail; [done|].
    intros HY. apply year_to_append_absent; [done|]. intros Hin. apply HY.
    apply column_order_elem, sorted_elem, elem_of_remove_dups, elem_of_app.
    by left.
  - rewrite select_ok by (intros c; by rewrite column_order_elem).
    simpl. do 3 f_equal. apply Forall_fmap_ext_1.
    destruct Hdf as [_ Hrs]. eapply Forall_impl; [exact Hrs|].
    intros r Hr. simpl. apply (project_norm_wf (columns df)); [done|].
    intros c. apply column_order_elem.
Qed.

Lemma append_to_excel_b_empty store df :
  empty df = true → append_to_excel store df = Ok store.
Proof. intros H. unfold append_to_excel. by rewrite H. Qed.

End source_b.

(** ** The merged sheet *)

Section merged_facts.
Implicit Types (df e : DataFrame) (cols : list string) (y : value).

Lemma value_ne_spec a y : y ≠ VNull → value_ne a y = true ↔ a ≠ y.
Proof.
  intros Hy. destruct a, y; simpl; try done;
    rewrite bool_decide_eq_true; done.
Qed.

Lemma kept_eq cols e df y :
  year_to_append df = y → y ≠ VNull →
  kept cols e df
  = filter (λ r, value_ne (cell "Year" r) y = true) (norm cols <$> rows e).
Proof. intros Hy Hn. unfold kept. rewrite Hy. by destruct y. Qed.

Lemma kept_null cols e df :
  year_to_append df = VNull → kept cols e df = norm cols <$> rows e.
Proof. intros Hy. unfold kept. by rewrite Hy. Qed.

Lemma year_to_append_all df y :
  rows df ≠ [] → (∀ r, r ∈ rows df → cell "Year" r = y) →
  year_to_append df = y.
Proof.
  unfold year_to_append. destruct (rows df) as [|r rs]; [done|].
  intros _ H. apply H. left.
Qed.

Lemma kept_row_ok cols e df : Forall (row_ok cols) (kept cols e df).
Proof.
  unfold kept. destruct (year_to_append df);
    auto using Forall_row_ok_norm, Forall_filter_keep.
Qed.

Lemma merged_row_ok cols store df :
  Forall (row_ok cols) (rows (merged cols store df)).
Proof.
  unfold merged. simpl. apply Forall_app. split; [|apply Forall_row_ok_norm].
  destruct (load store); [apply kept_row_ok|constructor].
Qed.

Lemma merged_wf cols store df : NoDup cols → wf (merged cols store df).
Proof. intros H. split; [done|apply merged_row_ok]. Qed.

Lemma load_merged cols store df :
  cols ≠ [] → rows df ≠ [] →
  load (Some (merged cols store df)) = Some (merged cols store df).
Proof.
  intros Hc Hr. unfold load, empty. simpl.
  rewrite !bool_decide_eq_false_2; [done| | |].
  - by destruct cols.
  - done.
  - destruct (rows df); [done|]. simpl. by intros [? ?]%app_eq_nil.
Qed.

Lemma filter_idem {A} (P : A → Prop) `{∀ x, Decision (P x)} (l : list A) :
  filter P (filter P l) = filter P l.
Proof.
  induction l as [|x l IH]; [done|].
  rewrite (filter_cons P x l). destruct (decide (P x)); [|done].
  rewrite filter_cons, decide_True by done. by f_equal.
Qed.

Lemma filter_none {A} (P : A → Prop) `{∀ x, Decision (P x)} (l : list A) :
  (∀ x, x ∈ l → ¬ P x) → filter P l = [].
Proof.
  induction l as [|x l IH]; [done|]. intros Hl.
  rewrite filter_cons, decide_False by (apply Hl; left).
  apply IH. intros z Hz. apply Hl. by right.
Qed.

Lemma fmap_norm_id cols (rs : list (gmap string value)) :
  Forall (row_ok cols) rs → norm cols <$> rs = rs.
Proof.
  intros H. rewrite <-(list_fmap_id rs) at 2. apply Forall_fmap_ext_1.
  eapply Forall_impl; [exact H|]. intros r Hr. by apply norm_id.
Qed.

(** Merging the same rows again, under the same labels, changes nothing. *)
Lemma merged_idem cols store df y :
  "Year" ∈ cols → rows df ≠ [] → y ≠ VNull →
  (∀ r, r ∈ rows df → cell "Year" r = y) →
  merged cols (Some (merged cols store df)) df = merged cols store df.
Proof.
  intros HY Hr Hy Hall.
  assert (year_to_append df = y) as Hya by by apply year_to_append_all.
  unfold merged at 1. rewrite load_merged; [|by intros ->; inversion HY|done].
  rewrite (kept_eq cols _ df y Hya Hy).
  rewrite fmap_norm_id by apply merged_row_ok.
  unfold merged. simpl. rewrite filter_app.
  rewrite (filter_none _ (norm cols <$> rows df)).
  - rewrite app_nil_r. destruct (load store) as [e|]; [|done].
    rewrite (kept_eq cols e df y Hya Hy). by rewrite filter_idem.
  - intros r' [r [-> Hin]]%list_elem_of_fmap.
    rewrite cell_norm by done. rewrite (Hall r Hin).
    rewrite value_ne_spec by done. by intros ?.
Qed.

End merged_facts.

(** ** Reruns, isolation, rectangularity and column order *)

Section merge_claims.
Implicit Types (df e sheet : DataFrame) (cols : list string) (y : value).

Lemma cols_a_NoDup : NoDup cols_a.
Proof. compute_done. Qed.

Lemma cols_a_Year : "Year" ∈ cols_a.
Proof. compute_done. Qed.

Lemma cols_b_arg_NoDup store df :
  wf df →
  NoDup match load store with
        | Some e => NBAScraper.sorted (remove_dups (columns df ++ columns e))
        | None => columns df
        end.
Proof.
  intros [Hnd _]. destruct (load store); [|done].
  rewrite sorted_perm. apply NoDup_remove_dups.
Qed.

Lemma cols_b_NoDup store df : wf df → NoDup (cols_b store df).
Proof. intros H. by apply column_order_NoDup, cols_b_arg_NoDup. Qed.

Lemma cols_b_elem store df c :
  c ∈ cols_b store df
  ↔ c ∈ columns df ∨ ∃ e, load store = Some e ∧ c ∈ columns e.
Proof.
  unfold cols_b. rewrite column_order_elem.
  destruct (load store) as [e|].
  - rewrite sorted_elem, elem_of_remove_dups, elem_of_app. naive_solver.
  - naive_solver.
Qed.

(** The column order of source B does not move when the merged sheet is
    merged again with a frame that brings no new label. *)
Lemma cols_b_stable store df df' :
  wf df → rows df ≠ [] → columns df ≠ [] →
  (∀ c, c ∈ columns df' → c ∈ cols_b store df) →
  cols_b (Some (merged (cols_b store df) store df)) df' = cols_b store df.
Proof.
  intros Hdf Hr Hc Hsub.
  assert (cols_b store df ≠ []) as Hne.
  { destruct (columns df) as [|c cs] eqn:E; [done|].
    intros Hnil. assert (c ∈ cols_b store df) as Hin.
    { apply cols_b_elem. left. rewrite E. left. }
    rewrite Hnil in Hin. by apply not_elem_of_nil in Hin. }
  unfold cols_b at 1. rewrite (load_merged _ _ _ Hne Hr). simpl.
  unfold cols_b in *. apply column_order_perm. rewrite sorted_perm.
  apply NoDup_Permutation.
  - apply NoDup_remove_dups.
  - by apply cols_b_arg_NoDup.
  - intros c. rewrite elem_of_remove_dups, elem_of_app, column_order_elem.
    split; [|by right]. intros [Hin|Hin]; [|done].
    by apply column_order_elem, Hsub.
Qed.

Lemma cell_fill_row C r c : cell c (fill_row C r) = cell c r.
Proof.
  unfold cell. rewrite lookup_fill_row. destruct (r !! c); [done|].
  by case_decide.
Qed.

Lemma norm_fill_row cols C r : norm cols (fill_row C r) = norm cols r.
Proof.
  apply map_eq. intros c. rewrite !lookup_norm. by rewrite cell_fill_row.
Qed.

(** The columns a call adds in place to the frame passed in do not change
    what a further merge of that frame gives. *)
Lemma merged_fill_missing cols C store df :
  wf df → merged cols store (fill_missing C df) = merged cols store df.
Proof.
  intros Hdf. destruct (fill_missing_spec C df Hdf) as (_ & Hrows & _).
  assert (norm cols <$> rows (fill_missing C df) = norm cols <$> rows df) as Hn.
  { rewrite Hrows, <-list_fmap_compose. apply list_fmap_ext.
    intros ?? _. apply norm_fill_row. }
  assert (year_to_append (fill_missing C df) = year_to_append df) as Hy.
  { unfold year_to_append. rewrite Hrows. destruct (rows df); [done|].
    apply cell_fill_row. }
  unfold merged, kept. by rewrite Hn, Hy.
Qed.

Lemma lookup_Year_cell r y : r !! "Year" = Some y → cell "Year" r = y.
Proof. unfold cell. by intros ->. Qed.

Lemma has_Year_column df y :
  wf df → rows df ≠ [] → (∀ r, r ∈ rows df → r !! "Year" = Some y) →
  "Year" ∈ columns df.
Proof.
  intros [_ Hrs] Hne Hall. destruct (rows df) as [|r rs]; [done|].
  apply Forall_cons in Hrs as [Hr _].
  apply (row_ok_lookup _ _ _ Hr). rewrite (Hall r) by left. eauto.
Qed.

Lemma not_empty df : rows df ≠ [] → columns df ≠ [] → empty df = false.
Proof.
  intros ??. unfold empty. by rewrite !bool_decide_eq_false_2.
Qed.

(** What a rerun leaves: the rows kept of the old sheet carry another
    year, and the rows of year [y] are the new ones. *)
Lemma merged_replaces cols store df y :
  "Year" ∈ cols → rows df ≠ [] → y ≠ VNull →
  (∀ r, r ∈ rows df → r !! "Year" = Some y) →
  ∃ old, rows (merged cols store df) = old ++ (norm cols <$> rows df)
    ∧ (∀ r, r ∈ old → r !! "Year" ≠ Some y)
    ∧ filter (λ r, r !! "Year" = Some y) (rows (merged cols store df))
      = norm cols <$> rows df.
Proof.
  intros HY Hr Hy Hall.
  assert (year_to_append df = y) as Hya.
  { apply year_to_append_all; [done|]. intros r Hin.
    by apply lookup_Year_cell, Hall. }
  set (old := match load store with
              | Some e => kept cols e df
              | None => []
              end).
  assert (∀ r, r ∈ old → r !! "Year" ≠ Some y) as Hold.
  { subst old. destruct (load store) as [e|]; [|by intros ? ?%not_elem_of_nil].
    rewrite (kept_eq cols e df y Hya Hy).
    intros r [Hne _]%list_elem_of_filter Heq.
    apply value_ne_spec in Hne; [|done]. by apply Hne, lookup_Year_cell. }
  exists old. split_and!; [done|done|].
  unfold merged. simpl. fold old. rewrite filter_app.
  rewrite (filter_none _ old) by done. simpl.
  induction (rows df) as [|r rs IH]; [done|].
  rewrite fmap_cons, filter_cons, decide_True.
  - f_equal. destruct rs as [|r2 rs2]; [done|].
    apply IH; [done|]. intros r' Hr'. apply Hall. by right.
  - rewrite lookup_norm, decide_True by done. f_equal.
    apply lookup_Year_cell, Hall. left.
Qed.

End merge_claims.

Section sheet_rows.
Implicit Types (df e sheet : DataFrame) (cols : list string) (y : value).

Lemma row_ok_iff cols r :
  row_ok cols r ↔ ∀ c, is_Some (r !! c) ↔ c ∈ cols.
Proof.
  split.
  - intros H c. by rewrite (row_ok_lookup _ _ c H).
  - intros H. unfold row_ok. apply set_eq. intros c.
    by rewrite elem_of_dom, H, elem_of_list_to_set.
Qed.

(** Where a row of the merged sheet comes from. *)
Lemma merged_row_origin cols store df r :
  r ∈ rows (merged cols store df) →
  ∃ r0, (r0 ∈ rows df ∨ ∃ e, store = Some e ∧ r0 ∈ rows e) ∧ r = norm cols r0.
Proof.
  unfold merged. simpl. intros [Hin|Hin]%elem_of_app.
  - destruct (load store) as [e|] eqn:El; [|by apply not_elem_of_nil in Hin].
    apply load_Some in El as [-> _].
    assert (r ∈ norm cols <$> rows e) as [r0 [-> H0]]%list_elem_of_fmap.
    { unfold kept in Hin. destruct (year_to_append df); [done|..];
        by apply list_elem_of_filter in Hin as [_ ?]. }
    exists r0. split; [|done]. right. eauto.
  - apply list_elem_of_fmap in Hin as [r0 [-> H0]]. exists r0. by split; [left|].
Qed.

Lemma writes_a store df sheet :
  wf df → store_wf store →
  writes (BartTorvikScraper.append_to_excel store df) sheet →
  sheet = merged cols_a store df.
Proof.
  intros Hdf Hst. unfold writes. rewrite append_to_excel_a_shape by done.
  by intros [= <-].
Qed.

Lemma writes_b store df sheet :
  wf df → store_wf store →
  writes (NBAScraper.append_to_excel store df) sheet →
  (empty df = true ∧ store = Some sheet)
  ∨ (empty df = false ∧ sheet = merged (cols_b store df) store df).
Proof.
  intros Hdf Hst. unfold writes. destruct (empty df) eqn:E.
  - rewrite append_to_excel_b_empty by done. intros [= ->]. by left.
  - rewrite append_to_excel_b_shape by done. intros [= <-]. by right.
Qed.

End sheet_rows.

(** C10. Whatever columns the new frame and the persisted sheet have, source
    A's merge returns and writes a sheet whose columns are the 22
    whitelisted ones followed by [Year], 23 in all, in that order, and every
    row of it has cells for exactly these columns. *)
Theorem source_a_sheet_columns (store : option DataFrame) (df : DataFrame) :
  wf df → store_wf store →
  ∃ sheet,
    writes (BartTorvikScraper.append_to_excel store df) sheet
    ∧ columns sheet
      = ["Rk"; "Player"; "Class"; "Team"; "Conf"; "Min%"; "PRPG!"; "BPM";
         "ORtg"; "Usg"; "eFG"; "TS"; "OR"; "DR"; "Ast"; "TO"; "Blk"; "Stl";
         "FTR"; "2P"; "3P/100"; "3P"; "Year"]
    ∧ length (columns sheet) = 23
    ∧ ∀ r, r ∈ rows sheet → ∀ c, is_Some (r !! c) ↔ c ∈ columns sheet.
Proof.
  intros Hdf Hst. exists (merged cols_a store df). split_and!.
  - by apply append_to_excel_a_shape.
  - reflexivity.
  - reflexivity.
  - intros r Hr. apply row_ok_iff.
    pose proof (merged_row_ok cols_a store df) as Hok.
    rewrite Forall_forall in Hok. by apply Hok.
Qed.

Lemma source_a_sheet_columns_witness :
  ∃ sheet,
    writes (BartTorvikScraper.append_to_excel (Some sheet_2020) season_2021) sheet
    ∧ columns sheet
      = ["Rk"; "Player"; "Class"; "Team"; "Conf"; "Min%"; "PRPG!"; "BPM";
         "ORtg"; "Usg"; "eFG"; "TS"; "OR"; "DR"; "Ast"; "TO"; "Blk"; "Stl";
         "FTR"; "2P"; "3P/100"; "3P"; "Year"]
    ∧ length (columns sheet) = 23
    ∧ ∀ r, r ∈ rows sheet → ∀ c, is_Some (r !! c) ↔ c ∈ columns sheet.
Proof.
  apply (source_a_sheet_columns (Some sheet_2020) season_2021).
  - apply (bool_decide_unpack _). vm_compute. reflexivity.
  - intros e [= <-]. apply (bool_decide_unpack _). vm_compute. reflexivity.
Defined.

(** C8. For both sources the merge returns, and the sheet it leaves is
    rectangular: every row has a cell for exactly the columns of the sheet.
    Each row stems from a row of the new frame or of the persisted sheet,
    and holds, in every column, that row's value where it has one and a
    null where it has none. *)
Theorem merged_sheet_is_rectangular (store : option DataFrame) (df : DataFrame) :
  wf df → store_wf store →
  (∃ sheet, writes (BartTorvikScraper.append_to_excel store df) sheet)
  ∧ (∃ after, NBAScraper.append_to_excel store df = Ok after)
  ∧ ∀ sheet,
      writes (BartTorvikScraper.append_to_excel store df) sheet
      ∨ writes (NBAScraper.append_to_excel store df) sheet →
      (∀ r, r ∈ rows sheet → ∀ c, is_Some (r !! c) ↔ c ∈ columns sheet)
      ∧ (∀ r, r ∈ rows sheet →
           ∃ r0, (r0 ∈ rows df ∨ ∃ e, store = Some e ∧ r0 ∈ rows e)
             ∧ ∀ c, c ∈ columns sheet →
                 r !! c = Some (default VNull (r0 !! c))).
Proof.
  intros Hdf Hst. split_and!.
  - eexists. by apply append_to_excel_a_shape.
  - destruct (empty df) eqn:E.
    + eexists. by apply append_to_excel_b_empty.
    + eexists. by apply append_to_excel_b_shape.
  - assert (∀ cols sheet, sheet = merged cols store df →
      (∀ r, r ∈ rows sheet → ∀ c, is_Some (r !! c) ↔ c ∈ columns sheet)
      ∧ (∀ r, r ∈ rows sheet →
           ∃ r0, (r0 ∈ rows df ∨ ∃ e, store = Some e ∧ r0 ∈ rows e)
             ∧ ∀ c, c ∈ columns sheet →
                 r !! c = Some (default VNull (r0 !! c)))) as Hmerged.
    { intros cols sheet ->. split.
      - intros r Hr. apply row_ok_iff.
        pose proof (merged_row_ok cols store df) as Hok.
        rewrite Forall_forall in Hok. by apply Hok.
      - intros r Hr. apply merged_row_origin in Hr as (r0 & Hfrom & ->).
        exists r0. split; [done|]. simpl. intros c Hc.
        by rewrite lookup_norm, decide_True. }
    intros sheet [Ha|Hb].
    + apply (Hmerged cols_a). by apply writes_a.
    + apply writes_b in Hb as [[_ ->]|[_ ->]];
        [|by apply (Hmerged (cols_b store df))|done..].
      destruct (Hst sheet eq_refl) as [_ Hrs]. rewrite Forall_forall in Hrs.
      split.
      * intros r Hr. by apply row_ok_iff, Hrs.
      * intros r Hr. exists r. split; [right; eauto|].
        intros c Hc. apply (row_ok_lookup _ _ c (Hrs r Hr)) in Hc as [v ->]. done.
Qed.

Lemma merged_sheet_is_rectangular_witness :
  (∃ sheet,
     writes (BartTorvikScraper.append_to_excel (Some sheet_2020) season_2021) sheet)
  ∧ (∃ after, NBAScraper.append_to_excel (Some sheet_2020) season_2021 = Ok after)
  ∧ ∀ sheet,
      writes (BartTorvikScraper.append_to_excel (Some sheet_2020) season_2021) sheet
      ∨ writes (NBAScraper.append_to_excel (Some sheet_2020) season_2021) sheet →
      (∀ r, r ∈ rows sheet → ∀ c, is_Some (r !! c) ↔ c ∈ columns sheet)
      ∧ (∀ r, r ∈ rows sheet →
           ∃ r0, (r0 ∈ rows season_2021
                  ∨ ∃ e, Some sheet_2020 = Some e ∧ r0 ∈ rows e)
             ∧ ∀ c, c ∈ columns sheet →
                 r !! c = Some (default VNull (r0 !! c))).
Proof.
  apply (merged_sheet_is_rectangular (Some sheet_2020) season_2021).
  - apply (bool_decide_unpack _). vm_compute. reflexivity.
  - intros e [= <-]. apply (bool_decide_unpack _). vm_compute. reflexivity.
Defined.

Section isolation.
Implicit Types (df e sheet : DataFrame) (cols : list string) (y : value).

Lemma sublist_fmap_filter {A B} (f : A → B) (P : A → Prop) (Q : B → Prop)
    `{∀ x, Decision (P x)} `{∀ x, Decision (Q x)} (l : list A) :
  (∀ x, P x → Q (f x)) → f <$> filter P l `sublist_of` filter Q (f <$> l).
Proof.
  intros HPQ. induction l as [|x l IH]; [done|].
  rewrite fmap_cons, !filter_cons.
  destruct (decide (P x)) as [HP|HP].
  - rewrite decide_True by auto. rewrite fmap_cons. by apply sublist_skip.
  - destruct (decide (Q (f x))); [by apply sublist_cons|done].
Qed.

Lemma kept_sublist cols e df y :
  (rows df ≠ [] → "Year" ∈ cols) →
  (∀ r, r ∈ rows df → r !! "Year" = Some y) →
  norm cols <$> filter (λ r, r !! "Year" ≠ Some y) (rows e)
    `sublist_of` kept cols e df.
Proof.
  intros HY Hall.
  destruct (decide (year_to_append df = VNull)) as [Hn|Hn].
  { rewrite kept_null by done. apply fmap_sublist, sublist_filter. }
  assert (rows df ≠ []) as Hr.
  { intros E. apply Hn. unfold year_to_append. by rewrite E. }
  assert (year_to_append df = y) as Hya.
  { apply year_to_append_all; [done|]. intros r Hin.
    by apply lookup_Year_cell, Hall. }
  assert (y ≠ VNull) as Hy by congruence.
  rewrite (kept_eq cols e df y Hya Hy).
  apply sublist_fmap_filter. intros r Hne.
  rewrite cell_norm by auto. apply value_ne_spec; [done|].
  unfold cell. destruct (r !! "Year") as [v|]; simpl; congruence.
Qed.

Lemma norm_keeps_rows cols (rs : list (gmap string value)) :
  Forall2 (λ r r', ∀ c v, c ∈ cols → r !! c = Some v → r' !! c = Some v)
          rs (norm cols <$> rs).
Proof.
  apply Forall2_fmap_r, Forall_Forall2_diag, Forall_forall.
  intros r _ c v Hc Hv. simpl.
  rewrite lookup_norm, decide_True by done. unfold cell. by rewrite Hv.
Qed.

End isolation.

(** C2, as worded, fails for source A: a record of another season loses the
    fields that are not whitelisted.  The persisted sheet [sheet_2020] has a
    2020 record with [Scout = "x"]; after merging [season_2021] no row has
    it. *)
Lemma season_isolation_fails_for_source_a :
  ¬ season_isolation BartTorvikScraper.append_to_excel.
Proof.
  intros H.
  assert (wf sheet_2020) as Hs by (apply (bool_decide_unpack _); by vm_compute).
  assert (wf season_2021) as Hd by (apply (bool_decide_unpack _); by vm_compute).
  destruct (H sheet_2020 season_2021 (merged cols_a (Some sheet_2020) season_2021)
              (VInt 2021)
              {[ "Rk" := VStr "1"; "Scout" := VStr "x"; "Year" := VInt 2020 ]}
              Hs Hd) as (r' & Hin & Hsame).
  - intros r Hr. apply list_elem_of_singleton in Hr. by subst r.
  - apply append_to_excel_a_shape; [done|]. by intros ? [= <-].
  - left.
  - by vm_compute.
  - pose proof (merged_row_ok cols_a (Some sheet_2020) season_2021) as Hok.
    rewrite Forall_forall in Hok.
    assert (is_Some (r' !! "Scout")) as Hsc by (erewrite Hsame; eauto).
    apply (row_ok_lookup _ _ _ (Hok r' Hin)) in Hsc.
    revert Hsc. apply (bool_decide_unpack _). by vm_compute.
Qed.

(** C2, amended.  When a persisted sheet is loaded and the new records all
    carry the year [y], the records of the sheet with another year are
    found in the merged sheet in their order, each with the same value in
    every column of the merged sheet.  Source B's merged sheet has every
    column of the persisted one, so there every field is kept (the property
    as worded holds); source A's has the whitelist and [Year] only. *)
Theorem other_seasons_are_kept (store : option DataFrame) (e df : DataFrame)
    (y : value) (sheet : DataFrame) :
  wf df → store_wf store → load store = Some e →
  (∀ r, r ∈ rows df → r !! "Year" = Some y) →
  writes (BartTorvikScraper.append_to_excel store df) sheet
  ∨ writes (NBAScraper.append_to_excel store df) sheet →
  (∃ rs, rs `sublist_of` rows sheet
     ∧ Forall2 (λ r r', ∀ c v, c ∈ columns sheet →
                          r !! c = Some v → r' !! c = Some v)
               (filter (λ r, r !! "Year" ≠ Some y) (rows e)) rs)
  ∧ (writes (BartTorvikScraper.append_to_excel store df) sheet →
       columns sheet = BartTorvikScraper.desired_columns ++ ["Year"])
  ∧ (writes (NBAScraper.append_to_excel store df) sheet →
       ∀ c, c ∈ columns e → c ∈ columns sheet)
  ∧ season_isolation NBAScraper.append_to_excel.
Proof.
  intros Hdf Hst Hl Hall Hw.
  assert (∀ cols, (rows df ≠ [] → "Year" ∈ cols) →
    ∃ rs, rs `sublist_of` rows (merged cols store df)
      ∧ Forall2 (λ r r', ∀ c v, c ∈ cols → r !! c = Some v → r' !! c = Some v)
                (filter (λ r, r !! "Year" ≠ Some y) (rows e)) rs) as Hmerged.
  { intros cols HY.
    exists (norm cols <$> filter (λ r, r !! "Year" ≠ Some y) (rows e)). split.
    - unfold merged. rewrite Hl. simpl. apply sublist_inserts_r.
      by apply kept_sublist.
    - apply norm_keeps_rows. }
  assert (∀ st d sh, wf d → store_wf st →
    writes (NBAScraper.append_to_excel st d) sh →
    ∀ ex, load st = Some ex → ∀ c, c ∈ columns ex → c ∈ columns sh) as Hcols.
  { intros st d sh Hd Hs Hb ex Hex c Hc.
    apply writes_b in Hb as [[_ ->]|[_ ->]]; [| |done..].
    - apply load_Some in Hex as [[= ->] _]. done.
    - simpl. apply cols_b_elem. right. eauto. }
  split_and!.
  - destruct Hw as [Ha|Hb].
    + apply writes_a in Ha as ->; [|done..]. apply Hmerged.
      intros _. apply cols_a_Year.
    + apply writes_b in Hb as [[_ ->]|[_ ->]]; [| |done..].
      * apply load_Some in Hl as [[= ->] _].
        exists (filter (λ r, r !! "Year" ≠ Some y) (rows e)).
        split; [apply sublist_filter|].
        apply Forall_Forall2_diag, Forall_forall. by intros r _ c v _ ?.
      * apply Hmerged. intros Hr. apply cols_b_elem. left.
        by eapply has_Year_column.
  - intros Ha. by apply writes_a in Ha as ->.
  - intros Hb. by eapply Hcols.
  - intros ex d sh y' r Hex Hd Hally Hb Hr Hne.
    assert (store_wf (Some ex)) as Hsx by by intros ? [= <-].
    pose proof Hb as Hb'.
    apply writes_b in Hb' as [[_ [= ->]]|[Hemp ->]]; [by eauto| |done..].
    destruct (load (Some ex)) as [ex'|] eqn:Hlx.
    + pose proof Hlx as Hlx'. apply load_Some in Hlx' as [[= <-] _].
      assert (rows d ≠ [] → "Year" ∈ cols_b (Some ex) d) as HY.
      { intros Hrd. apply cols_b_elem. left. by eapply has_Year_column. }
      pose proof (kept_sublist (cols_b (Some ex) d) ex d y' HY Hally) as Hsub.
      exists (norm (cols_b (Some ex) d) r). split.
      * unfold merged. rewrite Hlx. simpl. apply elem_of_app. left.
        apply (sublist_subseteq _ _ Hsub).
        apply list_elem_of_fmap. exists r. split; [done|].
        by apply list_elem_of_filter.
      * intros c v Hv. rewrite lookup_norm, decide_True.
        -- unfold cell. by rewrite Hv.
        -- apply cols_b_elem. right. exists ex. split; [done|].
           destruct Hex as [_ Hrs]. rewrite Forall_forall in Hrs.
           apply (row_ok_lookup _ _ _ (Hrs r Hr)). eauto.
    + (* the sheet is not loaded: it has no row, or no column *)
      unfold load in Hlx. unfold empty in Hlx, Hemp.
      destruct (rows ex) as [|r1 rs1] eqn:Erows; [by apply not_elem_of_nil in Hr|].
      destruct (columns ex) as [|c1 cs1] eqn:Ecols; [|done].
      assert (r = ∅) as ->.
      { destruct Hex as [_ Hrs]. rewrite Forall_forall in Hrs.
        specialize (Hrs r). rewrite Erows, Ecols in Hrs.
        apply dom_empty_inv_L. by apply Hrs. }
      destruct (rows d) as [|rd rds] eqn:Ed; [done|].
      exists (norm (cols_b (Some ex) d) rd). split.
      * unfold merged. simpl. rewrite Ed. apply elem_of_app. right. left.
      * by intros c v ?%lookup_empty_Some.
Qed.

Lemma other_seasons_are_kept_witness :
  (∃ rs, rs `sublist_of` rows (merged cols_a (Some sheet_2020) season_2021)
     ∧ Forall2 (λ r r', ∀ c v,
                  c ∈ columns (merged cols_a (Some sheet_2020) season_2021) →
                  r !! c = Some v → r' !! c = Some v)
               (filter (λ r, r !! "Year" ≠ Some (VInt 2021)) (rows sheet_2020)) rs)
  ∧ (writes (BartTorvikScraper.append_to_excel (Some sheet_2020) season_2021)
            (merged cols_a (Some sheet_2020) season_2021) →
       columns (merged cols_a (Some sheet_2020) season_2021)
       = BartTorvikScraper.desired_columns ++ ["Year"])
  ∧ (writes (NBAScraper.append_to_excel (Some sheet_2020) season_2021)
            (merged cols_a (Some sheet_2020) season_2021) →
       ∀ c, c ∈ columns sheet_2020 →
            c ∈ columns (merged cols_a (Some sheet_2020) season_2021))
  ∧ season_isolation NBAScraper.append_to_excel.
Proof.
  apply (other_seasons_are_kept (Some sheet_2020) sheet_2020 season_2021
           (VInt 2021) (merged cols_a (Some sheet_2020) season_2021)).
  - apply (bool_decide_unpack _). vm_compute. reflexivity.
  - intros e [= <-]. apply (bool_decide_unpack _). vm_compute. reflexivity.
  - reflexivity.
  - intros r Hr. apply list_elem_of_singleton in Hr. subst r. reflexivity.
  - left. vm_compute. reflexivity.
Defined.

Section column_order_facts.
Import NBAScraper.

Lemma filter_all {A} (P : A → Prop) `{∀ x, Decision (P x)} (l : list A) :
  (∀ x, x ∈ l → P x) → filter P l = l.
Proof.
  induction l as [|x l IH]; [done|]. intros Hl.
  rewrite filter_cons, decide_True by (apply Hl; left).
  f_equal. apply IH. intros z Hz. apply Hl. by right.
Qed.

(** With the three priority labels and [Year] present, the last line of
    [column_order] filters nothing out. *)
Lemma column_order_full cols :
  "RK" ∈ cols → "Player" ∈ cols → "Team" ∈ cols → "Year" ∈ cols →
  column_order cols
  = ["RK"; "Player"; "Team"]
      ++ sorted (filter (λ col, (col ∉ priority_cols) ∧ (col ≠ "Year")) cols)
      ++ ["Year"].
Proof.
  intros HR HP HT HY. unfold column_order. rewrite decide_True by done.
  apply filter_all. intros c. rewrite !elem_of_app, sorted_elem, list_elem_of_filter.
  intros [Hc|[[_ Hc]|Hc]]; [|done|].
  - unfold priority_cols in Hc.
    repeat (apply elem_of_cons in Hc as [->|Hc]; [done|]).
    by apply not_elem_of_nil in Hc.
  - by apply list_elem_of_singleton in Hc as ->.
Qed.

End column_order_facts.

(** The column order of a merge whose new frame carries the priority labels
    and [Year]. *)
Lemma column_order_of_merge (store : option DataFrame) (df sheet : DataFrame) :
  wf df → store_wf store → rows df ≠ [] →
  "RK" ∈ columns df → "Player" ∈ columns df → "Team" ∈ columns df →
  "Year" ∈ columns df →
  writes (NBAScraper.append_to_excel store df) sheet →
  ∃ others,
    columns sheet = ["RK"; "Player"; "Team"] ++ others ++ ["Year"]
    ∧ Sorted String.le others
    ∧ NoDup others
    ∧ ∀ c, c ∈ others ↔
        (c ∈ columns df ∨ ∃ e, load store = Some e ∧ c ∈ columns e)
        ∧ c ∉ ["RK"; "Player"; "Team"; "Year"].
Proof.
  intros Hdf Hst Hr HR HP HT HY Hb.
  assert (columns df ≠ []) as Hc by (intros E; rewrite E in HY; inversion HY).
  apply writes_b in Hb as [[Hemp _]|[_ ->]]; [| |done..].
  { by rewrite not_empty in Hemp. }
  simpl. unfold cols_b.
  set (all := match load store with
              | Some e => NBAScraper.sorted (remove_dups (columns df ++ columns e))
              | None => columns df
              end).
  assert (∀ c, c ∈ all ↔ c ∈ columns df ∨ ∃ e, load store = Some e ∧ c ∈ columns e)
    as Hall.
  { intros c. subst all. destruct (load store) as [e|].
    - rewrite sorted_elem, elem_of_remove_dups, elem_of_app. naive_solver.
    - naive_solver. }
  assert (NoDup all) as Hnd by by apply cols_b_arg_NoDup.
  rewrite column_order_full by (apply Hall; by left).
  eexists. split_and!; [done|apply sorted_Sorted| |].
  - rewrite sorted_perm. by apply NoDup_filter.
  - intros c. rewrite sorted_elem, list_elem_of_filter, Hall.
    unfold NBAScraper.priority_cols. rewrite !not_elem_of_cons. naive_solver.
Qed.

(** ** Frames built from dicts *)

Section dict_facts.
Implicit Types (d : Dict.dict) (k : string) (v : value).

Lemma dict_get_set k k' v d :
  Dict.get k (Dict.set k' v d) = if decide (k = k') then Some v else Dict.get k d.
Proof.
  induction d as [|[k1 v1] d IH]; simpl.
  - by repeat case_decide.
  - repeat (case_decide; simpl; subst); try done.
Qed.

Lemma dict_get_to_map k d :
  (list_to_map d : gmap string value) !! k = Dict.get k d.
Proof.
  induction d as [|[k1 v1] d IH]; simpl; [done|].
  case_decide; subst.
  - by rewrite lookup_insert_eq.
  - by rewrite lookup_insert_ne.
Qed.

Lemma dict_get_keys k d : is_Some (Dict.get k d) ↔ k ∈ Dict.keys d.
Proof.
  unfold Dict.keys. induction d as [|[k1 v1] d IH]; simpl.
  - split; [by intros [? ?]|by intros ?%not_elem_of_nil].
  - rewrite elem_of_cons. case_decide; subst.
    + split; [by left|by eauto].
    + rewrite IH. naive_solver.
Qed.

Lemma first_seen_from acc ks :
  NoDup acc →
  NoDup (foldl (λ acc k, if decide (k ∈ acc) then acc else acc ++ [k]) acc ks)
  ∧ ∀ k, k ∈ foldl (λ acc k, if decide (k ∈ acc) then acc else acc ++ [k]) acc ks
         ↔ k ∈ acc ∨ k ∈ ks.
Proof.
  revert acc. induction ks as [|k0 ks IH]; intros acc Hnd; simpl.
  - split; [done|]. intros k. rewrite elem_of_nil. naive_solver.
  - case_decide as Hin.
    + destruct (IH acc Hnd) as [H1 H2]. split; [done|].
      intros k. rewrite H2, elem_of_cons. naive_solver.
    + destruct (IH (acc ++ [k0])) as [H1 H2].
      { apply NoDup_app. split_and!; [done| |apply NoDup_singleton].
        by intros x Hx ->%list_elem_of_singleton. }
      split; [done|]. intros k.
      rewrite H2, elem_of_app, list_elem_of_singleton, elem_of_cons. naive_solver.
Qed.

Lemma first_seen_NoDup ks : NoDup (Dict.first_seen ks).
Proof. apply first_seen_from, NoDup_nil_2. Qed.

Lemma first_seen_elem ks k : k ∈ Dict.first_seen ks ↔ k ∈ ks.
Proof.
  unfold Dict.first_seen.
  destruct (first_seen_from [] ks (NoDup_nil_2)) as [_ H]. rewrite H.
  rewrite elem_of_nil. naive_solver.
Qed.

Lemma to_frame_columns data k :
  k ∈ columns (Dict.to_frame data) ↔ ∃ d, d ∈ data ∧ k ∈ Dict.keys d.
Proof.
  unfold Dict.to_frame. simpl. rewrite first_seen_elem, list_elem_of_join.
  split.
  - intros (ks & Hk & [d [-> Hd]]%list_elem_of_fmap). eauto.
  - intros (d & Hd & Hk). exists (Dict.keys d). split; [done|].
    apply list_elem_of_fmap. eauto.
Qed.

Lemma to_frame_wf data : wf (Dict.to_frame data).
Proof.
  split; [apply first_seen_NoDup|].
  apply Forall_forall. intros r Hr.
  change (rows (Dict.to_frame data))
    with ((λ d, fill_row (columns (Dict.to_frame data)) (list_to_map d)) <$> data)
    in Hr.
  apply list_elem_of_fmap in Hr as [d [-> Hd]].
  apply row_ok_iff. intros k. rewrite lookup_fill_row, dict_get_to_map.
  destruct (Dict.get k d) eqn:E.
  - split; [intros _|by eauto]. apply to_frame_columns. exists d. split; [done|].
    apply dict_get_keys. eauto.
  - case_decide; split; try done; try (by eauto); by intros [? ?].
Qed.

Lemma to_frame_rows data :
  rows (Dict.to_frame data)
  = (λ d, fill_row (columns (Dict.to_frame data)) (list_to_map d)) <$> data.
Proof. done. Qed.

Lemma wf_set_column c v df : wf df → wf (set_column c v df).
Proof.
  intros [Hnd Hrows]. unfold set_column. split; simpl.
  - case_decide; [done|]. apply NoDup_app. split_and!; [done| |apply NoDup_singleton].
    by intros x Hx ->%list_elem_of_singleton.
  - apply Forall_fmap. eapply Forall_impl; [exact Hrows|].
    intros r Hr. simpl. unfold row_ok in *. rewrite dom_insert_L, Hr.
    case_decide; [|rewrite list_to_set_app_L]; set_solver.
Qed.

End dict_facts.

(** ** Source A: extraction *)

Section extract_a.
Import BartTorvikScraper.

Lemma get_put f f' i (cells : tr) d :
  Dict.get f (put f' i cells d)
  = if decide (f = f')
    then match cells !! i with
         | Some text => Some (VStr (strip text))
         | None => Dict.get f d
         end
    else Dict.get f d.
Proof.
  unfold put. destruct (decide (i < length cells)%nat) as [Hi|Hi].
  - apply lookup_lt_is_Some_2 in Hi as [text Ht].
    rewrite (list_lookup_total_correct _ _ _ Ht), dict_get_set, Ht. done.
  - rewrite (lookup_ge_None_2 cells i) by lia. by case_decide.
Qed.

Ltac get_put_step :=
  rewrite get_put;
  first [rewrite decide_True by reflexivity | rewrite decide_False by discriminate].

(** Cell by cell, [parse_row] is the documented layout. *)
Lemma parse_row_layout (cells : tr) pos field :
  (pos, field) ∈ documented_layout →
  Dict.get field (parse_row cells) = VStr ∘ strip <$> cells !! pos.
Proof.
  intros Hin. unfold documented_layout in Hin.
  repeat (apply elem_of_cons in Hin as [[= -> ->]|Hin];
          [unfold parse_row; repeat get_put_step;
           by destruct (cells !! _)|]).
  by apply not_elem_of_nil in Hin.
Qed.

(** [parse_row] sets no other field. *)
Lemma parse_row_keys (cells : tr) field :
  field ∈ Dict.keys (parse_row cells) → field ∈ desired_columns.
Proof.
  intros [v Hv]%dict_get_keys.
  destruct (decide (field ∈ desired_columns)) as [|Hout]; [done|exfalso].
  unfold desired_columns in Hout. rewrite !not_elem_of_cons in Hout.
  revert Hv. unfold parse_row.
  repeat (rewrite get_put, decide_False by naive_solver). done.
Qed.

Lemma parse_rows_filter (rows : list tr) :
  parse_rows rows = parse_row <$> filter (λ cells, 20 ≤ length cells)%nat rows.
Proof.
  induction rows as [|cells rows IH]; [done|]. simpl. rewrite filter_cons.
  case_decide.
  - rewrite decide_False by lia. done.
  - rewrite decide_True by lia. rewrite fmap_cons. by f_equal.
Qed.

Lemma extract_a_ok (tables : list table) year :
  (2 ≤ length tables)%nat → (2 ≤ length (tables !!! 1))%nat →
  let df := Dict.to_frame (parse_rows (drop 1 (tables !!! 1))) in
  let final_columns := filter (λ col, col ∈ columns df) desired_columns in
  extract tables year
  = Ok (set_column "Year" (VInt year)
          {| columns := final_columns; rows := project final_columns <$> rows df |}).
Proof.
  intros Ht Hr df final. unfold extract.
  rewrite decide_False by lia. rewrite decide_False by lia.
  fold df. fold final. rewrite select_ok; [done|].
  intros c [Hc _]%list_elem_of_filter. done.
Qed.

Lemma extract_a_short_document (tables : list table) year :
  (length tables < 2)%nat →
  extract tables year = Raise (ValueError "Player stats table not found").
Proof. intros H. unfold extract. by rewrite decide_True. Qed.

Lemma extract_a_short_table (tables : list table) year :
  (2 ≤ length tables)%nat → (length (tables !!! 1) < 2)%nat →
  extract tables year = Raise (ValueError "No data rows found in table").
Proof.
  intros H1 H2. unfold extract. rewrite decide_False by lia. by rewrite decide_True.
Qed.

(** The record a data row of at least 20 cells becomes. *)
Lemma extract_a_record data year (cells : tr) final pos field text :
  let df := Dict.to_frame data in
  parse_row cells ∈ data →
  final = filter (λ col, col ∈ columns df) desired_columns →
  (pos, field) ∈ documented_layout → cells !! pos = Some text →
  <["Year" := VInt year]>
    (project final (fill_row (columns df) (list_to_map (parse_row cells))))
    !! field
  = Some (VStr (strip text)).
Proof.
  intros df Hin -> Hlay Hcell.
  pose proof (parse_row_layout cells pos field Hlay) as Hget.
  rewrite Hcell in Hget. simpl in Hget.
  assert (field ∈ Dict.keys (parse_row cells)) as Hkey
    by (apply dict_get_keys; eauto).
  assert (field ∈ desired_columns) as Hdes by by eapply parse_row_keys.
  assert (field ≠ "Year") as Hne.
  { intros ->. revert Hdes. apply (bool_decide_unpack _). by vm_compute. }
  rewrite lookup_insert_ne by done.
  rewrite lookup_project, decide_True.
  - by rewrite lookup_fill_row, dict_get_to_map, Hget.
  - apply list_elem_of_filter. split; [|done].
    apply to_frame_columns. eauto.
Qed.

End extract_a.

(** C3. On a document that has the player table with its header and a data
    row, source A's extraction returns, and its records are, in order, the
    data rows of at least 20 cells (shorter rows are skipped); each record
    holds, for every pair of the documented layout whose cell the row has,
    the stripped text of that cell under that field: cell 0 under [Rk],
    2 under [Class], 4 under [Player], ..., 39 under [2P], 41 under
    [3P/100], 43 under [3P]; and it carries the year. *)
Theorem source_a_positional_mapping (tables : list (list (list string))) (year : Z) :
  (2 ≤ length tables)%nat → (2 ≤ length (tables !!! 1))%nat →
  ∃ df,
    BartTorvikScraper.extract tables year = Ok df
    ∧ Forall2
        (λ (cells : list string) (r : gmap string value),
           (∀ pos field text,
              (pos, field) ∈ documented_layout → cells !! pos = Some text →
              r !! field = Some (VStr (strip text)))
           ∧ r !! "Year" = Some (VInt year))
        (filter (λ cells, 20 ≤ length cells)%nat (drop 1 (tables !!! 1)))
        (rows df).
Proof.
  intros Ht Hr. eexists. split; [by apply extract_a_ok|].
  unfold set_column. cbn [rows]. rewrite to_frame_rows.
  rewrite parse_rows_filter.
  set (data := BartTorvikScraper.parse_row <$> _).
  subst data. rewrite <-!list_fmap_compose.
  apply Forall2_fmap_r, Forall_Forall2_diag, Forall_forall.
  intros cells Hin. cbn [compose]. split.
  - intros pos field text Hlay Hcell.
    eapply extract_a_record; [|done|done|done].
    apply list_elem_of_fmap. eauto.
  - by rewrite lookup_insert_eq.
Qed.

Lemma source_a_positional_mapping_witness :
  ∃ df,
    BartTorvikScraper.extract torvik_document 2024 = Ok df
    ∧ Forall2
        (λ (cells : list string) (r : gmap string value),
           (∀ pos field text,
              (pos, field) ∈ documented_layout → cells !! pos = Some text →
              r !! field = Some (VStr (strip text)))
           ∧ r !! "Year" = Some (VInt 2024))
        (filter (λ cells, 20 ≤ length cells)%nat (drop 1 (torvik_document !!! 1)))
        (rows df).
Proof.
  apply (source_a_positional_mapping torvik_document 2024).
  - vm_compute. lia.
  - vm_compute. lia.
Defined.

Example source_a_positional_mapping_sample :
  (λ df, (λ r, (r !! "Class", r !! "Player", r !! "2P", r !! "3P")) <$> rows df)
    <$> (match BartTorvikScraper.extract torvik_document 2024 with
         | Ok df => Some df
         | Raise _ => None
         end)
  = Some [(Some (VStr "Jr"), Some (VStr "Zach Edey"),
           Some (VStr ".624"), Some (VStr ".500"))].
Proof. vm_compute. reflexivity. Qed.

(** ** Source B: extraction *)

Section extract_b.
Import NBAScraper.

Lemma dict_set_keys k k' v d : k ∈ Dict.keys d → k ∈ Dict.keys (Dict.set k' v d).
Proof.
  unfold Dict.keys. induction d as [|[k1 v1] d IH]; simpl.
  - by intros ?%not_elem_of_nil.
  - intros [->|Hin]%elem_of_cons; case_decide; subst; simpl;
      rewrite elem_of_cons; auto.
Qed.

Lemma add_stats_keys j headers cells d k :
  k ∈ Dict.keys d → k ∈ Dict.keys (add_stats j headers cells d).
Proof.
  revert j d. induction headers as [|h hs IH]; intros j d Hk; simpl; [done|].
  apply IH. case_decide; [by apply dict_set_keys|done].
Qed.

Lemma parse_rows_b_keys headers name_rows stats_rows d :
  d ∈ parse_rows headers name_rows stats_rows →
  "RK" ∈ Dict.keys d ∧ "Player" ∈ Dict.keys d ∧ "Team" ∈ Dict.keys d.
Proof.
  revert stats_rows.
  induction name_rows as [|nc nrs IH]; intros [|sc srs]; simpl;
    try by intros ?%not_elem_of_nil.
  case_decide; [by apply IH|].
  destruct (extract_player_name_and_team _) as [player team].
  case_decide; [by apply IH|].
  intros [->|Hin]%elem_of_cons; [|by eapply IH].
  split_and!; apply add_stats_keys; unfold Dict.keys; simpl; set_solver.
Qed.

Lemma parse_rows_b_length headers name_rows stats_rows :
  (length (parse_rows headers name_rows stats_rows)
   ≤ length name_rows `min` length stats_rows)%nat.
Proof.
  revert stats_rows.
  induction name_rows as [|nc nrs IH]; intros [|sc srs]; simpl; try lia.
  specialize (IH srs).
  case_decide; [lia|].
  destruct (extract_player_name_and_team _) as [player team].
  case_decide; simpl; lia.
Qed.

Lemma extract_b_ok name_table stats_table rest headers year :
  thead stats_table = Some headers →
  extract (name_table :: stats_table :: rest) year
  = Ok (set_column "Year" (VInt year)
          (Dict.to_frame (parse_rows (strip <$> headers)
                            (tbody name_table) (tbody stats_table)))).
Proof. intros H. unfold extract. by rewrite H. Qed.

Lemma extract_b_inv tables year df :
  extract tables year = Ok df →
  ∃ name_table stats_table rest headers,
    tables = name_table :: stats_table :: rest
    ∧ thead stats_table = Some headers
    ∧ df = set_column "Year" (VInt year)
             (Dict.to_frame (parse_rows (strip <$> headers)
                               (tbody name_table) (tbody stats_table))).
Proof.
  unfold extract. destruct tables as [|t0 [|t1 rest]]; try done.
  destruct (thead t1) as [headers|] eqn:E; [|done].
  simpl. intros [= <-]. by exists t0, t1, rest, headers.
Qed.

(** What every frame extracted from source B provides to the merge. *)
Lemma extract_b_frame tables year df :
  extract tables year = Ok df →
  wf df ∧ "Year" ∈ columns df
  ∧ (rows df ≠ [] →
       "RK" ∈ columns df ∧ "Player" ∈ columns df ∧ "Team" ∈ columns df).
Proof.
  intros (t0 & t1 & rest & headers & -> & Hh & ->)%extract_b_inv.
  set (data := parse_rows _ _ _). split_and!.
  - apply wf_set_column, to_frame_wf.
  - unfold set_column. simpl. case_decide; [done|]. apply elem_of_app. right. left.
  - unfold set_column at 1. cbn [rows]. rewrite to_frame_rows.
    destruct data as [|d data'] eqn:E; [done|]. intros _.
    assert (d ∈ data) as Hd by (rewrite E; left).
    apply parse_rows_b_keys in Hd as (HR & HP & HT).
    assert (∀ k, k ∈ Dict.keys d →
                 k ∈ columns (set_column "Year" (VInt year)
                                (Dict.to_frame (d :: data')))) as Hcol.
    { intros k Hk. unfold set_column. cbn [columns].
      assert (k ∈ columns (Dict.to_frame (d :: data'))) as Hin.
      { apply to_frame_columns. exists d. split; [left|done]. }
      case_decide; [done|]. apply elem_of_app. by left. }
    auto.
Qed.

End extract_b.

(** C4, as worded for both sources, fails for source B: a document with
    both tables and no data row is not refused; extraction returns (an empty
    frame). *)
Lemma source_b_accepts_document_without_rows : ¬ fails_iff_short_b.
Proof.
  intros H. destruct (H nba_document_without_rows 2024%Z) as [_ Hfail].
  destruct Hfail as [e He].
  - right. eexists. split; [left|]. vm_compute. lia.
  - vm_compute in He. discriminate He.
Qed.

(** C4, amended.  Source A's extraction fails exactly when the document has
    fewer than two tables or its second table has fewer than two rows, and
    otherwise returns no more records than that table has data rows.
    Source B's raises its [ValueError] exactly when fewer than two tables
    are found; with two tables it returns whenever the stats table has a
    header section, with no more records than the shorter of the two tables
    has rows, even when there is no data row at all; without a header
    section the element lookup raises. *)
Theorem extraction_failure_conditions :
  (∀ (tables : list (list (list string))) (year : Z),
     ((∃ e, BartTorvikScraper.extract tables year = Raise e)
      ↔ (length tables < 2)%nat ∨ (length (tables !!! 1) < 2)%nat)
     ∧ ((2 ≤ length tables)%nat → (2 ≤ length (tables !!! 1))%nat →
        ∃ df, BartTorvikScraper.extract tables year = Ok df
          ∧ (length (rows df) ≤ length (tables !!! 1) - 1)%nat))
  ∧ (∀ (tables : list NBAScraper.table) (year : Z),
       ((∃ msg, NBAScraper.extract tables year = Raise (ValueError msg))
        ↔ (length tables < 2)%nat)
       ∧ (∀ name_table stats_table rest,
            tables = name_table :: stats_table :: rest →
            match NBAScraper.thead stats_table with
            | Some _ =>
                ∃ df, NBAScraper.extract tables year = Ok df
                  ∧ (length (rows df)
                     ≤ length (NBAScraper.tbody name_table)
                         `min` length (NBAScraper.tbody stats_table))%nat
            | None =>
                NBAScraper.extract tables year = Raise NoSuchElementException
            end))
  ∧ (∃ df, NBAScraper.extract nba_document_without_rows 2024 = Ok df
        ∧ rows df = []).
Proof.
  split_and!.
  - intros tables year. split; [split|].
    + intros [e He].
      destruct (decide (length tables < 2)%nat); [by left|].
      destruct (decide (length (tables !!! 1) < 2)%nat); [by right|].
      rewrite extract_a_ok in He by lia. done.
    + intros [H|H].
      * eexists. by apply extract_a_short_document.
      * destruct (decide (length tables < 2)%nat).
        -- eexists. by apply extract_a_short_document.
        -- eexists. apply extract_a_short_table; [lia|done].
    + intros Ht Hr. eexists. split; [by apply extract_a_ok|].
      unfold set_column. cbn [rows]. rewrite !length_fmap, to_frame_rows.
      rewrite length_fmap, parse_rows_filter, length_fmap.
      etrans; [apply length_filter|]. rewrite length_drop. lia.
  - intros tables year. split.
    + split.
      * intros [msg Hm]. destruct tables as [|t0 [|t1 rest]]; simpl; try lia.
        unfold NBAScraper.extract in Hm.
        destruct (NBAScraper.thead t1); simpl in Hm; done.
      * intros Hlen. destruct tables as [|t0 [|t1 rest]]; simpl in Hlen;
          try lia; by eexists.
    + intros t0 t1 rest ->.
      destruct (NBAScraper.thead t1) as [headers|] eqn:E.
      * eexists. split; [by apply extract_b_ok|].
        unfold set_column. cbn [rows]. rewrite length_fmap, to_frame_rows.
        rewrite length_fmap. apply parse_rows_b_length.
      * unfold NBAScraper.extract. by rewrite E.
  - eexists. split; [by vm_compute|done].
Qed.

(** C7. When source B merges a frame it has extracted (with at least one
    record), the sheet written has the columns [RK], [Player], [Team], then
    the remaining labels of the new frame and of the loaded sheet, each
    once, sorted by code point, then [Year].  A sheet that is absent or
    empty is not loaded and contributes no label. *)
Theorem source_b_column_order (tables : list NBAScraper.table) (year : Z)
    (store : option DataFrame) (df sheet : DataFrame) :
  NBAScraper.extract tables year = Ok df → rows df ≠ [] →
  store_wf store →
  writes (NBAScraper.append_to_excel store df) sheet →
  ∃ others,
    columns sheet = ["RK"; "Player"; "Team"] ++ others ++ ["Year"]
    ∧ Sorted String.le others
    ∧ NoDup others
    ∧ ∀ c, c ∈ others ↔
        (c ∈ columns df ∨ ∃ e, load store = Some e ∧ c ∈ columns e)
        ∧ c ∉ ["RK"; "Player"; "Team"; "Year"].
Proof.
  intros (Hwf & HY & Hcols)%extract_b_frame Hr Hst Hw.
  destruct (Hcols Hr) as (HR & HP & HT).
  by eapply column_order_of_merge.
Qed.

Lemma source_b_column_order_witness :
  ∃ others,
    columns (merged (cols_b (Some nba_sheet_2020) nba_frame_2021)
                    (Some nba_sheet_2020) nba_frame_2021)
    = ["RK"; "Player"; "Team"] ++ others ++ ["Year"]
    ∧ Sorted String.le others
    ∧ NoDup others
    ∧ ∀ c, c ∈ others ↔
        (c ∈ columns nba_frame_2021
         ∨ ∃ e, load (Some nba_sheet_2020) = Some e ∧ c ∈ columns e)
        ∧ c ∉ ["RK"; "Player"; "Team"; "Year"].
Proof.
  apply (source_b_column_order nba_document 2021 (Some nba_sheet_2020)
           nba_frame_2021).
  - vm_compute. reflexivity.
  - vm_compute. discriminate.
  - intros e [= <-]. apply (bool_decide_unpack _). vm_compute. reflexivity.
  - vm_compute. reflexivity.
Defined.

Example source_b_column_order_sample :
  columns (merged (cols_b (Some nba_sheet_2020) nba_frame_2021)
                  (Some nba_sheet_2020) nba_frame_2021)
  = ["RK"; "Player"; "Team"; "GP"; "POS"; "PTS"; "Year"]
  ∧ (λ r, (r !! "Player", r !! "Team")) <$> rows nba_frame_2021
    = [(Some (VStr "ray allen"), Some (VStr "MIA"));
       (Some (VStr "De'Aaron Fox"), Some (VStr "SAC/SA"))].
Proof. vm_compute. split; reflexivity. Qed.

(** ** Pagination *)

Section pagination.
Context {S : Type} (b : Browser S).

Lemma load_more_loop_counting n clicks page k :
  ∃ k',
    BartTorvikScraper.load_more_loop (counting b) n clicks (page, k)
    = ((BartTorvikScraper.load_more_loop b n clicks page).1,
       ((BartTorvikScraper.load_more_loop b n clicks page).2, k'))
    ∧ (k ≤ k' ≤ k + n)%nat
    ∧ (clicks ≤ (BartTorvikScraper.load_more_loop b n clicks page).1)%nat
    ∧ ((BartTorvikScraper.load_more_loop b n clicks page).1 - clicks ≤ k' - k)%nat.
Proof.
  revert clicks page k. induction n as [|n IH]; intros clicks page k.
  - exists k. simpl. split_and!; [done|lia..].
  - simpl. destruct (wait_clickable b page) as [[] p1]; simpl.
    + destruct (click b p1) as [[] p2]; simpl.
      * destruct (IH (clicks + 1) (sleep b p2) (Datatypes.S k))
          as (k' & -> & ? & ? & ?).
        exists k'. split_and!; [done|lia..].
      * exists (Datatypes.S k). split_and!; [done|lia..].
    + exists k. split_and!; [done|lia..].
Qed.

Lemma show_more_loop_counting n clicks prev page k :
  ∃ k',
    NBAScraper.show_more_loop (counting b) n clicks prev (page, k)
    = ((NBAScraper.show_more_loop b n clicks prev page).1,
       ((NBAScraper.show_more_loop b n clicks prev page).2, k'))
    ∧ (k ≤ k' ≤ k + n)%nat
    ∧ (clicks ≤ (NBAScraper.show_more_loop b n clicks prev page).1)%nat
    ∧ ((NBAScraper.show_more_loop b n clicks prev page).1 - clicks ≤ k' - k)%nat.
Proof.
  revert clicks prev page k. induction n as [|n IH]; intros clicks prev page k.
  - exists k. simpl. split_and!; [done|lia..].
  - simpl. destruct (wait_clickable b page) as [[] p1]; simpl.
    + destruct (click b p1) as [[] p2]; simpl.
      * destruct (decide (2 ≤ length (table_rows b (sleep b p2)))%nat).
        -- destruct (decide (_ = _)).
           ++ exists (Datatypes.S k). simpl. split_and!; [done|lia..].
           ++ destruct (IH (clicks + 1) (table_rows b (sleep b p2) !!! 0)
                          (sleep b p2) (Datatypes.S k))
                as (k' & -> & ? & ? & ?).
              exists k'. split_and!; [done|lia..].
        -- destruct (IH (clicks + 1)
                        (if decide (2 ≤ length (table_rows b p1))%nat
                         then table_rows b p1 !!! 0 else prev)
                        (sleep b p2) (Datatypes.S k))
             as (k' & -> & ? & ? & ?).
           exists k'. split_and!; [done|lia..].
      * exists (Datatypes.S k). split_and!; [done|lia..].
    + exists k. split_and!; [done|lia..].
Qed.

End pagination.

(** C5. On any page, however its affordance behaves, the pagination loop of
    source A returns after at most 30 calls to [click] and that of source B
    after at most 20; the click count each reports is at most its number of
    attempts, and is the one the loop reports on the uncounted page.  The
    bounds are reached on a page whose affordance never goes away. *)
Theorem pagination_is_bounded :
  (∀ (S : Type) (b : Browser S) (page : S),
     ∃ clicks end_page attempts,
       BartTorvikScraper.load_all (counting b) (page, 0)
       = (clicks, (end_page, attempts))
       ∧ BartTorvikScraper.load_all b page = (clicks, end_page)
       ∧ (clicks ≤ attempts)%nat ∧ (attempts ≤ 30)%nat)
  ∧ (∀ (S : Type) (b : Browser S) (page : S),
       ∃ clicks end_page attempts,
         NBAScraper.load_all (counting b) (page, 0)
         = (clicks, (end_page, attempts))
         ∧ NBAScraper.load_all b page = (clicks, end_page)
         ∧ (clicks ≤ attempts)%nat ∧ (attempts ≤ 20)%nat)
  ∧ (BartTorvikScraper.load_all (counting endless_page) (50, 0)).2.2 = 30
  ∧ (NBAScraper.load_all (counting endless_page) (50, 0)).2.2 = 20.
Proof.
  split_and!.
  - intros S b page. unfold BartTorvikScraper.load_all.
    destruct (load_more_loop_counting b BartTorvikScraper.max_clicks 0 page 0)
      as (k' & Heq & Hk & Hc1 & Hc2).
    eexists _, _, k'. split; [exact Heq|].
    split; [by destruct (BartTorvikScraper.load_more_loop b _ 0 page)|].
    unfold BartTorvikScraper.max_clicks in Hk. lia.
  - intros S b page. unfold NBAScraper.load_all.
    destruct (show_more_loop_counting b NBAScraper.max_clicks 0 0 page 0)
      as (k' & Heq & Hk & Hc1 & Hc2).
    eexists _, _, k'. split; [exact Heq|].
    split; [by destruct (NBAScraper.show_more_loop b _ 0 0 page)|].
    unfold NBAScraper.max_clicks in Hk. lia.
  - by vm_compute.
  - by vm_compute.
Qed.

(** C6, as worded, fails on a page that shows a single [table.Table]: the
    row count is 50 before and after every click, and the loop goes on to
    its 20th click. *)
Lemma single_table_page_is_clicked_20_times : ¬ stops_when_rows_stall.
Proof.
  intros H.
  specialize (H unit single_table_page 19 0 0 tt eq_refl eq_refl eq_refl).
  vm_compute in H. discriminate H.
Qed.

(** C6, amended.  For source B, when the page shows at least two tables
    before and after a click and the first table has as many rows after the
    click as before, the loop stops with that click, whatever is left of its
    range and however clickable the affordance remains: it reports one more
    click and makes no further attempt. *)
Theorem source_b_stops_when_rows_stall (S : Type) (b : Browser S)
    (n clicks previous_row_count : nat) (page : S) :
  let before := (wait_clickable b page).2 in
  let after := sleep b (click b before).2 in
  (wait_clickable b page).1 = true → (click b before).1 = true →
  (2 ≤ length (table_rows b before))%nat →
  (2 ≤ length (table_rows b after))%nat →
  table_rows b after !!! 0 = table_rows b before !!! 0 →
  NBAScraper.show_more_loop b (Datatypes.S n) clicks previous_row_count page
  = (clicks + 1, after)
  ∧ ∀ attempts,
      NBAScraper.show_more_loop (counting b) (Datatypes.S n) clicks
        previous_row_count (page, attempts)
      = (clicks + 1, (after, Datatypes.S attempts)).
Proof.
  intros before after Hw Hc Hb Ha Heq. subst before after.
  split; [|intros attempts]; simpl;
    destruct (wait_clickable b page) as [found p1]; simpl in *; subst found;
    simpl; destruct (click b p1) as [clicked p2]; simpl in *; subst clicked;
    simpl;
    (destruct (decide (2 ≤ length (table_rows b p1))%nat); [|done]);
    (destruct (decide (2 ≤ length (table_rows b (sleep b p2)))%nat); [|done]);
    by rewrite decide_True.
Qed.

Lemma source_b_stops_when_rows_stall_witness :
  NBAScraper.show_more_loop finished_page 20 0 0 tt = (0 + 1, tt)
  ∧ ∀ attempts,
      NBAScraper.show_more_loop (counting finished_page) 20 0 0 (tt, attempts)
      = (0 + 1, (tt, Datatypes.S attempts)).
Proof.
  apply (source_b_stops_when_rows_stall unit finished_page 19 0 0 tt).
  - reflexivity.
  - reflexivity.
  - simpl. lia.
  - simpl. lia.
  - reflexivity.
Defined.

(** ** The regular expression engine against its declarative reading *)

Section regex_sound.
Import Re.
Implicit Types (r : re) (s : list ascii) (st : state).

Lemma step_char_inv ok s st st' :
  st' ∈ step_char ok s st →
  ∃ c, s !! pos st = Some c ∧ ok c = true
       ∧ st' = mkState (Datatypes.S (pos st)) (caps st).
Proof.
  unfold step_char. destruct (s !! pos st) as [c|]; [|by intros ?%not_elem_of_nil].
  destruct (ok c) eqn:E; [|by intros ?%not_elem_of_nil].
  intros ->%list_elem_of_singleton. eauto.
Qed.

Lemma rep_inv step lo hi greedy fuel count st st' :
  st' ∈ rep step lo hi greedy fuel count st →
  ((lo ≤ count)%nat ∧ st' = st)
  ∨ ∃ fuel' st1, fuel = Datatypes.S fuel' ∧ below count hi = true
      ∧ st1 ∈ step st ∧ (pos st < pos st1)%nat
      ∧ st' ∈ rep step lo hi greedy fuel' (Datatypes.S count) st1.
Proof.
  intros Hin.
  assert (st' ∈ (if decide (lo ≤ count)%nat then [st] else [])
          ∨ st' ∈ match fuel with
                  | 0 => []
                  | Datatypes.S fuel' =>
                      if below count hi
                      then st1 ← step st;
                           if decide (pos st < pos st1)%nat
                           then rep step lo hi greedy fuel' (Datatypes.S count) st1
                           else []
                      else []
                  end) as [Hstop|Hmore].
  { destruct fuel, greedy; cbn [rep] in Hin; apply elem_of_app in Hin; tauto. }
  - left. case_decide; [|by apply not_elem_of_nil in Hstop].
    by apply list_elem_of_singleton in Hstop.
  - right. destruct fuel as [|fuel']; [by apply not_elem_of_nil in Hmore|].
    destruct (below count hi); [|by apply not_elem_of_nil in Hmore].
    apply list_elem_of_bind in Hmore as (st1 & Hin1 & Hst1).
    case_decide; [|by apply not_elem_of_nil in Hin1].
    exists fuel', st1. done.
Qed.

Lemma rep_sound (R : nat → nat → Prop) step lo hi greedy fuel count st st' :
  (∀ a b, b ∈ step a → R (pos a) (pos b)) →
  match hi with Some h => (count ≤ h)%nat | None => True end →
  st' ∈ rep step lo hi greedy fuel count st →
  ∃ n, (lo ≤ count + n)%nat
    ∧ match hi with Some h => (count + n ≤ h)%nat | None => True end
    ∧ power R n (pos st) (pos st').
Proof.
  intros Hstep. revert count st.
  induction fuel as [|fuel IH]; intros count st Hhi Hin;
    apply rep_inv in Hin as [[Hlo ->]|(fuel' & st1 & Hf & Hb & H1 & Hlt & Hrest)];
    try done.
  - exists 0. rewrite Nat.add_0_r. done.
  - exists 0. rewrite Nat.add_0_r. done.
  - injection Hf as <-. apply IH in Hrest as (n & Hlo & Hh & Hp).
    + exists (Datatypes.S n). split_and!.
      * lia.
      * destruct hi; [lia|done].
      * simpl. exists (pos st1). auto.
    + destruct hi as [h|]; [|done]. simpl in Hb.
      apply bool_decide_eq_true in Hb. lia.
Qed.

Lemma rep_caps step lo hi greedy fuel count st st' :
  (∀ a b, b ∈ step a → caps b = caps a) →
  st' ∈ rep step lo hi greedy fuel count st → caps st' = caps st.
Proof.
  intros Hstep. revert count st.
  induction fuel as [|fuel IH]; intros count st Hin;
    apply rep_inv in Hin as [[Hlo ->]|(fuel' & st1 & Hf & Hb & H1 & Hlt & Hrest)];
    try done.
  injection Hf as <-. apply IH in Hrest. rewrite Hrest. by apply Hstep.
Qed.

(** Every state the engine returns is a match in the declarative sense. *)
Lemma exec_sound r s st st' :
  st' ∈ exec r s st → matches r s (pos st) (pos st').
Proof.
  revert st st'. induction r as [|c|lo hi|r1 IH1 r2 IH2|r IH lo hi g|i r IH| |];
    intros st st' Hin; simpl in *.
  - apply step_char_inv in Hin as (c & Hc & Hok & ->).
    apply bool_decide_eq_true in Hok. eauto.
  - apply step_char_inv in Hin as (c' & Hc & Hok & ->).
    apply bool_decide_eq_true in Hok. subst. eauto.
  - apply step_char_inv in Hin as (c & Hc & Hok & ->). eauto.
  - apply list_elem_of_bind in Hin as (st1 & H2 & H1). eauto.
  - apply (rep_sound (matches r s)) in Hin as (n & Hlo & Hhi & Hp); [|auto|].
    + exists n. split_and!; [lia| |done]. by destruct hi.
    + destruct hi; [lia|done].
  - apply list_elem_of_fmap in Hin as (a & -> & Ha). simpl. auto.
  - case_decide as Hp; [|by apply not_elem_of_nil in Hin].
    apply list_elem_of_singleton in Hin as ->. done.
  - destruct (at_eol s (pos st)) eqn:E; [|by apply not_elem_of_nil in Hin].
    apply list_elem_of_singleton in Hin as ->. done.
Qed.

(** A regular expression without groups leaves the captures alone. *)
Lemma exec_caps r s st st' :
  groups r = [] → st' ∈ exec r s st → caps st' = caps st.
Proof.
  revert st st'. induction r as [|c|lo hi|r1 IH1 r2 IH2|r IH lo hi g|i r IH| |];
    intros st st' Hg Hin; simpl in *.
  - by apply step_char_inv in Hin as (c & Hc & Hok & ->).
  - by apply step_char_inv in Hin as (c' & Hc & Hok & ->).
  - by apply step_char_inv in Hin as (c & Hc & Hok & ->).
  - apply app_eq_nil in Hg as [Hg1 Hg2].
    apply list_elem_of_bind in Hin as (st1 & H2 & H1).
    rewrite (IH2 _ _ Hg2 H2). by apply IH1.
  - eapply rep_caps; [|exact Hin]. intros a b0. by apply IH.
  - done.
  - case_decide; [|by apply not_elem_of_nil in Hin].
    by apply list_elem_of_singleton in Hin as ->.
  - destruct (at_eol s (pos st)); [|by apply not_elem_of_nil in Hin].
    by apply list_elem_of_singleton in Hin as ->.
Qed.

Lemma power_bounds (R : nat → nat → Prop) s n i j :
  (∀ a b, R a b → (a ≤ length s)%nat → (b ≤ length s)%nat) →
  power R n i j → (i ≤ length s)%nat → (i ≤ j ≤ length s)%nat.
Proof.
  intros HR. revert i. induction n as [|n IH]; intros i; simpl.
  - intros -> ?. lia.
  - intros (k & Hik & Hlt & Hp) Hi. specialize (IH k Hp (HR _ _ Hik Hi)). lia.
Qed.

Lemma matches_bounds r s i j :
  matches r s i j → (i ≤ length s)%nat → (i ≤ j ≤ length s)%nat.
Proof.
  revert i j. induction r as [|c|lo hi|r1 IH1 r2 IH2|r IH lo hi g|n r IH| |];
    intros i j; simpl.
  - intros [-> (c & Hc%lookup_lt_Some & _)] _. lia.
  - intros [-> Hc%lookup_lt_Some] _. lia.
  - intros [-> (c & Hc%lookup_lt_Some & _)] _. lia.
  - intros (k & H1 & H2) Hi. specialize (IH1 _ _ H1 Hi).
    specialize (IH2 _ _ H2). lia.
  - intros (n & _ & _ & Hp) Hi. eapply power_bounds; [|exact Hp|done].
    intros a b0 Hab Ha. specialize (IH _ _ Hab Ha). lia.
  - apply IH.
  - intros [-> ->]. lia.
  - intros [-> _]. lia.
Qed.

(** The characters a repeated class consumes are all in the class. *)
Lemma power_range lo hi s n i j :
  power (matches (Range lo hi) s) n i j →
  j = i + n
  ∧ ∀ k, (i ≤ k < j)%nat → ∃ c, s !! k = Some c ∧ in_range lo hi c = true.
Proof.
  revert i. induction n as [|n IH]; intros i; simpl.
  - intros ->. split; [lia|]. intros k ?. lia.
  - intros (k & [-> Hc] & _ & Hp). apply IH in Hp as [-> Hall].
    split; [lia|]. intros k Hk.
    destruct (decide (k = i)) as [->|]; [done|]. apply Hall. lia.
Qed.

End regex_sound.

(** ** The three patterns of the name splitter *)

Section name_patterns.
Import Re NBAScraper.
Implicit Types (s l : list ascii) (st : state).

Lemma string_of_app (a b : list ascii) :
  string_of_list_ascii (a ++ b)
  = String.append (string_of_list_ascii a) (string_of_list_ascii b).
Proof. induction a as [|c a IH]; [done|]. simpl. by rewrite IH. Qed.

Lemma string_length_of (l : list ascii) :
  String.length (string_of_list_ascii l) = length l.
Proof. induction l as [|c l IH]; [done|]. simpl. by rewrite IH. Qed.

Lemma string_append_nil_r (str : string) : String.append str "" = str.
Proof.
  induction str as [|c str IH]; [done|].
  change (String c (String.append str "") = String c str). by rewrite IH.
Qed.

Lemma re_match_Some r (str : string) m :
  re_match r str = Some m →
  ∃ st', st' ∈ exec r (list_ascii_of_string str) (mkState 0 ∅)
         ∧ m = mkMatch (list_ascii_of_string str) (caps st').
Proof.
  unfold re_match. intros (st' & Hhead & ->)%fmap_Some.
  exists st'. split; [by apply head_Some_elem_of|done].
Qed.

Lemma exec_Group i r s st st' :
  st' ∈ exec (Group i r) s st →
  ∃ a, a ∈ exec r s st
       ∧ st' = mkState (pos a) (<[i := (pos st, pos a)]> (caps a)).
Proof. simpl. intros (a & -> & Ha)%list_elem_of_fmap. eauto. Qed.

Lemma exec_Bol s st st' : st' ∈ exec Bol s st → pos st = 0 ∧ st' = st.
Proof.
  simpl. case_decide; [|by intros ?%not_elem_of_nil].
  by intros ->%list_elem_of_singleton.
Qed.

(** [^(A)(B)T] with group-free [A], [B], [T]. *)
Lemma exec_two_groups A B T s st' :
  groups A = [] → groups B = [] → groups T = [] →
  st' ∈ exec (Cat Bol (Cat (Group 1 A) (Cat (Group 2 B) T))) s (mkState 0 ∅) →
  ∃ p1 p2, matches A s 0 p1 ∧ matches B s p1 p2 ∧ matches T s p2 (pos st')
    ∧ caps st' = <[2 := (p1, p2)]> (<[1 := (0, p1)]> ∅).
Proof.
  intros HA HB HT Hin.
  change (exec (Cat ?a ?b) s ?st) with (st1 ← exec a s st; exec b s st1) in Hin.
  apply list_elem_of_bind in Hin as (st0 & Hin & [_ ->]%exec_Bol).
  change (exec (Cat ?a ?b) s ?st) with (st1 ← exec a s st; exec b s st1) in Hin.
  apply list_elem_of_bind in Hin as (st1 & Hin & (a & Ha & ->)%exec_Group).
  change (exec (Cat ?a ?b) s ?st) with (st1 ← exec a s st; exec b s st1) in Hin.
  apply list_elem_of_bind in Hin as (st2 & Hin & (b & Hb & ->)%exec_Group).
  pose proof (exec_sound _ _ _ _ Ha) as Hma.
  pose proof (exec_sound _ _ _ _ Hb) as Hmb.
  pose proof (exec_sound _ _ _ _ Hin) as Hmt.
  pose proof (exec_caps _ _ _ _ HA Ha) as Hca.
  pose proof (exec_caps _ _ _ _ HB Hb) as Hcb.
  pose proof (exec_caps _ _ _ _ HT Hin) as Hct.
  simpl in *. exists (pos a), (pos b). split_and!; [done..|].
  by rewrite Hct, Hcb, Hca.
Qed.

(** [^(A)(B)] with group-free [A], [B]. *)
Lemma exec_two_groups_open A B s st' :
  groups A = [] → groups B = [] →
  st' ∈ exec (Cat Bol (Cat (Group 1 A) (Group 2 B))) s (mkState 0 ∅) →
  ∃ p1, matches A s 0 p1 ∧ matches B s p1 (pos st')
    ∧ caps st' = <[2 := (p1, pos st')]> (<[1 := (0, p1)]> ∅).
Proof.
  intros HA HB Hin.
  change (exec (Cat ?a ?b) s ?st) with (st1 ← exec a s st; exec b s st1) in Hin.
  apply list_elem_of_bind in Hin as (st0 & Hin & [_ ->]%exec_Bol).
  change (exec (Cat ?a ?b) s ?st) with (st1 ← exec a s st; exec b s st1) in Hin.
  apply list_elem_of_bind in Hin as (st1 & Hin & (a & Ha & ->)%exec_Group).
  apply exec_Group in Hin as (b & Hb & ->).
  pose proof (exec_sound _ _ _ _ Ha) as Hma.
  pose proof (exec_sound _ _ _ _ Hb) as Hmb.
  pose proof (exec_caps _ _ _ _ HA Ha) as Hca.
  pose proof (exec_caps _ _ _ _ HB Hb) as Hcb.
  simpl in *. exists (pos a). split_and!; [done..|].
  by rewrite Hcb, Hca.
Qed.

Lemma upper_at_Some l k c :
  l !! k = Some c → in_range "A" "Z" c = true → upper_at l k = true.
Proof. unfold upper_at. by intros ->. Qed.

(** [.+?] from the start ends after the start. *)
Lemma matches_player s p1 :
  matches (plus_lazy Dot) s 0 p1 → (1 ≤ p1 ≤ length s)%nat.
Proof.
  intros H. pose proof (matches_bounds _ _ _ _ H) as Hb.
  destruct H as (n & Hn & _ & Hp). destruct n as [|n]; [lia|].
  destruct Hp as (k & Hk & Hlt & Hp).
  assert (k ≤ length s)%nat as Hkl.
  { apply (matches_bounds Dot s 0 k Hk). lia. }
  apply (power_bounds (matches Dot s) s) in Hp; [lia| |done].
  intros a b Hab Ha. apply (matches_bounds Dot s a b Hab Ha).
Qed.

(** [[A-Z]{2,4}] consumes two to four uppercase letters. *)
Lemma matches_team s p1 p2 :
  matches (Rep AZ 2 (Some 4) true) s p1 p2 →
  (p1 + 2 ≤ p2 ≤ p1 + 4)%nat ∧ ∀ k, (p1 ≤ k < p2)%nat → upper_at s k = true.
Proof.
  intros (n & Hlo & Hhi & Hp). apply power_range in Hp as [-> Hall].
  split; [lia|]. intros k Hk. destruct (Hall k Hk) as (c & Hc & Hr).
  by eapply upper_at_Some.
Qed.

Lemma group_1 l p1 p2 :
  group (mkMatch l (<[2 := (p1, p2)]> (<[1 := (0, p1)]> ∅))) 1
  = string_of_list_ascii (take p1 l).
Proof.
  unfold group. simpl. rewrite lookup_insert_ne by done.
  rewrite lookup_insert_eq. by rewrite Nat.sub_0_r.
Qed.

Lemma group_2 l p1 p2 :
  group (mkMatch l (<[2 := (p1, p2)]> (<[1 := (0, p1)]> ∅))) 2
  = string_of_list_ascii (take (p2 - p1) (drop p1 l)).
Proof. unfold group. simpl. by rewrite lookup_insert_eq. Qed.

Lemma standard_re_match (str : string) m :
  re_match standard_re str = Some m →
  ∃ p1 p2, splits_at (list_ascii_of_string str) m p1 p2
    ∧ at_eol (list_ascii_of_string str) p2 = true
    ∧ upper_at (list_ascii_of_string str) (p2 - 2) = true
    ∧ upper_at (list_ascii_of_string str) (p2 - 1) = true.
Proof.
  intros (st' & Hin & ->)%re_match_Some.
  apply exec_two_groups in Hin as (p1 & p2 & HA & HB & [_ HT] & Hcaps); [|done..].
  apply matches_player in HA.
  pose proof (matches_bounds _ _ _ _ HB) as Hb.
  apply matches_team in HB as [Hlen Hup].
  exists p1, p2. rewrite Hcaps. unfold splits_at.
  rewrite group_1, group_2.
  split_and!; try done; try lia; apply Hup; lia.
Qed.

End name_patterns.

Section name_splitter.
Import Re NBAScraper.

Lemma multi_team_re_match (str : string) m :
  re_match multi_team_re str = Some m →
  ∃ p1 p2, splits_at (list_ascii_of_string str) m p1 p2
    ∧ at_eol (list_ascii_of_string str) p2 = true.
Proof.
  intros (st' & Hin & ->)%re_match_Some.
  apply exec_two_groups in Hin as (p1 & p2 & HA & HB & [_ HT] & Hcaps); [|done..].
  apply matches_player in HA.
  pose proof (matches_bounds _ _ _ _ HB) as Hb.
  destruct HB as (k & Hteam & Hrest).
  pose proof (matches_bounds _ _ _ _ Hrest) as Hbr.
  pose proof (matches_bounds _ _ _ _ Hteam) as Hbt.
  apply matches_team in Hteam as [Hlen Hup].
  exists p1, p2. rewrite Hcaps. unfold splits_at.
  rewrite group_1, group_2.
  split_and!; try done; try lia; apply Hup; lia.
Qed.

Lemma fallback_re_match (str : string) m :
  re_match fallback_re str = Some m →
  ∃ p1 p2, splits_at (list_ascii_of_string str) m p1 p2.
Proof.
  intros (st' & Hin & ->)%re_match_Some.
  apply exec_two_groups_open in Hin as (p1 & HA & HB & Hcaps); [|done..].
  apply matches_player in HA.
  pose proof (matches_bounds _ _ _ _ HB) as Hb.
  apply matches_team in HB as [Hlen Hup].
  exists p1, (pos st'). rewrite Hcaps. unfold splits_at.
  rewrite group_1, group_2.
  split_and!; try done; try lia; apply Hup; lia.
Qed.

Lemma splits_at_inside (str : string) m p1 p2 :
  splits_at (list_ascii_of_string str) m p1 p2 → team_code_inside str = true.
Proof.
  intros (H1 & H2 & H3 & Hu1 & Hu2 & _). unfold team_code_inside.
  apply existsb_exists. exists p1. split.
  - apply in_seq. lia.
  - by rewrite Hu1, Hu2.
Qed.

(** The two groups of a match that reaches [$] make up the text, but for a
    final line feed. *)
Lemma splits_at_eol (str : string) m p1 p2 :
  splits_at (list_ascii_of_string str) m p1 p2 →
  at_eol (list_ascii_of_string str) p2 = true →
  String.append (group m 1) (group m 2) = str
  ∨ (ends_with_LF str = true
     ∧ String.append (group m 1) (String.append (group m 2) (String LF "")) = str).
Proof.
  intros (H1 & H2 & H3 & _ & _ & -> & ->) Heol.
  unfold ends_with_LF.
  set (l := list_ascii_of_string str) in *.
  assert (∀ x, x = string_of_list_ascii l → x = str) as Hfin
    by (intros x ->; apply string_of_list_ascii_of_string).
  unfold at_eol in Heol. apply orb_true_iff in Heol as [Hend|Hlf].
  - apply bool_decide_eq_true in Hend. left. apply Hfin.
    rewrite <-string_of_app, take_take_drop.
    replace (p1 + (p2 - p1)) with p2 by lia.
    by rewrite take_ge by lia.
  - apply andb_true_iff in Hlf as [Hlen Hlf].
    apply bool_decide_eq_true in Hlen. apply bool_decide_eq_true in Hlf.
    right. split.
    + apply bool_decide_eq_true. rewrite last_lookup.
      by replace (pred (length l)) with p2 by lia.
    + apply Hfin. change (String LF "") with (string_of_list_ascii [LF]).
      rewrite <-!string_of_app, app_assoc, take_take_drop.
      replace (p1 + (p2 - p1)) with p2 by lia.
      rewrite <-(take_S_r l p2 LF Hlf). by rewrite take_ge by lia.
Qed.

(** The player name of a fallback match and the rest of the text. *)
Lemma splits_at_slice (str : string) m p1 p2 :
  splits_at (list_ascii_of_string str) m p1 p2 →
  String.append (group m 1) (slice_from (String.length (group m 1)) str) = str.
Proof.
  intros (H1 & H2 & H3 & _ & _ & -> & _). unfold slice_from.
  rewrite string_length_of, length_take, <-string_of_app.
  replace (p1 `min` length (list_ascii_of_string str)) with p1 by lia.
  rewrite take_drop. apply string_of_list_ascii_of_string.
Qed.

Lemma splits_at_team_code (str : string) m p1 p2 :
  splits_at (list_ascii_of_string str) m p1 p2 →
  at_eol (list_ascii_of_string str) p2 = true →
  upper_at (list_ascii_of_string str) (p2 - 2) = true →
  upper_at (list_ascii_of_string str) (p2 - 1) = true →
  ends_with_LF str = true ∨ ends_in_team_code str = true.
Proof.
  intros (H1 & H2 & H3 & _) Heol Hu2 Hu1.
  unfold ends_with_LF, ends_in_team_code.
  set (l := list_ascii_of_string str) in *.
  unfold at_eol in Heol. apply orb_true_iff in Heol as [Hend|Hlf].
  - apply bool_decide_eq_true in Hend. right. rewrite <-Hend, Hu2, Hu1.
    rewrite bool_decide_eq_true_2 by lia. done.
  - apply andb_true_iff in Hlf as [Hlen Hlf].
    apply bool_decide_eq_true in Hlen. apply bool_decide_eq_true in Hlf.
    left. apply bool_decide_eq_true. rewrite last_lookup.
    by replace (pred (length l)) with p2 by lia.
Qed.

End name_splitter.

(** C9, as worded, fails on a text with a slash that is not a multi-team
    text: ["abCD/e"] does not end in uppercase letters and does not match
    the multi-team pattern, yet the fallback splits it after ["ab"]. *)
Lemma fallback_splits_inside_the_text : ¬ splitter_lossless.
Proof.
  intros H. specialize (H "abCD/e").
  vm_compute in H. destruct H as [_ H].
  specialize (H eq_refl eq_refl). discriminate H.
Qed.

(** C9, amended.  The splitter returns a pair on every text.  Player name
    and team put together are the text, or the text without its final line
    feed (the [$] of two patterns matches before one); on a text that does
    not end in a line feed they are the text.  A text without a slash that
    ends neither in a line feed nor in two uppercase letters comes back
    whole, with an empty team.  So does any text, with a slash or without,
    that has no two uppercase letters in a row after its first character. *)
Theorem name_and_team_split (name_text : string) :
  let player_name := (NBAScraper.extract_player_name_and_team name_text).1 in
  let team := (NBAScraper.extract_player_name_and_team name_text).2 in
  (String.append player_name team = name_text
   ∨ String.append player_name (String.append team (String Re.LF "")) = name_text)
  ∧ (ends_with_LF name_text = false → String.append player_name team = name_text)
  ∧ (NBAScraper.contains_slash name_text = false →
     ends_with_LF name_text = false → ends_in_team_code name_text = false →
     (player_name, team) = (name_text, ""))
  ∧ (team_code_inside name_text = false → (player_name, team) = (name_text, "")).
Proof.
  intros player_name team. subst player_name team.
  unfold NBAScraper.extract_player_name_and_team.
  destruct (NBAScraper.contains_slash name_text) eqn:Hslash.
  - destruct (Re.re_match NBAScraper.multi_team_re name_text) as [m|] eqn:Hm.
    { apply multi_team_re_match in Hm as (p1 & p2 & Hs & Heol). simpl.
      pose proof (splits_at_inside _ _ _ _ Hs) as Hin.
      destruct (splits_at_eol _ _ _ _ Hs Heol) as [Hcat|[Hlf Hcat]];
        split_and!; auto; congruence. }
    destruct (Re.re_match NBAScraper.fallback_re name_text) as [m|] eqn:Hf.
    { apply fallback_re_match in Hf as (p1 & p2 & Hs). simpl.
      pose proof (splits_at_inside _ _ _ _ Hs) as Hin.
      pose proof (splits_at_slice _ _ _ _ Hs) as Hcat.
      split_and!; auto; congruence. }
    simpl. rewrite string_append_nil_r. split_and!; auto.
  - destruct (Re.re_match NBAScraper.standard_re name_text) as [m|] eqn:Hm.
    { apply standard_re_match in Hm as (p1 & p2 & Hs & Heol & Hu2 & Hu1). simpl.
      pose proof (splits_at_inside _ _ _ _ Hs) as Hin.
      pose proof (splits_at_team_code _ _ _ _ Hs Heol Hu2 Hu1) as Hcode.
      destruct (splits_at_eol _ _ _ _ Hs Heol) as [Hcat|[Hlf Hcat]];
        split_and!; auto; try congruence; intros; destruct Hcode; congruence. }
    simpl. rewrite string_append_nil_r. split_and!; auto.
Qed.

Example name_and_team_split_samples :
  NBAScraper.extract_player_name_and_team "ray allenMIA" = ("ray allen", "MIA")
  ∧ NBAScraper.extract_player_name_and_team "De'Aaron FoxSAC/SA"
    = ("De'Aaron Fox", "SAC/SA")
  ∧ NBAScraper.extract_player_name_and_team "abCD/e" = ("ab", "CD/e")
  ∧ NBAScraper.extract_player_name_and_team (String.append "abMIA" (String Re.LF ""))
    = ("ab", "MIA")
  ∧ NBAScraper.extract_player_name_and_team "Nene" = ("Nene", "").
Proof. vm_compute. repeat split. Qed.

(** ** More on extraction *)

Section extraction_frames.
Implicit Types (df : DataFrame) (cols : list string) (r : gmap string value).

Lemma row_ok_project cols final r :
  row_ok cols r → final ⊆ cols → row_ok final (project final r).
Proof.
  intros Hr Hsub. apply row_ok_iff. intros c. rewrite lookup_project.
  case_decide as Hc.
  - split; [done|]. intros _. by apply (row_ok_lookup cols), Hsub.
  - split; [by intros [? ?]|done].
Qed.

Lemma desired_columns_NoDup : NoDup BartTorvikScraper.desired_columns.
Proof. compute_done. Qed.

Lemma final_columns_sub df :
  filter (λ col, col ∈ columns df) BartTorvikScraper.desired_columns ⊆ columns df.
Proof. by intros c [? _]%list_elem_of_filter. Qed.

Lemma extract_a_inv tables year df :
  BartTorvikScraper.extract tables year = Ok df →
  (2 ≤ length tables)%nat ∧ (2 ≤ length (tables !!! 1))%nat
  ∧ df = set_column "Year" (VInt year)
           {| columns := filter (λ col, col ∈ columns
                                   (Dict.to_frame (BartTorvikScraper.parse_rows
                                      (drop 1 (tables !!! 1)))))
                                BartTorvikScraper.desired_columns;
              rows := project
                        (filter (λ col, col ∈ columns
                                   (Dict.to_frame (BartTorvikScraper.parse_rows
                                      (drop 1 (tables !!! 1)))))
                                BartTorvikScraper.desired_columns)
                      <$> rows (Dict.to_frame (BartTorvikScraper.parse_rows
                                                 (drop 1 (tables !!! 1)))) |}.
Proof.
  intros H.
  destruct (decide (length tables < 2)%nat) as [Ht|Ht].
  { by rewrite extract_a_short_document in H. }
  destruct (decide (length (tables !!! 1) < 2)%nat) as [Hr|Hr].
  { rewrite extract_a_short_table in H by lia. done. }
  rewrite extract_a_ok in H by lia. injection H as <-. split_and!; [lia..|done].
Qed.

Lemma extract_a_wf tables year df :
  BartTorvikScraper.extract tables year = Ok df → wf df.
Proof.
  intros (_ & _ & ->)%extract_a_inv. apply wf_set_column. split; simpl.
  - apply NoDup_filter, desired_columns_NoDup.
  - apply Forall_fmap. destruct (to_frame_wf
      (BartTorvikScraper.parse_rows (drop 1 (tables !!! 1)))) as [_ Hrs].
    eapply Forall_impl; [exact Hrs|]. intros r Hr. simpl.
    eapply row_ok_project; [exact Hr|].
    intros c [Hc _]%list_elem_of_filter. exact Hc.
Qed.

Lemma set_column_stamp c v df r :
  r ∈ rows (set_column c v df) → r !! c = Some v.
Proof.
  unfold set_column. simpl. intros (r0 & -> & _)%list_elem_of_fmap.
  apply lookup_insert_eq.
Qed.

Lemma set_column_has c v df : c ∈ columns (set_column c v df).
Proof.
  unfold set_column. simpl. case_decide; [done|]. apply elem_of_app. right. left.
Qed.

End extraction_frames.

(** X1. Whatever the document, a frame that source A's or source B's
    extraction returns is a frame (distinct labels, a cell for every label
    in every row) that has a [Year] column, and every record of it carries
    the year of the call, also when a stats header of source B is itself
    called [Year]. *)
Theorem extracted_records_carry_the_year
    (tables_a : list (list (list string))) (tables_b : list NBAScraper.table)
    (year : Z) (df_a df_b : DataFrame) :
  BartTorvikScraper.extract tables_a year = Ok df_a →
  NBAScraper.extract tables_b year = Ok df_b →
  (wf df_a ∧ "Year" ∈ columns df_a
   ∧ ∀ r, r ∈ rows df_a → r !! "Year" = Some (VInt year))
  ∧ (wf df_b ∧ "Year" ∈ columns df_b
     ∧ ∀ r, r ∈ rows df_b → r !! "Year" = Some (VInt year)).
Proof.
  intros Ha Hb. split.
  - split; [by eapply extract_a_wf|].
    apply extract_a_inv in Ha as (_ & _ & ->).
    split; [apply set_column_has|]. intros r. apply set_column_stamp.
  - pose proof (extract_b_frame _ _ _ Hb) as (Hwf & HY & _).
    split_and!; [done..|].
    apply extract_b_inv in Hb as (? & ? & ? & ? & _ & _ & ->).
    intros r. apply set_column_stamp.
Qed.

Lemma extracted_records_carry_the_year_witness :
  (wf torvik_frame_2021 ∧ "Year" ∈ columns torvik_frame_2021
   ∧ ∀ r, r ∈ rows torvik_frame_2021 → r !! "Year" = Some (VInt 2021))
  ∧ (wf nba_frame_2021 ∧ "Year" ∈ columns nba_frame_2021
     ∧ ∀ r, r ∈ rows nba_frame_2021 → r !! "Year" = Some (VInt 2021)).
Proof.
  apply (extracted_records_carry_the_year torvik_document nba_document 2021).
  - vm_compute. reflexivity.
  - vm_compute. reflexivity.
Defined.

(** ** Source A: the labels and the nulls of an extracted frame *)

Section extract_a_columns.
Import BartTorvikScraper.

(** Every whitelisted field has its position in the documented layout, and
    only these have one. *)
Lemma desired_columns_layout field :
  field ∈ desired_columns ↔ ∃ pos, (pos, field) ∈ documented_layout.
Proof.
  assert (Forall (λ f, f ∈ documented_layout.*2) desired_columns) as H1
    by compute_done.
  assert (Forall (λ f, f ∈ desired_columns) documented_layout.*2) as H2
    by compute_done.
  rewrite Forall_forall in H1. rewrite Forall_forall in H2. split.
  - intros [[pos f] [-> Hin]]%H1%list_elem_of_fmap. by exists pos.
  - intros [pos Hin]. apply H2, list_elem_of_fmap. by exists (pos, field).
Qed.

Lemma layout_functional pos pos' field :
  (pos, field) ∈ documented_layout → (pos', field) ∈ documented_layout →
  pos = pos'.
Proof.
  assert (Forall (λ p, Forall (λ q, p.2 = q.2 → p.1 = q.1) documented_layout)
                 documented_layout) as H by compute_done.
  rewrite Forall_forall in H. intros Hp Hq. specialize (H _ Hp).
  rewrite Forall_forall in H. by apply (H _ Hq).
Qed.

Lemma parse_row_key (cells : tr) field :
  field ∈ Dict.keys (parse_row cells)
  ↔ ∃ pos, (pos, field) ∈ documented_layout ∧ (pos < length cells)%nat.
Proof.
  rewrite <-dict_get_keys. split.
  - intros Hget. assert (field ∈ desired_columns) as Hd.
    { apply (parse_row_keys cells). by apply dict_get_keys. }
    apply desired_columns_layout in Hd as [pos Hpos]. exists pos. split; [done|].
    rewrite (parse_row_layout _ _ _ Hpos) in Hget.
    apply fmap_is_Some in Hget. by apply lookup_lt_is_Some.
  - intros (pos & Hpos & Hlt). rewrite (parse_row_layout _ _ _ Hpos).
    apply fmap_is_Some. by apply lookup_lt_is_Some.
Qed.

Lemma parse_rows_kept tables :
  parse_rows (drop 1 (tables !!! 1)) = parse_row <$> kept_rows_a tables.
Proof. apply parse_rows_filter. Qed.

Lemma extracted_label tables field :
  field ∈ columns (Dict.to_frame (parse_rows (drop 1 (tables !!! 1))))
  ↔ ∃ cells pos, cells ∈ kept_rows_a tables
       ∧ (pos, field) ∈ documented_layout ∧ (pos < length cells)%nat.
Proof.
  rewrite to_frame_columns, parse_rows_kept. split.
  - intros (d & (cells & -> & Hin)%list_elem_of_fmap & Hk).
    apply parse_row_key in Hk as (pos & ? & ?). by exists cells, pos.
  - intros (cells & pos & Hin & Hpos & Hlt). exists (parse_row cells). split.
    + apply list_elem_of_fmap. by exists cells.
    + apply parse_row_key. by exists pos.
Qed.

Lemma Year_not_desired : "Year" ∉ desired_columns.
Proof. compute_done. Qed.

Lemma set_column_new c v cols rs :
  c ∉ cols →
  set_column c v {| columns := cols; rows := rs |}
  = {| columns := cols ++ [c]; rows := (λ r, <[c := v]> r) <$> rs |}.
Proof. intros H. unfold set_column. simpl. by rewrite decide_False. Qed.

Lemma extract_a_frame tables year df :
  extract tables year = Ok df →
  let cols := columns (Dict.to_frame (parse_rows (drop 1 (tables !!! 1)))) in
  let final := filter (λ col, col ∈ cols) desired_columns in
  df = {| columns := final ++ ["Year"];
          rows := (λ cells, <["Year" := VInt year]>
                     (project final (fill_row cols (list_to_map (parse_row cells)))))
                  <$> kept_rows_a tables |}.
Proof.
  intros (_ & _ & ->)%extract_a_inv. intros cols final. subst final cols.
  rewrite set_column_new.
  - f_equal. rewrite to_frame_rows, !parse_rows_kept.
    by rewrite <-!list_fmap_compose.
  - intros [_ H]%list_elem_of_filter. by apply Year_not_desired.
Qed.

End extract_a_columns.

(** X2. The labels of a frame source A extracts are the whitelisted fields
    that some kept data row is wide enough for, in whitelist order, then
    [Year]; there is one record for every kept row.  A document whose player
    table has no data row of 20 cells is not refused: the frame has the
    label [Year] alone and no record.  With a kept row the first eleven
    whitelisted fields are labels, and with a kept row of 44 cells all 22. *)
Theorem source_a_extracted_labels
    (tables : list (list (list string))) (year : Z) (df : DataFrame) :
  BartTorvikScraper.extract tables year = Ok df →
  ∃ final,
    columns df = final ++ ["Year"]
    ∧ final `sublist_of` BartTorvikScraper.desired_columns
    ∧ (∀ field, field ∈ final ↔
         ∃ cells pos, cells ∈ kept_rows_a tables
           ∧ (pos, field) ∈ documented_layout ∧ (pos < length cells)%nat)
    ∧ length (rows df) = length (kept_rows_a tables)
    ∧ (kept_rows_a tables = [] → df = {| columns := ["Year"]; rows := [] |})
    ∧ (kept_rows_a tables ≠ [] →
         ∃ more, final = ["Rk"; "Player"; "Class"; "Team"; "Conf"; "Min%";
                          "PRPG!"; "BPM"; "ORtg"; "Usg"; "eFG"] ++ more)
    ∧ (∀ cells, cells ∈ kept_rows_a tables → (44 ≤ length cells)%nat →
         final = BartTorvikScraper.desired_columns).
Proof.
  intros Hdf. pose proof (extract_a_frame _ _ _ Hdf) as Hfr. cbn zeta in Hfr.
  set (cols := columns (Dict.to_frame _)) in Hfr.
  assert (∀ field, field ∈ cols ↔
            ∃ cells pos, cells ∈ kept_rows_a tables
              ∧ (pos, field) ∈ documented_layout ∧ (pos < length cells)%nat) as Hcols.
  { intros field. apply extracted_label. }
  clearbody cols.
  set (final := filter (λ col, col ∈ cols) BartTorvikScraper.desired_columns) in *.
  assert (∀ field, field ∈ final ↔ field ∈ cols) as Hfinal.
  { intros field. unfold final. rewrite list_elem_of_filter.
    split; [by intros [? _]|]. intros H. split; [done|].
    apply Hcols in H as (_ & pos & _ & Hpos & _).
    apply desired_columns_layout. eauto. }
  exists final. split_and!.
  - by rewrite Hfr.
  - apply sublist_filter.
  - intros field. by rewrite Hfinal.
  - rewrite Hfr. cbn [rows]. by rewrite length_fmap.
  - intros Hk. rewrite Hfr, Hk. destruct final as [|f l]; [done|].
    assert (f ∈ f :: l) as (cells & _ & Hin & _)%Hfinal%Hcols by left.
    rewrite Hk in Hin. by apply elem_of_nil in Hin.
  - intros Hk. destruct (kept_rows_a tables) as [|cells kept] eqn:E; [done|].
    assert (20 ≤ length cells)%nat as Hlen.
    { assert (cells ∈ kept_rows_a tables) as Hin by (rewrite E; left).
      by apply list_elem_of_filter in Hin as [? _]. }
    exists (filter (λ col, col ∈ cols)
              (drop 11 BartTorvikScraper.desired_columns)).
    unfold final.
    rewrite <-(take_drop 11 BartTorvikScraper.desired_columns) at 1.
    rewrite filter_app. f_equal. apply filter_all. intros f Hf.
    assert (Forall (λ f, Exists (λ p, p.2 = f ∧ p.1 < 20)%nat documented_layout)
              (take 11 BartTorvikScraper.desired_columns)) as Hlow by compute_done.
    rewrite Forall_forall in Hlow. apply Hlow in Hf.
    apply Exists_exists in Hf as ([pos f'] & Hpos & Hf' & Hlt). simpl in *. subst f'.
    apply Hcols. exists cells, pos. split_and!; [left|done|lia].
  - intros cells Hin Hlen. apply filter_all. intros f Hf.
    apply desired_columns_layout in Hf as [pos Hpos].
    assert (Forall (λ p, p.1 < 44)%nat documented_layout) as Hall by compute_done.
    rewrite Forall_forall in Hall. specialize (Hall _ Hpos). simpl in Hall.
    apply Hcols. exists cells, pos. split_and!; [done..|lia].
Qed.

Lemma source_a_extracted_labels_witness :
  ∃ final,
    columns torvik_frame_2021 = final ++ ["Year"]
    ∧ final `sublist_of` BartTorvikScraper.desired_columns
    ∧ (∀ field, field ∈ final ↔
         ∃ cells pos, cells ∈ kept_rows_a torvik_document
           ∧ (pos, field) ∈ documented_layout ∧ (pos < length cells)%nat)
    ∧ length (rows torvik_frame_2021) = length (kept_rows_a torvik_document)
    ∧ (kept_rows_a torvik_document = [] →
         torvik_frame_2021 = {| columns := ["Year"]; rows := [] |})
    ∧ (kept_rows_a torvik_document ≠ [] →
         ∃ more, final = ["Rk"; "Player"; "Class"; "Team"; "Conf"; "Min%";
                          "PRPG!"; "BPM"; "ORtg"; "Usg"; "eFG"] ++ more)
    ∧ (∀ cells, cells ∈ kept_rows_a torvik_document → (44 ≤ length cells)%nat →
         final = BartTorvikScraper.desired_columns).
Proof.
  apply (source_a_extracted_labels torvik_document 2021).
  vm_compute. reflexivity.
Defined.

(** X3. In a frame source A extracts, a record of a data row that is too
    short for a field of the layout has a null under that field when the
    field is a label of the frame (another kept row is wide enough for it),
    and no cell under it otherwise. *)
Theorem source_a_short_rows_get_nulls
    (tables : list (list (list string))) (year : Z) (df : DataFrame) :
  BartTorvikScraper.extract tables year = Ok df →
  Forall2
    (λ (cells : list string) (r : gmap string value),
       ∀ pos field,
         (pos, field) ∈ documented_layout → (length cells ≤ pos)%nat →
         r !! field = if decide (field ∈ columns df) then Some VNull else None)
    (kept_rows_a tables) (rows df).
Proof.
  intros Hdf. pose proof (extract_a_frame _ _ _ Hdf) as Hfr. cbn zeta in Hfr.
  set (cols := columns (Dict.to_frame _)) in Hfr. clearbody cols.
  set (final := filter (λ col, col ∈ cols) BartTorvikScraper.desired_columns) in *.
  rewrite Hfr. cbn [rows columns].
  apply Forall2_fmap_r, Forall_Forall2_diag, Forall_forall.
  intros cells _ pos field Hpos Hlen.
  assert (field ∈ BartTorvikScraper.desired_columns) as Hdes
    by (apply desired_columns_layout; eauto).
  assert (field ≠ "Year") as Hne.
  { intros ->. by apply Year_not_desired. }
  rewrite lookup_insert_ne by done.
  rewrite lookup_project, lookup_fill_row, dict_get_to_map.
  rewrite (parse_row_layout _ _ _ Hpos), (lookup_ge_None_2 _ _ Hlen). cbn [fmap option_fmap option_map].
  assert (field ∈ final ↔ field ∈ cols) as Hfin.
  { unfold final. rewrite list_elem_of_filter. tauto. }
  assert (field ∈ final ++ ["Year"] ↔ field ∈ cols) as Happ.
  { rewrite elem_of_app, list_elem_of_singleton. tauto. }
  repeat case_decide; tauto.
Qed.

Lemma source_a_short_rows_get_nulls_witness :
  Forall2
    (λ (cells : list string) (r : gmap string value),
       ∀ pos field,
         (pos, field) ∈ documented_layout → (length cells ≤ pos)%nat →
         r !! field = if decide (field ∈ columns torvik_frame_short_row)
                      then Some VNull else None)
    (kept_rows_a torvik_document_short_row) (rows torvik_frame_short_row)
  ∧ ∃ cells r,
      kept_rows_a torvik_document_short_row !! 0%nat = Some cells
      ∧ rows torvik_frame_short_row !! 0%nat = Some r
      ∧ (20, "TS") ∈ documented_layout ∧ (length cells ≤ 20)%nat
      ∧ r !! "TS" = Some VNull.
Proof.
  assert (Forall2
    (λ (cells : list string) (r : gmap string value),
       ∀ pos field,
         (pos, field) ∈ documented_layout → (length cells ≤ pos)%nat →
         r !! field = if decide (field ∈ columns torvik_frame_short_row)
                      then Some VNull else None)
    (kept_rows_a torvik_document_short_row) (rows torvik_frame_short_row)) as H.
  { apply (source_a_short_rows_get_nulls torvik_document_short_row 2021).
    vm_compute. reflexivity. }
  split; [exact H|].
  assert (kept_rows_a torvik_document_short_row !! 0%nat
          = Some (take 20 player_row)) as Hc by (vm_compute; reflexivity).
  destruct (Forall2_lookup_l _ _ _ _ _ H Hc) as (r & Hr & Hnull).
  assert ((20, "TS") ∈ documented_layout) as Hpos
    by (apply (bool_decide_unpack _); vm_compute; reflexivity).
  assert (length (take 20 player_row) ≤ 20)%nat as Hlen
    by (vm_compute; repeat constructor).
  exists (take 20 player_row), r.
  split; [exact Hc|]. split; [exact Hr|]. split; [exact Hpos|].
  split; [exact Hlen|].
  rewrite (Hnull 20%nat "TS" Hpos Hlen). vm_compute. reflexivity.
Defined.

(** The records of [torvik_document_short_row] under a field the short row
    does not reach, and under one it reaches. *)
Example short_row_sample :
  (λ r : gmap string value, (r !! "eFG", r !! "TS"))
    <$> rows torvik_frame_short_row
  = [ (Some (VStr "62.4"), Some VNull);
      (Some (VStr "62.4"), Some (VStr "67.1")) ].
Proof. vm_compute. reflexivity. Qed.

(** ** Source B: the positional join and the labels of an extracted frame *)

Section extract_b_join.
Import NBAScraper.
Implicit Types (d : Dict.dict) (k header : string) (cells headers : list string).

Lemma parse_rows_b_pairs headers name_rows stats_rows :
  parse_rows headers name_rows stats_rows
  = build_record headers <$> kept_pairs_b headers name_rows stats_rows.
Proof.
  unfold kept_pairs_b.
  revert stats_rows. induction name_rows as [|n ns IH]; intros [|s ss]; try done.
  cbn [parse_rows zip zip_with]. rewrite filter_cons. cbn [fst snd].
  destruct (decide (length n < 2)%nat) as [Hn|Hn].
  { rewrite decide_False by lia. apply IH. }
  destruct (extract_player_name_and_team (strip (n !!! 1))) as [player team] eqn:E.
  destruct (decide (length s < length headers)%nat) as [Hs|Hs].
  { rewrite decide_False by lia. apply IH. }
  rewrite decide_True by lia. rewrite fmap_cons. f_equal; [|apply IH].
  unfold build_record. cbn [fst snd]. by rewrite E.
Qed.

Lemma get_add_stats_other j headers cells d k :
  k ∉ headers → Dict.get k (add_stats j headers cells d) = Dict.get k d.
Proof.
  revert j d. induction headers as [|h hs IH]; intros j d Hk; [done|].
  apply not_elem_of_cons in Hk as [Hne Hk]. cbn [add_stats].
  rewrite IH by done. destruct (decide (j < length cells)%nat); [|done].
  rewrite dict_get_set. by rewrite decide_False.
Qed.

(** The last header of a name wins. *)
Lemma get_add_stats_last j headers cells d i k text :
  headers !! i = Some k → (∀ i', (i < i')%nat → headers !! i' ≠ Some k) →
  cells !! (j + i) = Some text →
  Dict.get k (add_stats j headers cells d) = Some (VStr (strip text)).
Proof.
  revert j d i. induction headers as [|h hs IH]; intros j d i Hi Hlast Hcell; [done|].
  cbn [add_stats]. destruct i as [|i].
  - injection Hi as ->. rewrite get_add_stats_other.
    + rewrite Nat.add_0_r in Hcell. rewrite decide_True by by eapply lookup_lt_Some.
      rewrite dict_get_set, decide_True by done.
      by rewrite (list_lookup_total_correct _ _ _ Hcell).
    + intros [i' Hi']%list_elem_of_lookup. apply (Hlast (Datatypes.S i')); [lia|done].
  - apply (IH _ _ i); [done| |].
    + intros i' Hlt. apply (Hlast (Datatypes.S i')). lia.
    + by replace (j + 1 + i)%nat with (j + Datatypes.S i)%nat by lia.
Qed.

Lemma dict_keys_set k v d :
  Dict.keys (Dict.set k v d)
  = if decide (k ∈ Dict.keys d) then Dict.keys d else Dict.keys d ++ [k].
Proof.
  induction d as [|[k' v'] d IH]; [done|]. cbn [Dict.set].
  destruct (decide (k = k')) as [->|Hne].
  - unfold Dict.keys. cbn. rewrite decide_True; [done|left].
  - unfold Dict.keys in *. cbn [fmap list_fmap fst]. rewrite IH.
    destruct (decide (k ∈ fst <$> d)) as [Hin|Hin].
    + rewrite decide_True; [done|by right].
    + rewrite decide_False; [done|]. by intros [?|?]%elem_of_cons.
Qed.

Lemma add_stats_keys_foldl j headers cells d :
  (j + length headers ≤ length cells)%nat →
  Dict.keys (add_stats j headers cells d)
  = foldl (λ acc k, if decide (k ∈ acc) then acc else acc ++ [k])
          (Dict.keys d) headers.
Proof.
  revert j d. induction headers as [|h hs IH]; intros j d Hlen; [done|].
  cbn [add_stats foldl length] in *. rewrite decide_True by lia.
  rewrite IH by lia. by rewrite dict_keys_set.
Qed.

Lemma first_seen_app (l l' : list string) :
  Dict.first_seen (l ++ l')
  = foldl (λ acc k, if decide (k ∈ acc) then acc else acc ++ [k])
          (Dict.first_seen l) l'.
Proof. unfold Dict.first_seen. by rewrite foldl_app. Qed.

Lemma foldl_seen_sub (acc ks : list string) :
  ks ⊆ acc →
  foldl (λ acc k, if decide (k ∈ acc) then acc else acc ++ [k]) acc ks = acc.
Proof.
  induction ks as [|k ks IH]; intros Hs; [done|]. cbn [foldl].
  rewrite decide_True by (apply Hs; left). apply IH.
  intros x Hx. apply Hs. by right.
Qed.

Lemma foldl_seen_NoDup (acc ks : list string) :
  NoDup ks → (∀ k, k ∈ ks → k ∉ acc) →
  foldl (λ acc k, if decide (k ∈ acc) then acc else acc ++ [k]) acc ks = acc ++ ks.
Proof.
  revert acc. induction ks as [|k ks IH]; intros acc Hnd Hdis.
  { by rewrite app_nil_r. }
  apply NoDup_cons in Hnd as [Hk Hnd]. cbn [foldl].
  rewrite decide_False by (apply Hdis; left).
  rewrite IH; [by rewrite <-app_assoc|done|].
  intros x Hx [Hin|Heq%list_elem_of_singleton]%elem_of_app; [|by subst].
  by apply (Hdis x); [right|].
Qed.

Lemma first_seen_id (ks : list string) : NoDup ks → Dict.first_seen ks = ks.
Proof.
  intros H. unfold Dict.first_seen. rewrite foldl_seen_NoDup; [done..|].
  intros k _. apply not_elem_of_nil.
Qed.

(** Records with the same keys: the labels of the frame are these keys. *)
Lemma to_frame_same_keys (data : list Dict.dict) (K : list string) :
  data ≠ [] → NoDup K → (∀ d, d ∈ data → Dict.keys d = K) →
  columns (Dict.to_frame data) = K.
Proof.
  intros Hne Hnd Hall. destruct data as [|d data]; [done|].
  cbn [Dict.to_frame columns fmap list_fmap mjoin list_join].
  rewrite first_seen_app, (Hall d) by left. rewrite first_seen_id by done.
  apply foldl_seen_sub. intros k (ks & Hk & Hks)%list_elem_of_join.
  apply list_elem_of_fmap in Hks as (d' & -> & Hd').
  rewrite (Hall d') in Hk by by right. done.
Qed.

End extract_b_join.

Section extract_b_records.
Import NBAScraper.

Lemma build_record_keys headers p :
  (length headers ≤ length p.2)%nat →
  Dict.keys (build_record headers p)
  = Dict.first_seen (["RK"; "Player"; "Team"] ++ headers).
Proof.
  intros Hlen. unfold build_record. rewrite add_stats_keys_foldl by (simpl; lia).
  rewrite first_seen_app. reflexivity.
Qed.

Lemma extract_b_rows tables year df :
  extract tables year = Ok df →
  ∃ name_table stats_table rest header_cells,
    tables = name_table :: stats_table :: rest
    ∧ thead stats_table = Some header_cells
    ∧ let headers := strip <$> header_cells in
      let pairs := kept_pairs_b headers (tbody name_table) (tbody stats_table) in
      let frame := Dict.to_frame (build_record headers <$> pairs) in
      df = set_column "Year" (VInt year) frame
      ∧ rows df
        = (λ p, <["Year" := VInt year]>
                  (fill_row (columns frame) (list_to_map (build_record headers p))))
          <$> pairs.
Proof.
  intros (name_table & stats_table & rest & header_cells & -> & Hh & ->)%extract_b_inv.
  exists name_table, stats_table, rest, header_cells. split_and!; [done..|].
  intros headers pairs frame. rewrite parse_rows_b_pairs. fold headers pairs frame.
  split; [done|]. unfold set_column. cbn [rows]. unfold frame at 1.
  rewrite to_frame_rows. fold frame. by rewrite <-!list_fmap_compose.
Qed.

End extract_b_records.

(** X4. The records of a frame source B extracts are, in order, the pairs
    of a name row and a stats row at the same position that have at least
    two name cells and a stats cell for every header; rows past the shorter
    table are dropped.  A record holds the stripped first name cell under
    [RK] and the two parts of the stripped second name cell under [Player]
    and [Team], unless a stats header has that name; under every header
    other than [Year] the stripped stats cell at the position of its last
    occurrence; and the year of the call under [Year]. *)
Theorem source_b_positional_join
    (tables : list NBAScraper.table) (year : Z) (df : DataFrame) :
  NBAScraper.extract tables year = Ok df →
  ∃ name_table stats_table rest header_cells,
    tables = name_table :: stats_table :: rest
    ∧ NBAScraper.thead stats_table = Some header_cells
    ∧ let headers := strip <$> header_cells in
      Forall2
        (λ (p : list string * list string) (r : gmap string value),
           (∀ rk name_text,
              p.1 !! 0 = Some rk → p.1 !! 1 = Some name_text →
              let split := NBAScraper.extract_player_name_and_team (strip name_text) in
              ("RK" ∉ headers → r !! "RK" = Some (VStr (strip rk)))
              ∧ ("Player" ∉ headers → r !! "Player" = Some (VStr split.1))
              ∧ ("Team" ∉ headers → r !! "Team" = Some (VStr split.2)))
           ∧ (∀ j header text,
                headers !! j = Some header → header ≠ "Year" →
                (∀ j', (j < j')%nat → headers !! j' ≠ Some header) →
                p.2 !! j = Some text →
                r !! header = Some (VStr (strip text)))
           ∧ r !! "Year" = Some (VInt year))
        (kept_pairs_b headers (NBAScraper.tbody name_table)
                      (NBAScraper.tbody stats_table))
        (rows df).
Proof.
  intros (name_table & stats_table & rest & header_cells & -> & Hh & H)%extract_b_rows.
  exists name_table, stats_table, rest, header_cells. split_and!; [done..|].
  cbn zeta in *. destruct H as [_ ->].
  set (headers := strip <$> header_cells). set (cols := columns _). clearbody cols.
  apply Forall2_fmap_r, Forall_Forall2_diag, Forall_forall.
  intros [n s] _. cbn [fst snd]. split_and!.
  - intros rk name_text Hrk Hname. cbn zeta.
    split_and!; intros Hk;
      (rewrite lookup_insert_ne by done;
       rewrite lookup_fill_row, dict_get_to_map; unfold build_record;
       rewrite get_add_stats_other by done; cbn [fst snd];
       rewrite (list_lookup_total_correct _ _ _ Hrk),
         (list_lookup_total_correct _ _ _ Hname); reflexivity).
  - intros j header text Hj Hne Hlast Hcell.
    rewrite lookup_insert_ne by done.
    rewrite lookup_fill_row, dict_get_to_map. unfold build_record.
    by rewrite (get_add_stats_last 0 _ _ _ j header text).
  - apply lookup_insert_eq.
Qed.

Lemma source_b_positional_join_witness :
  ∃ name_table stats_table rest header_cells,
    nba_document = name_table :: stats_table :: rest
    ∧ NBAScraper.thead stats_table = Some header_cells
    ∧ let headers := strip <$> header_cells in
      Forall2
        (λ (p : list string * list string) (r : gmap string value),
           (∀ rk name_text,
              p.1 !! 0 = Some rk → p.1 !! 1 = Some name_text →
              let split := NBAScraper.extract_player_name_and_team (strip name_text) in
              ("RK" ∉ headers → r !! "RK" = Some (VStr (strip rk)))
              ∧ ("Player" ∉ headers → r !! "Player" = Some (VStr split.1))
              ∧ ("Team" ∉ headers → r !! "Team" = Some (VStr split.2)))
           ∧ (∀ j header text,
                headers !! j = Some header → header ≠ "Year" →
                (∀ j', (j < j')%nat → headers !! j' ≠ Some header) →
                p.2 !! j = Some text →
                r !! header = Some (VStr (strip text)))
           ∧ r !! "Year" = Some (VInt 2021))
        (kept_pairs_b headers (NBAScraper.tbody name_table)
                      (NBAScraper.tbody stats_table))
        (rows nba_frame_2021).
Proof.
  apply (source_b_positional_join nba_document 2021).
  vm_compute. reflexivity.
Defined.

(** X5. A frame source B extracts has one record for every kept pair of
    rows.  With a record, its labels are [RK], [Player], [Team], the stats
    headers and [Year], each once at its first appearance: a header that
    repeats one of these adds no label, and a header [Year] keeps the year
    from being last.  When the headers are distinct and none of the four,
    the labels are the three, the headers, and [Year], in this order.
    Without a kept pair the frame has the label [Year] alone. *)
Theorem source_b_extracted_labels
    (tables : list NBAScraper.table) (year : Z) (df : DataFrame) :
  NBAScraper.extract tables year = Ok df →
  ∃ name_table stats_table rest header_cells,
    tables = name_table :: stats_table :: rest
    ∧ NBAScraper.thead stats_table = Some header_cells
    ∧ let headers := strip <$> header_cells in
      let pairs := kept_pairs_b headers (NBAScraper.tbody name_table)
                                (NBAScraper.tbody stats_table) in
      length (rows df) = length pairs
      ∧ (pairs = [] → df = {| columns := ["Year"]; rows := [] |})
      ∧ (pairs ≠ [] →
           columns df
           = Dict.first_seen (["RK"; "Player"; "Team"] ++ headers ++ ["Year"]))
      ∧ (pairs ≠ [] → NoDup headers →
           (∀ header, header ∈ headers →
                      header ∉ ["RK"; "Player"; "Team"; "Year"]) →
           columns df = ["RK"; "Player"; "Team"] ++ headers ++ ["Year"]).
Proof.
  intros (name_table & stats_table & rest & header_cells & -> & Hh & H)%extract_b_rows.
  exists name_table, stats_table, rest, header_cells. split_and!; [done..|].
  cbn zeta in *. destruct H as [Hdf Hrows].
  set (headers := strip <$> header_cells) in *.
  set (pairs := kept_pairs_b _ _ _) in *.
  assert (pairs ≠ [] →
          columns df
          = Dict.first_seen (["RK"; "Player"; "Team"] ++ headers ++ ["Year"])) as Hcols.
  { intros Hne. rewrite Hdf. unfold set_column. cbn [columns].
    rewrite (to_frame_same_keys _
               (Dict.first_seen (["RK"; "Player"; "Team"] ++ headers))).
    - rewrite (app_assoc _ headers), (first_seen_app _ ["Year"]). reflexivity.
    - by intros ?%fmap_nil_inv.
    - apply first_seen_NoDup.
    - intros d (p & -> & Hp)%list_elem_of_fmap. apply build_record_keys.
      by apply list_elem_of_filter in Hp as [[_ ?] _]. }
  split_and!.
  - by rewrite Hrows, length_fmap.
  - intros Hnil. rewrite Hdf, Hnil. reflexivity.
  - exact Hcols.
  - intros Hne Hnd Hnone. rewrite Hcols by done. apply first_seen_id.
    apply NoDup_app. split_and!.
    + compute_done.
    + intros x Hx [Hin|Hin%list_elem_of_singleton]%elem_of_app.
      * apply (Hnone x Hin). set_solver.
      * subst x. revert Hx. compute_done.
    + apply NoDup_app. split_and!; [done| |apply NoDup_singleton].
      intros x Hx ->%list_elem_of_singleton. apply (Hnone _ Hx). set_solver.
Qed.

Lemma source_b_extracted_labels_witness :
  ∃ name_table stats_table rest header_cells,
    nba_document = name_table :: stats_table :: rest
    ∧ NBAScraper.thead stats_table = Some header_cells
    ∧ let headers := strip <$> header_cells in
      let pairs := kept_pairs_b headers (NBAScraper.tbody name_table)
                                (NBAScraper.tbody stats_table) in
      length (rows nba_frame_2021) = length pairs
      ∧ (pairs = [] → nba_frame_2021 = {| columns := ["Year"]; rows := [] |})
      ∧ (pairs ≠ [] →
           columns nba_frame_2021
           = Dict.first_seen (["RK"; "Player"; "Team"] ++ headers ++ ["Year"]))
      ∧ (pairs ≠ [] → NoDup headers →
           (∀ header, header ∈ headers →
                      header ∉ ["RK"; "Player"; "Team"; "Year"]) →
           columns nba_frame_2021 = ["RK"; "Player"; "Team"] ++ headers ++ ["Year"]).
Proof.
  apply (source_b_extracted_labels nba_document 2021).
  vm_compute. reflexivity.
Defined.

(** ** The merge: what is dropped, what is kept, the first write *)

Section merge_rows.
Implicit Types (df e sheet : DataFrame) (cols : list string) (y : value).

Lemma filter_fmap_comm {A B} (f : A → B) (P : B → Prop) `{∀ x, Decision (P x)}
    (l : list A) :
  filter P (f <$> l) = f <$> filter (λ x, P (f x)) l.
Proof.
  induction l as [|x l IH]; [done|]. rewrite fmap_cons, !filter_cons.
  destruct (decide (P (f x))); by rewrite IH.
Qed.

(** What a merge under labels that include [Year] keeps of the loaded
    sheet: all rows when the first new record gives no year, else the rows
    whose [Year] is not that year. *)
Lemma kept_rows cols e df :
  "Year" ∈ cols →
  kept cols e df
  = norm cols <$>
      match year_to_append df with
      | VNull => rows e
      | y => filter (λ r, cell "Year" r ≠ y) (rows e)
      end.
Proof.
  intros HY. unfold kept.
  destruct (year_to_append df) as [|s|z] eqn:Ey; [done|..];
    rewrite filter_fmap_comm; f_equal; apply list_filter_iff; intros r;
    rewrite cell_norm by done; by apply value_ne_spec.
Qed.

Lemma year_to_append_has_Year df :
  wf df → year_to_append df ≠ VNull → "Year" ∈ columns df.
Proof.
  intros Hwf Hy. destruct (decide ("Year" ∈ columns df)) as [|Hout]; [done|].
  by rewrite year_to_append_absent in Hy.
Qed.

Lemma merged_rows cols store e df :
  load store = Some e → ("Year" ∉ cols → year_to_append df = VNull) →
  rows (merged cols store df)
  = (norm cols <$>
       match year_to_append df with
       | VNull => rows e
       | y => filter (λ r, cell "Year" r ≠ y) (rows e)
       end) ++ (norm cols <$> rows df).
Proof.
  intros Hl HY. unfold merged. cbn [rows]. rewrite Hl. f_equal.
  destruct (decide ("Year" ∈ cols)) as [Hin|Hout]; [by apply kept_rows|].
  rewrite (HY Hout). by apply kept_null, HY.
Qed.

Lemma cols_b_Year store df :
  wf df → year_to_append df ≠ VNull → "Year" ∈ cols_b store df.
Proof.
  intros Hwf Hy. apply cols_b_elem. left. by apply year_to_append_has_Year.
Qed.

End merge_rows.

(** X6. When a sheet is loaded, the rows of the sheet a merge writes are the
    loaded rows that are kept, in their order, followed by the new records,
    all brought to the labels of the written sheet, and nothing else.  What
    is kept is decided by the [Year] of the first new record alone: without
    one (no record, or a null) every loaded row is kept; with one, the
    loaded rows whose [Year] is another value or missing.  Source B merges
    like this when the new frame is not empty. *)
Theorem merge_rows_exactly (store : option DataFrame) (e df sheet : DataFrame) :
  wf df → store_wf store → load store = Some e →
  writes (BartTorvikScraper.append_to_excel store df) sheet
  ∨ (empty df = false ∧ writes (NBAScraper.append_to_excel store df) sheet) →
  rows sheet
  = (norm (columns sheet) <$>
       match year_to_append df with
       | VNull => rows e
       | y => filter (λ r, cell "Year" r ≠ y) (rows e)
       end) ++ (norm (columns sheet) <$> rows df)
  ∧ (length (rows sheet) ≤ length (rows e) + length (rows df))%nat.
Proof.
  intros Hdf Hst Hl Hw.
  assert (rows sheet
          = (norm (columns sheet) <$>
               match year_to_append df with
               | VNull => rows e
               | y => filter (λ r, cell "Year" r ≠ y) (rows e)
               end) ++ (norm (columns sheet) <$> rows df)) as Hrows.
  { destruct Hw as [Hw|[Hne Hw]].
    - apply writes_a in Hw as ->; [|done..]. apply merged_rows; [done|].
      intros Hout. by destruct Hout; apply cols_a_Year.
    - apply writes_b in Hw; [|done..].
      destruct Hw as [[He _]|[_ ->]]; [congruence|].
      apply merged_rows; [done|]. intros Hout. cbn [columns] in Hout.
      destruct (decide (year_to_append df = VNull)) as [|Hy]; [done|].
      by destruct Hout; apply cols_b_Year. }
  split; [exact Hrows|]. rewrite Hrows, length_app, !length_fmap.
  apply Nat.add_le_mono_r. destruct (year_to_append df); [done|apply length_filter..].
Qed.

Lemma merge_rows_exactly_witness :
  rows (merged cols_a (Some sheet_2020) season_2021)
  = (norm (columns (merged cols_a (Some sheet_2020) season_2021)) <$>
       match year_to_append season_2021 with
       | VNull => rows sheet_2020
       | y => filter (λ r, cell "Year" r ≠ y) (rows sheet_2020)
       end)
    ++ (norm (columns (merged cols_a (Some sheet_2020) season_2021))
          <$> rows season_2021)
  ∧ (length (rows (merged cols_a (Some sheet_2020) season_2021))
     ≤ length (rows sheet_2020) + length (rows season_2021))%nat.
Proof.
  apply (merge_rows_exactly (Some sheet_2020) sheet_2020 season_2021).
  - apply (bool_decide_unpack _). vm_compute. reflexivity.
  - intros e [= <-]. apply (bool_decide_unpack _). vm_compute. reflexivity.
  - vm_compute. reflexivity.
  - left. apply append_to_excel_a_shape.
    + apply (bool_decide_unpack _). vm_compute. reflexivity.
    + intros e [= <-]. apply (bool_decide_unpack _). vm_compute. reflexivity.
Defined.

Section first_write.
Implicit Types (df e sheet : DataFrame) (cols : list string).

Lemma load_None store :
  load store = None
  ↔ store = None ∨ ∃ e, store = Some e ∧ (rows e = [] ∨ columns e = []).
Proof.
  unfold load, empty. destruct store as [e|]; [|by split; [left|]].
  split.
  - intros H. right. exists e. split; [done|].
    destruct (decide (rows e = [])) as [|Hr]; [by left|].
    destruct (decide (columns e = [])) as [|Hc]; [by right|].
    rewrite !bool_decide_eq_false_2 in H; [done|..|done|done].
    by intros ?%nil_length_inv.
  - intros [|(e' & [= <-] & [Hr|Hc])]; [done|..].
    + by rewrite (bool_decide_eq_true_2 _ Hr).
    + rewrite (bool_decide_eq_true_2 (columns e = []) Hc).
      by rewrite orb_true_r.
Qed.

Lemma row_ok_same_labels cols cols' r :
  (∀ c, c ∈ cols ↔ c ∈ cols') → row_ok cols r → row_ok cols' r.
Proof.
  intros Hsame Hr. apply row_ok_iff. intros c. rewrite <-Hsame.
  by apply row_ok_iff.
Qed.

Lemma column_order_Permutation cols : NoDup cols → NBAScraper.column_order cols ≡ₚ cols.
Proof.
  intros Hnd. apply NoDup_Permutation; [by apply column_order_NoDup|done|].
  apply column_order_elem.
Qed.

End first_write.

(** X7. With no sheet to load (no file, or a sheet without rows or without
    labels) a merge writes the new records alone.  Source A writes them
    under the whitelist and [Year], also when there is no record at all;
    source B writes the records of a frame that is not empty as they are,
    under a reordering of the frame's own labels: the labels of a sheet
    without rows are not carried over. *)
Theorem first_write_is_the_new_records (store : option DataFrame) (df : DataFrame) :
  wf df → store_wf store →
  store = None ∨ (∃ e, store = Some e ∧ (rows e = [] ∨ columns e = [])) →
  writes (BartTorvikScraper.append_to_excel store df)
    {| columns := BartTorvikScraper.desired_columns ++ ["Year"];
       rows := norm (BartTorvikScraper.desired_columns ++ ["Year"]) <$> rows df |}
  ∧ (empty df = false →
     ∃ cols, cols ≡ₚ columns df
       ∧ writes (NBAScraper.append_to_excel store df)
           {| columns := cols; rows := rows df |}).
Proof.
  intros Hdf Hst Hl%load_None. split.
  - unfold writes. rewrite append_to_excel_a_shape by done.
    unfold merged. by rewrite Hl.
  - intros Hne. exists (cols_b store df). split.
    + unfold cols_b. rewrite Hl. apply column_order_Permutation, Hdf.
    + unfold writes. rewrite append_to_excel_b_shape by done.
      unfold merged. rewrite Hl. cbn [app]. do 3 f_equal.
      apply fmap_norm_id. destruct Hdf as [_ Hrows].
      eapply Forall_impl; [exact Hrows|]. intros r. apply row_ok_same_labels.
      intros c. unfold cols_b. rewrite Hl. symmetry. apply column_order_elem.
Qed.

Lemma first_write_is_the_new_records_witness :
  writes (BartTorvikScraper.append_to_excel None season_2021)
    {| columns := BartTorvikScraper.desired_columns ++ ["Year"];
       rows := norm (BartTorvikScraper.desired_columns ++ ["Year"])
                 <$> rows season_2021 |}
  ∧ (empty season_2021 = false →
     ∃ cols, cols ≡ₚ columns season_2021
       ∧ writes (NBAScraper.append_to_excel None season_2021)
           {| columns := cols; rows := rows season_2021 |}).
Proof.
  apply (first_write_is_the_new_records None season_2021).
  - apply (bool_decide_unpack _). vm_compute. reflexivity.
  - intros e. discriminate.
  - left. reflexivity.
Defined.

(** X8. A season whose page has no data row deletes nothing.  Source A's
    extraction returns a frame without records, and its merge writes the
    loaded rows, all of them, under the whitelist and [Year] (and a sheet
    without rows when none is loaded); source B's merge returns before it
    reads or writes the sheet. *)
Theorem empty_season_keeps_the_sheet :
  (∀ (tables : list (list (list string))) (year : Z) (df : DataFrame)
     (store : option DataFrame),
     store_wf store →
     BartTorvikScraper.extract tables year = Ok df → kept_rows_a tables = [] →
     writes (BartTorvikScraper.append_to_excel store df)
       {| columns := BartTorvikScraper.desired_columns ++ ["Year"];
          rows := match load store with
                  | Some e => norm (BartTorvikScraper.desired_columns ++ ["Year"])
                                <$> rows e
                  | None => []
                  end |})
  ∧ (∀ (tables : list NBAScraper.table) (year : Z) (df : DataFrame)
       (store : option DataFrame),
       NBAScraper.extract tables year = Ok df → rows df = [] →
       NBAScraper.append_to_excel store df = Ok store)
  ∧ (∃ df, BartTorvikScraper.extract torvik_document_without_rows 2021 = Ok df
        ∧ kept_rows_a torvik_document_without_rows = [])
  ∧ (∃ df, NBAScraper.extract nba_document_without_rows 2021 = Ok df
        ∧ rows df = []).
Proof.
  split_and!.
  - intros tables year df store Hst Hdf Hk.
    pose proof (extract_a_wf _ _ _ Hdf) as Hwf.
    apply extract_a_frame in Hdf. cbn zeta in Hdf. rewrite Hk in Hdf.
    cbn [fmap list_fmap] in Hdf.
    unfold writes. rewrite append_to_excel_a_shape by done.
    unfold merged. do 2 f_equal. fold cols_a.
    assert (rows df = []) as Hrows by by rewrite Hdf.
    rewrite Hrows. cbn [fmap list_fmap]. rewrite app_nil_r. f_equal.
    destruct (load store) as [e|]; [|done].
    apply kept_null. unfold year_to_append. by rewrite Hrows.
  - intros tables year df store _ Hrows. apply append_to_excel_b_empty.
    unfold empty. by rewrite (bool_decide_eq_true_2 _ Hrows).
  - eexists. split; [vm_compute; reflexivity|]. vm_compute. reflexivity.
  - eexists. split; [vm_compute; reflexivity|]. vm_compute. reflexivity.
Qed.

(** ** A rerun: the second merge starts from what is read of the first *)

Section rerun.
Implicit Types (df e sheet : DataFrame) (cols : list string) (y : value).

Lemma filter_length_Forall2 {A B} (P : A → Prop) (Q : B → Prop)
    `{∀ x, Decision (P x)} `{∀ x, Decision (Q x)} (l : list A) (l' : list B) :
  Forall2 (λ a b, Q b ↔ P a) l l' →
  length (filter Q l') = length (filter P l).
Proof.
  induction 1 as [|a b l l' Hab _ IH]; [done|]. rewrite !filter_cons.
  destruct (decide (P a)) as [HP|HP], (decide (Q b)) as [HQ|HQ];
    simpl; try (by rewrite IH); tauto.
Qed.

Lemma cell_ne_lookup r y :
  y ≠ VNull → cell "Year" r ≠ y ↔ r !! "Year" ≠ Some y.
Proof.
  intros Hy. unfold cell. destruct (r !! "Year") as [v|]; simpl.
  - split; intros H; congruence.
  - split; [done|]. by intros _ <-.
Qed.

(** The second merge of the records [df] of the year [y], from a reading of
    the sheet the first merge wrote: the reading is loaded, the rows it has
    of other years are kept, and the sheet has as many rows as the first. *)
Lemma merged_again cols cols' store df sheet_read y :
  "Year" ∈ cols → "Year" ∈ cols' → rows df ≠ [] → y ≠ VNull →
  (∀ r, r ∈ rows df → r !! "Year" = Some y) →
  wf sheet_read → reads_year y (merged cols store df) sheet_read →
  load (Some sheet_read) = Some sheet_read
  ∧ rows (merged cols' (Some sheet_read) df)
    = (norm cols' <$> filter (λ r, cell "Year" r ≠ y) (rows sheet_read))
      ++ (norm cols' <$> rows df)
  ∧ length (rows (merged cols' (Some sheet_read) df))
    = length (rows (merged cols store df)).
Proof.
  intros HY HY' Hr Hy Hall [Hnd Hok] Hread.
  assert (year_to_append df = y) as Hya.
  { apply year_to_append_all; [done|]. intros r Hin.
    by apply lookup_Year_cell, Hall. }
  destruct (merged_replaces cols store df y HY Hr Hy Hall)
    as (old & Hrows & Hold & _).
  unfold reads_year in Hread. rewrite Hrows in Hread.
  apply Forall2_app_inv_l in Hread as (k1 & k2 & Hk1 & Hk2 & Hsplit).
  assert (∀ r', r' ∈ k2 → cell "Year" r' = y) as Hnew.
  { intros r' Hin. rewrite Forall2_fmap_l in Hk2.
    apply list_elem_of_lookup in Hin as [i Hi].
    destruct (Forall2_lookup_r _ _ _ _ _ Hk2 Hi) as (r & Hri & Hiff).
    apply Hiff. rewrite cell_norm by done.
    by apply lookup_Year_cell, Hall, list_elem_of_lookup_2 with i. }
  assert (∀ r', r' ∈ k1 → cell "Year" r' ≠ y) as Hkeep.
  { intros r' Hin. apply list_elem_of_lookup in Hin as [i Hi].
    destruct (Forall2_lookup_r _ _ _ _ _ Hk1 Hi) as (r & Hri & Hiff).
    intros Heq. apply Hiff in Heq. apply list_elem_of_lookup_2 in Hri.
    by apply (cell_ne_lookup r y Hy); [apply Hold|]. }
  assert (filter (λ r, cell "Year" r ≠ y) (rows sheet_read) = k1) as Hfil.
  { rewrite Hsplit, filter_app, (filter_all _ k1), (filter_none _ k2), app_nil_r;
      [done| |done]. intros r' Hin Hne. by apply Hne, Hnew. }
  assert (load (Some sheet_read) = Some sheet_read) as Hload.
  { destruct (load (Some sheet_read)) as [e|] eqn:El.
    - by apply load_Some in El as [[= <-] _].
    - exfalso. destruct (rows df) as [|r rs] eqn:Er; [done|].
      apply Forall2_length in Hk2. rewrite length_fmap in Hk2.
      destruct k2 as [|r' k2]; [done|].
      assert (cell "Year" r' = y) as Hc by (apply Hnew; left).
      assert (r' ∈ rows sheet_read) as Hin
        by (rewrite Hsplit; apply elem_of_app; right; left).
      apply load_None in El as [|(e & [= <-] & [Hnil|Hnil])]; [done|..].
      + rewrite Hnil in Hin. by apply elem_of_nil in Hin.
      + rewrite Forall_forall in Hok. specialize (Hok r' Hin).
        assert (is_Some (r' !! "Year")) as HS.
        { unfold cell in Hc. destruct (r' !! "Year"); [eauto|]. by destruct Hy. }
        apply (row_ok_lookup _ _ _ Hok) in HS. rewrite Hnil in HS.
        by apply elem_of_nil in HS. }
  assert (rows (merged cols' (Some sheet_read) df)
          = (norm cols' <$> filter (λ r, cell "Year" r ≠ y) (rows sheet_read))
            ++ (norm cols' <$> rows df)) as Hrows'.
  { rewrite (merged_rows cols' (Some sheet_read) sheet_read df Hload) by done.
    rewrite Hya. by destruct y. }
  split_and!; [done..|].
  rewrite Hrows', Hrows, Hfil, !length_app, !length_fmap.
  by rewrite (Forall2_length _ _ _ Hk1).
Qed.

End rerun.

(** C1, as worded, fails: the second merge writes another sheet than the
    first.  [ranked_sheet] is a sheet as it is read, with the rank of its
    2020 row a text, since the rank of its 2021 row is a word.  Merging
    [ranked_2021] replaces that row by one with the rank ["5"]: the sheet
    written holds the texts ["7"] and ["5"], and is read back with the
    numbers 7 and 5.  The second merge of [ranked_2021] into what was read
    writes the number 7 where the first wrote the text ["7"]. *)
Lemma second_write_differs_from_the_first :
  ¬ rerun_writes_the_same BartTorvikScraper.append_to_excel.
Proof.
  intros H.
  specialize (H ranked_sheet ranked_2021 ranked_written ranked_read
                (written (BartTorvikScraper.append_to_excel
                            (Some ranked_read) ranked_2021)) 2021%Z).
  assert (∀ r, r ∈ rows ranked_2021 → r !! "Year" = Some (VInt 2021)) as Hall.
  { intros r Hr. apply list_elem_of_singleton in Hr. by subst r. }
  apply (f_equal (λ sheet, cell "Rk" <$> rows sheet)) in H.
  - vm_compute in H. discriminate.
  - apply (bool_decide_unpack _). by vm_compute.
  - by vm_compute.
  - apply (bool_decide_unpack _). by vm_compute.
  - discriminate.
  - done.
  - by vm_compute.
  - by vm_compute.
  - by vm_compute.
Qed.

(** The same for source B. *)
Example second_nba_write_differs_from_the_first :
  ¬ rerun_writes_the_same NBAScraper.append_to_excel.
Proof.
  intros H.
  specialize (H nba_ranked_sheet nba_ranked_2021 nba_ranked_written
                nba_ranked_read
                (written (NBAScraper.append_to_excel
                            (Some nba_ranked_read) nba_ranked_2021)) 2021%Z).
  assert (∀ r, r ∈ rows nba_ranked_2021 → r !! "Year" = Some (VInt 2021))
    as Hall.
  { intros r Hr. apply list_elem_of_singleton in Hr. by subst r. }
  apply (f_equal (λ sheet, cell "RK" <$> rows sheet)) in H.
  - vm_compute in H. discriminate.
  - apply (bool_decide_unpack _). by vm_compute.
  - by vm_compute.
  - apply (bool_decide_unpack _). by vm_compute.
  - discriminate.
  - done.
  - by vm_compute.
  - by vm_compute.
  - by vm_compute.
Qed.

(** What the two writes hold under the rank, and what is read in
    between. *)
Example ranks_written_and_read :
  cell "Rk" <$> rows ranked_written = [VStr "7"; VStr "5"]
  ∧ read_back ranked_sheet = Some ranked_sheet
  ∧ read_back ranked_written = Some ranked_read
  ∧ cell "Rk" <$> rows ranked_read = [VInt 7; VInt 5]
  ∧ cell "Rk" <$> rows (written (BartTorvikScraper.append_to_excel
                                   (Some ranked_read) ranked_2021))
    = [VInt 7; VStr "5"].
Proof. by vm_compute. Qed.

(** C1, amended.  Merging the same non-empty records of one year [y] twice,
    the second time into what is read of the sheet the first merge wrote,
    replaces and does not duplicate, for source A and for source B.  The
    first merge returns; the rows it keeps of the old sheet carry another
    year, and the rows of year [y] are exactly the new ones.  Whatever frame
    [sheet_read] the read returns of that sheet, as long as it returns the
    rows in order and the year [y] on the rows written with it and on no
    other, the second merge returns too, and its sheet has as many rows as
    the first: the rows of [sheet_read] with another year, then the new
    records, which are again all its rows of year [y].  The cells of the
    rows that are kept are those of [sheet_read], not those the first merge
    wrote.  Where the read returns the very frame that was written, the
    second merge writes the same sheet again, also when it is handed the
    frame the first call has widened in place. *)
Theorem rerun_replaces_the_season
    (store : option DataFrame) (df : DataFrame) (y : value) :
  wf df → store_wf store → rows df ≠ [] → y ≠ VNull →
  (∀ r, r ∈ rows df → r !! "Year" = Some y) →
  (∃ sheet,
      writes (BartTorvikScraper.append_to_excel store df) sheet
      ∧ (∃ old, rows sheet = old ++ (norm (columns sheet) <$> rows df)
           ∧ ∀ r, r ∈ old → r !! "Year" ≠ Some y)
      ∧ filter (λ r, r !! "Year" = Some y) (rows sheet)
        = norm (columns sheet) <$> rows df
      ∧ ∀ sheet_read,
          wf sheet_read → reads_year y sheet sheet_read →
          ∃ sheet',
            writes (BartTorvikScraper.append_to_excel (Some sheet_read) df)
                   sheet'
            ∧ columns sheet' = columns sheet
            ∧ length (rows sheet') = length (rows sheet)
            ∧ rows sheet'
              = (norm (columns sheet')
                   <$> filter (λ r, cell "Year" r ≠ y) (rows sheet_read))
                ++ (norm (columns sheet') <$> rows df)
            ∧ filter (λ r, r !! "Year" = Some y) (rows sheet')
              = norm (columns sheet') <$> rows df
            ∧ (sheet_read = sheet →
               sheet' = sheet
               ∧ writes (BartTorvikScraper.append_to_excel (Some sheet)
                           (BartTorvikScraper.frame_after df)) sheet))
  ∧ (∃ sheet,
      writes (NBAScraper.append_to_excel store df) sheet
      ∧ (∃ old, rows sheet = old ++ (norm (columns sheet) <$> rows df)
           ∧ ∀ r, r ∈ old → r !! "Year" ≠ Some y)
      ∧ filter (λ r, r !! "Year" = Some y) (rows sheet)
        = norm (columns sheet) <$> rows df
      ∧ ∀ sheet_read,
          wf sheet_read → reads_year y sheet sheet_read →
          ∃ sheet',
            writes (NBAScraper.append_to_excel (Some sheet_read) df) sheet'
            ∧ length (rows sheet') = length (rows sheet)
            ∧ rows sheet'
              = (norm (columns sheet')
                   <$> filter (λ r, cell "Year" r ≠ y) (rows sheet_read))
                ++ (norm (columns sheet') <$> rows df)
            ∧ filter (λ r, r !! "Year" = Some y) (rows sheet')
              = norm (columns sheet') <$> rows df
            ∧ (sheet_read = sheet →
               sheet' = sheet
               ∧ writes (NBAScraper.append_to_excel (Some sheet)
                           (NBAScraper.frame_after store df)) sheet)).
Proof.
  intros Hdf Hst Hr Hy Hall.
  assert (∀ r, r ∈ rows df → cell "Year" r = y) as Hcell
    by (intros r Hin; by apply lookup_Year_cell, Hall).
  assert ("Year" ∈ columns df) as HYdf by by eapply has_Year_column.
  assert (columns df ≠ []) as Hc by (intros E; rewrite E in HYdf; inversion HYdf).
  split.
  - exists (merged cols_a store df).
    destruct (merged_replaces cols_a store df y cols_a_Year Hr Hy Hall)
      as (old & Hrows & Hold & Hfil).
    split_and!; [by apply append_to_excel_a_shape|by exists old|done|].
    intros sheet_read Hwf Hread.
    assert (store_wf (Some sheet_read)) as Hst' by by intros ? [= <-].
    destruct (merged_again cols_a cols_a store df sheet_read y
                cols_a_Year cols_a_Year Hr Hy Hall Hwf Hread)
      as (Hload & Hrows' & Hlen).
    destruct (merged_replaces cols_a (Some sheet_read) df y cols_a_Year Hr Hy Hall)
      as (_ & _ & _ & Hfil').
    exists (merged cols_a (Some sheet_read) df).
    split_and!; [by apply append_to_excel_a_shape|done..|].
    intros ->. split.
    + by apply (merged_idem cols_a store df y cols_a_Year).
    + unfold writes, BartTorvikScraper.frame_after.
      rewrite append_to_excel_a_shape;
        [|by apply fill_missing_spec|done].
      rewrite merged_fill_missing by done.
      by rewrite (merged_idem cols_a store df y cols_a_Year).
  - assert ("Year" ∈ cols_b store df) as HY by (apply cols_b_elem; by left).
    exists (merged (cols_b store df) store df).
    destruct (merged_replaces (cols_b store df) store df y HY Hr Hy Hall)
      as (old & Hrows & Hold & Hfil).
    split_and!; [apply append_to_excel_b_shape; auto using not_empty
                |by exists old|done|].
    intros sheet_read Hwf Hread.
    assert (store_wf (Some sheet_read)) as Hst' by by intros ? [= <-].
    assert ("Year" ∈ cols_b (Some sheet_read) df) as HY'
      by (apply cols_b_elem; by left).
    destruct (merged_again (cols_b store df) (cols_b (Some sheet_read) df)
                store df sheet_read y HY HY' Hr Hy Hall Hwf Hread)
      as (Hload & Hrows' & Hlen).
    destruct (merged_replaces (cols_b (Some sheet_read) df) (Some sheet_read)
                df y HY' Hr Hy Hall) as (_ & _ & _ & Hfil').
    exists (merged (cols_b (Some sheet_read) df) (Some sheet_read) df).
    split_and!; [apply append_to_excel_b_shape; auto using not_empty|done..|].
    intros ->. split.
    + rewrite cols_b_stable; [|done..|].
      * by rewrite (merged_idem (cols_b store df) store df y).
      * intros c Hin. apply cols_b_elem. by left.
    + unfold writes, NBAScraper.frame_after. rewrite not_empty by done.
      destruct (load store) as [e|] eqn:El.
      * pose proof El as [_ ->]%load_Some. simpl.
        set (all := NBAScraper.sorted (remove_dups (columns df ++ columns e))).
        destruct (fill_missing_spec all df Hdf) as (Hwf' & Hrows'' & Hcols').
        rewrite append_to_excel_b_shape; [|done..|].
        -- rewrite merged_fill_missing by done.
           rewrite cols_b_stable; [|done..|].
           ++ by rewrite (merged_idem (cols_b store df) store df y).
           ++ intros c [Hin|Hin]%Hcols'.
              ** apply cols_b_elem. by left.
              ** unfold cols_b. rewrite El. by apply column_order_elem.
        -- apply not_empty.
           ++ rewrite Hrows''. destruct (rows df); [done|]. done.
           ++ intros E. apply Hc. destruct (columns df) as [|c0 cs0]; [done|].
              assert (c0 ∈ columns (fill_missing all df)) as Hin
                by (apply Hcols'; left; left).
              rewrite E in Hin. by apply not_elem_of_nil in Hin.
      * rewrite append_to_excel_b_shape; [|done..|by apply not_empty].
        rewrite cols_b_stable; [|done..|].
        -- by rewrite (merged_idem (cols_b store df) store df y).
        -- intros c Hin. apply cols_b_elem. by left.
Qed.

Lemma rerun_replaces_the_season_witness :
  (∃ sheet',
     writes (BartTorvikScraper.append_to_excel (Some ranked_read) ranked_2021)
            sheet'
     ∧ columns sheet' = columns ranked_written
     ∧ length (rows sheet') = length (rows ranked_written)
     ∧ rows sheet'
       = (norm (columns sheet')
            <$> filter (λ r, cell "Year" r ≠ VInt 2021) (rows ranked_read))
         ++ (norm (columns sheet') <$> rows ranked_2021)
     ∧ filter (λ r, r !! "Year" = Some (VInt 2021)) (rows sheet')
       = norm (columns sheet') <$> rows ranked_2021)
  ∧ (∃ sheet',
       writes (NBAScraper.append_to_excel (Some nba_ranked_read) nba_ranked_2021)
              sheet'
       ∧ length (rows sheet') = length (rows nba_ranked_written)).
Proof.
  assert (∀ df, rows df = rows ranked_2021 →
            ∀ r, r ∈ rows df → r !! "Year" = Some (VInt 2021)) as Hall.
  { intros df -> r Hr. apply list_elem_of_singleton in Hr. by subst r. }
  split.
  - destruct (rerun_replaces_the_season (Some ranked_sheet) ranked_2021
                (VInt 2021)) as [(sheet & Hw & _ & _ & Hagain) _].
    + apply (bool_decide_unpack _). vm_compute. reflexivity.
    + intros e [= <-]. apply (bool_decide_unpack _). vm_compute. reflexivity.
    + discriminate.
    + discriminate.
    + by apply Hall.
    + assert (sheet = ranked_written) as ->.
      { unfold ranked_written. rewrite Hw. reflexivity. }
      destruct (Hagain ranked_read) as (sheet' & H1 & H2 & H3 & H4 & H5 & _).
      * apply (bool_decide_unpack _). vm_compute. reflexivity.
      * apply (bool_decide_unpack _). vm_compute. reflexivity.
      * exists sheet'. split_and!; assumption.
  - destruct (rerun_replaces_the_season (Some nba_ranked_sheet) nba_ranked_2021
                (VInt 2021)) as [_ (sheet & Hw & _ & _ & Hagain)].
    + apply (bool_decide_unpack _). vm_compute. reflexivity.
    + intros e [= <-]. apply (bool_decide_unpack _). vm_compute. reflexivity.
    + discriminate.
    + discriminate.
    + intros r Hr. apply list_elem_of_singleton in Hr. by subst r.
    + assert (sheet = nba_ranked_written) as ->.
      { unfold nba_ranked_written. rewrite Hw. reflexivity. }
      destruct (Hagain nba_ranked_read) as (sheet' & H1 & H2 & _).
      * apply (bool_decide_unpack _). vm_compute. reflexivity.
      * apply (bool_decide_unpack _). vm_compute. reflexivity.
      * exists sheet'. split; assumption.
Defined.

(** ** Pagination: a failed click ends the loop *)

Section pagination_stop.
Context {S : Type} (b : Browser S).

Lemma load_more_loop_attempts n clicks page k :
  let r := BartTorvikScraper.load_more_loop (counting b) n clicks (page, k) in
  (r.2.2 - k ≤ r.1 - clicks + 1)%nat ∧ (clicks ≤ r.1)%nat ∧ (k ≤ r.2.2)%nat.
Proof.
  revert clicks page k. induction n as [|n IH]; intros clicks page k.
  - simpl. lia.
  - simpl. destruct (wait_clickable b page) as [[] p1]; simpl; [|lia].
    destruct (click b p1) as [[] p2]; simpl; [|lia].
    specialize (IH (clicks + 1) (sleep b p2) (Datatypes.S k)). simpl in IH. lia.
Qed.

Lemma show_more_loop_attempts n clicks prev page k :
  let r := NBAScraper.show_more_loop (counting b) n clicks prev (page, k) in
  (r.2.2 - k ≤ r.1 - clicks + 1)%nat ∧ (clicks ≤ r.1)%nat ∧ (k ≤ r.2.2)%nat.
Proof.
  revert clicks prev page k. induction n as [|n IH]; intros clicks prev page k.
  - simpl. lia.
  - simpl. destruct (wait_clickable b page) as [[] p1]; simpl; [|lia].
    destruct (click b p1) as [[] p2]; simpl; [|lia].
    destruct (decide (2 ≤ length (table_rows b (sleep b p2)))%nat).
    + destruct (decide (_ = _)); [simpl; lia|].
      specialize (IH (clicks + 1) (table_rows b (sleep b p2) !!! 0)
                     (sleep b p2) (Datatypes.S k)). simpl in IH. lia.
    + specialize (IH (clicks + 1)
                     (if decide (2 ≤ length (table_rows b p1))%nat
                      then table_rows b p1 !!! 0 else prev)
                     (sleep b p2) (Datatypes.S k)). simpl in IH. lia.
Qed.

End pagination_stop.

(** X9. Neither pagination loop tries again after a click that raised: on
    any page the number of calls to [click] is at most one more than the
    clicks the loop reports.  On a page whose click raises at once there is
    one call and no click is reported. *)
Theorem pagination_stops_at_a_failed_click :
  (∀ (S : Type) (b : Browser S) (page : S),
     let r := BartTorvikScraper.load_all (counting b) (page, 0) in
     (r.2.2 ≤ r.1 + 1)%nat)
  ∧ (∀ (S : Type) (b : Browser S) (page : S),
       let r := NBAScraper.load_all (counting b) (page, 0) in
       (r.2.2 ≤ r.1 + 1)%nat)
  ∧ BartTorvikScraper.load_all (counting broken_page) (tt, 0) = (0, (tt, 1))
  ∧ NBAScraper.load_all (counting broken_page) (tt, 0) = (0, (tt, 1)).
Proof.
  split_and!.
  - intros S b page. unfold BartTorvikScraper.load_all.
    pose proof (load_more_loop_attempts b BartTorvikScraper.max_clicks 0 page 0) as H.
    cbn zeta in *. lia.
  - intros S b page. unfold NBAScraper.load_all.
    pose proof (show_more_loop_attempts b NBAScraper.max_clicks 0 0 page 0) as H.
    cbn zeta in *. lia.
  - reflexivity.
  - reflexivity.
Qed.

(** ** The engine finds every match, and the first in priority order *)

Section regex_complete.
Import Re.
Implicit Types (r : re) (s : list ascii) (st : state).

Lemma power_steps (R : nat → nat → Prop) n i j : power R n i j → (i + n ≤ j)%nat.
Proof.
  revert i. induction n as [|n IH]; intros i; simpl; [intros ->; lia|].
  intros (k & _ & Hlt & Hp%IH). lia.
Qed.

(** A match that consumes something ends inside the text. *)
Lemma matches_grow r s i j :
  matches r s i j → (i ≤ j)%nat ∧ ((i < j)%nat → (j ≤ length s)%nat).
Proof.
  revert i j. induction r as [|c|lo hi|r1 IH1 r2 IH2|r IH lo hi g|n r IH| |];
    intros i j; simpl.
  - intros [-> (c & Hc%lookup_lt_Some & _)]. lia.
  - intros [-> Hc%lookup_lt_Some]. lia.
  - intros [-> (c & Hc%lookup_lt_Some & _)]. lia.
  - intros (k & H1%IH1 & H2%IH2). lia.
  - intros (n & _ & _ & Hp). revert i Hp. induction n as [|n IHn]; intros i; simpl.
    + intros ->. lia.
    + intros (k & Hk%IH & Hlt & Hp%IHn). lia.
  - apply IH.
  - intros [-> ->]. lia.
  - intros [-> _]. lia.
Qed.

Lemma rep_stop step lo hi greedy fuel count st :
  (lo ≤ count)%nat → st ∈ rep step lo hi greedy fuel count st.
Proof.
  intros Hlo. destruct fuel, greedy; cbn [rep]; rewrite decide_True by done;
    apply elem_of_app; (by left; left) || (by right; left).
Qed.

Lemma rep_more step lo hi greedy fuel count st st1 st' :
  below count hi = true → st1 ∈ step st → (pos st < pos st1)%nat →
  st' ∈ rep step lo hi greedy fuel (Datatypes.S count) st1 →
  st' ∈ rep step lo hi greedy (Datatypes.S fuel) count st.
Proof.
  intros Hb H1 Hlt Hin.
  assert (st' ∈ (st1 ← step st;
                 if decide (pos st < pos st1)%nat
                 then rep step lo hi greedy fuel (Datatypes.S count) st1 else []))
    as Hmore.
  { apply list_elem_of_bind. exists st1. by rewrite decide_True. }
  destruct greedy; cbn [rep]; rewrite Hb; apply elem_of_app; [by left|by right].
Qed.

Lemma rep_complete (R : nat → nat → Prop) step lo hi greedy n fuel count st j :
  (∀ a k, R (pos a) k → ∃ a1, a1 ∈ step a ∧ pos a1 = k) →
  power R n (pos st) j → (n ≤ fuel)%nat → (lo ≤ count + n)%nat →
  match hi with Some h => (count + n ≤ h)%nat | None => True end →
  ∃ st', st' ∈ rep step lo hi greedy fuel count st ∧ pos st' = j.
Proof.
  intros Hstep. revert fuel count st.
  induction n as [|n IH]; intros fuel count st Hp Hfuel Hlo Hhi; simpl in Hp.
  - exists st. split; [|done]. apply rep_stop. lia.
  - destruct Hp as (k & Hk & Hlt & Hp). destruct fuel as [|fuel]; [lia|].
    apply Hstep in Hk as (st1 & H1 & <-).
    destruct (IH fuel (Datatypes.S count) st1 Hp) as (st' & Hin & Hpos); [lia..| |].
    { destruct hi; [lia|done]. }
    exists st'. split; [|done]. eapply rep_more; [|done..].
    destruct hi as [h|]; [|done]. simpl. apply bool_decide_eq_true. lia.
Qed.

Lemma step_char_ok ok s st c :
  s !! pos st = Some c → ok c = true →
  step_char ok s st = [mkState (Datatypes.S (pos st)) (caps st)].
Proof. intros Hc Hok. unfold step_char. by rewrite Hc, Hok. Qed.

(** Every match in the declarative sense is a state the engine returns. *)
Lemma exec_complete r s st j :
  matches r s (pos st) j → ∃ st', st' ∈ exec r s st ∧ pos st' = j.
Proof.
  revert st j. induction r as [|c|lo hi|r1 IH1 r2 IH2|r IH lo hi g|i r IH| |];
    intros st j; simpl.
  - intros [-> (c & Hc & Hne)].
    exists (mkState (Datatypes.S (pos st)) (caps st)). split; [|done].
    rewrite (step_char_ok _ _ _ c Hc); [left|]. by apply bool_decide_eq_true.
  - intros [-> Hc].
    exists (mkState (Datatypes.S (pos st)) (caps st)). split; [|done].
    rewrite (step_char_ok _ _ _ c Hc); [left|]. by apply bool_decide_eq_true.
  - intros [-> (c & Hc & Hr)].
    exists (mkState (Datatypes.S (pos st)) (caps st)). split; [|done].
    rewrite (step_char_ok _ _ _ c Hc); [left|done].
  - intros (k & (st1 & H1 & <-)%IH1 & (st2 & H2 & <-)%IH2).
    exists st2. split; [|done]. apply list_elem_of_bind. eauto.
  - intros (n & Hlo & Hhi & Hp).
    apply (rep_complete (matches r s) _ _ _ _ n); [by intros a k ?%IH|done| |lia|].
    + destruct n as [|n]; [lia|].
      pose proof (power_steps _ _ _ _ Hp) as Hsteps.
      assert (matches (Rep r lo hi g) s (pos st) j) as Hm.
      { simpl. exists (Datatypes.S n). done. }
      apply matches_grow in Hm. lia.
    + by destruct hi.
  - intros (a & Ha & <-)%IH.
    exists (mkState (pos a) (<[i := (pos st, pos a)]> (caps a))). split; [|done].
    apply list_elem_of_fmap. exists a. done.
  - intros [Hp ->]. exists st. split; [|done]. rewrite decide_True by done. left.
  - intros [-> Heol]. exists st. split; [|done]. rewrite Heol. left.
Qed.

(** [.+?] over [n] characters that are not line feeds: the states after one
    more character each, in this order, then what is tried past them. *)
Lemma rep_lazy_dot s n fuel count p cs :
  (∀ k, (p ≤ k < p + n)%nat → ∃ c, s !! k = Some c ∧ c ≠ LF) →
  (n ≤ fuel)%nat → (1 ≤ count)%nat →
  rep (exec Dot s) 1 None false fuel count (mkState p cs)
  = ((λ q, mkState q cs) <$> seq p n)
      ++ rep (exec Dot s) 1 None false (fuel - n) (count + n) (mkState (p + n) cs).
Proof.
  revert fuel count p. induction n as [|n IH]; intros fuel count p Hs Hfuel Hcount.
  - by rewrite Nat.sub_0_r, !Nat.add_0_r.
  - destruct fuel as [|fuel]; [lia|]. cbn [rep seq fmap list_fmap].
    rewrite decide_True by done. cbn [below app]. f_equal.
    destruct (Hs p) as (c & Hc & Hne); [lia|].
    cbn [exec].
    rewrite (step_char_ok _ s (mkState p cs) c Hc) by by apply bool_decide_eq_true.
    cbn [mbind list_bind pos caps]. rewrite decide_True by lia. rewrite app_nil_r.
    rewrite IH; [|intros k ?; apply Hs; lia|lia..].
    replace (Datatypes.S fuel - Datatypes.S n)%nat with (fuel - n)%nat by lia.
    replace (count + Datatypes.S n)%nat with (Datatypes.S count + n)%nat by lia.
    replace (p + Datatypes.S n)%nat with (Datatypes.S p + n)%nat by lia.
    reflexivity.
Qed.

Lemma head_bind_skip {A B} (f : A → list B) (l1 l2 : list A) x y :
  (∀ a, a ∈ l1 → f a = []) → head (f x) = Some y →
  head ((l1 ++ x :: l2) ≫= f) = Some y.
Proof.
  intros Hskip Hx. induction l1 as [|a l1 IH]; cbn.
  - destruct (f x); [done|]. done.
  - rewrite (Hskip a) by left. cbn. apply IH. intros a' Ha'. apply Hskip. by right.
Qed.

End regex_complete.

(** ** The name splitter on well-formed name cells *)

Section split_well_formed.
Import Re NBAScraper.
Implicit Types (s name code : list ascii) (codes : list (list ascii)) (st : state).

Lemma power_range_intro lo hi s m i :
  (∀ k, (i ≤ k < i + m)%nat → ∃ c, s !! k = Some c ∧ in_range lo hi c = true) →
  power (matches (Range lo hi) s) m i (i + m).
Proof.
  revert i. induction m as [|m IH]; intros i Hall; simpl; [lia|].
  exists (Datatypes.S i). split; [|split; [lia|]].
  - split; [done|]. apply Hall. lia.
  - replace (i + Datatypes.S m)%nat with (Datatypes.S i + m)%nat by lia.
    apply IH. intros k Hk. apply Hall. lia.
Qed.

Lemma lookup_drop_prefix s i (pre rest : list ascii) k :
  drop i s = pre ++ rest → (k < length pre)%nat → s !! (i + k) = pre !! k.
Proof.
  intros Hd Hk. rewrite <-lookup_drop, Hd. by apply lookup_app_l.
Qed.

Lemma drop_drop_prefix s i (pre rest : list ascii) :
  drop i s = pre ++ rest → drop (i + length pre) s = rest.
Proof.
  intros Hd. rewrite <-drop_drop, Hd. by rewrite drop_app_length.
Qed.

Lemma is_team_code_spec code :
  is_team_code code = true →
  (2 ≤ length code ≤ 4)%nat
  ∧ ∀ k c, code !! k = Some c → in_range "A" "Z" c = true.
Proof.
  unfold is_team_code. intros [Hlen Hall]%andb_prop.
  apply bool_decide_eq_true in Hlen. split; [done|].
  intros k c Hc. rewrite forallb_forall in Hall.
  apply Hall, list_elem_of_In. by eapply list_elem_of_lookup_2.
Qed.

(** A team code in the text is matched by [[A-Z]{2,4}]. *)
Lemma matches_code g s i code rest :
  drop i s = code ++ rest → is_team_code code = true →
  matches (Rep AZ 2 (Some 4) g) s i (i + length code).
Proof.
  intros Hd [Hlen Hall]%is_team_code_spec. exists (length code).
  split_and!; [lia..|]. apply power_range_intro. intros k Hk.
  destruct (lookup_lt_is_Some_2 code (k - i)) as [c Hc]; [lia|].
  exists c. split; [|by eapply Hall].
  rewrite <-(lookup_drop_prefix s i code rest (k - i) Hd) in Hc by lia.
  by replace (i + (k - i))%nat with k in Hc by lia.
Qed.

Lemma matches_slash_codes g s i codes :
  (i ≤ length s)%nat → drop i s = slash_tail codes →
  Forall (λ code, is_team_code code = true) codes →
  power (matches (Cat (Lit "/") (Rep AZ 2 (Some 4) g)) s) (length codes) i (length s).
Proof.
  intros Hi Hd Hall. revert i Hi Hd.
  induction Hall as [|code codes Hcode Hall IH]; intros i Hi Hd; cbn [length power].
  - apply (f_equal length) in Hd. rewrite length_drop in Hd. simpl in Hd. lia.
  - assert (drop i s = ["/"%char] ++ (code ++ slash_tail codes)) as Hd' by exact Hd.
    clear Hd. rename Hd' into Hd.
    pose proof (drop_drop_prefix _ _ _ _ Hd) as Hd1. cbn [length] in Hd1.
    pose proof (drop_drop_prefix _ _ _ _ Hd1) as Hd2.
    assert (i + 1 + length code ≤ length s)%nat as Hle.
    { apply (f_equal length) in Hd. rewrite length_drop, !length_app in Hd.
      simpl in Hd. lia. }
    exists (i + 1 + length code)%nat. split; [|split; [lia|by apply IH]].
    cbn [matches]. exists (Datatypes.S i). split.
    + split; [done|].
      pose proof (lookup_drop_prefix _ _ _ _ 0 Hd) as H0.
      rewrite Nat.add_0_r in H0. apply H0. simpl. lia.
    + replace (Datatypes.S i) with (i + 1)%nat by lia.
      by apply (matches_code g s (i + 1) code (slash_tail codes)).
Qed.

Lemma upper_not_LF c : in_range "A" "Z" c = true → c ≠ LF ∧ c ≠ "/"%char.
Proof.
  intros H. split; intros ->; vm_compute in H; discriminate H.
Qed.

Lemma power_slash_chars g s n i j :
  power (matches (Cat (Lit "/") (Rep AZ 2 (Some 4) g)) s) n i j →
  ∀ q, (i ≤ q < j)%nat →
       ∃ c, s !! q = Some c ∧ (in_range "A" "Z" c = true ∨ c = "/"%char).
Proof.
  revert i. induction n as [|n IH]; intros i; cbn [power].
  - intros -> q ?. lia.
  - intros (k & (k1 & [-> Hslash] & (m & _ & _ & [-> Hup]%power_range)) & _ & Hp)
      q Hq.
    destruct (decide (q = i)) as [->|Hne]; [eauto|].
    destruct (decide (q < Datatypes.S i + m)%nat) as [Hlt|Hge].
    + destruct (Hup q) as (c & ? & ?); [lia|]. eauto.
    + apply (IH _ Hp). lia.
Qed.

(** The text a team pattern matches is made of uppercase letters and
    slashes. *)
Lemma team_chars (multi : bool) s p k :
  matches (if multi
           then Cat (Rep AZ 2 (Some 4) true)
                    (plus (Cat (Lit "/") (Rep AZ 2 (Some 4) true)))
           else Rep AZ 2 (Some 4) true) s p k →
  (p < k)%nat
  ∧ ∀ q, (p ≤ q < k)%nat →
         ∃ c, s !! q = Some c ∧ (in_range "A" "Z" c = true ∨ c = "/"%char).
Proof.
  destruct multi.
  - intros (k1 & (m & Hm & _ & [-> Hup]%power_range) & (n & _ & _ & Hp)).
    pose proof (power_steps _ _ _ _ Hp) as Hsteps. split; [lia|].
    intros q Hq. destruct (decide (q < p + m)%nat) as [Hlt|Hge].
    + destruct (Hup q) as (c & ? & ?); [lia|]. eauto.
    + apply (power_slash_chars _ _ _ _ _ Hp). lia.
  - intros (m & Hm & _ & [-> Hup]%power_range). split; [lia|].
    intros q Hq. destruct (Hup q) as (c & ? & ?); [lia|]. eauto.
Qed.

Lemma at_eol_end s k c :
  last s = Some c → c ≠ LF → at_eol s k = true → k = length s.
Proof.
  intros Hlast Hne. unfold at_eol.
  intros [Hk|[Hk Hc]%andb_prop]%orb_prop; [by apply bool_decide_eq_true in Hk|].
  apply bool_decide_eq_true in Hk. apply bool_decide_eq_true in Hc.
  rewrite last_lookup in Hlast. rewrite <-Hk in Hlast. simpl in Hlast. congruence.
Qed.

Lemma exec_group2_eol B s st st' :
  groups B = [] → st' ∈ exec (Cat (Group 2 B) Eol) s st →
  matches B s (pos st) (pos st') ∧ at_eol s (pos st') = true
  ∧ caps st' = <[2 := (pos st, pos st')]> (caps st).
Proof.
  intros HB Hin.
  change (exec (Cat ?a ?b) s ?st) with (st1 ← exec a s st; exec b s st1) in Hin.
  apply list_elem_of_bind in Hin as (st2 & Hin & (b & Hb & ->)%exec_Group).
  pose proof (exec_sound _ _ _ _ Hb) as Hmb.
  pose proof (exec_caps _ _ _ _ HB Hb) as Hcb.
  pose proof (exec_sound _ _ _ _ Hin) as [Hpos Heol].
  pose proof (exec_caps Eol _ _ _ eq_refl Hin) as Hce.
  simpl in *. rewrite Hpos, Hce, Hcb. done.
Qed.

Lemma head_unique {A} (l : list A) y :
  l ≠ [] → (∀ x, x ∈ l → x = y) → head l = Some y.
Proof.
  destruct l as [|x l]; [done|]. intros _ H. simpl. f_equal. apply H. left.
Qed.

Lemma rep_lazy_head step fuel count st :
  (1 ≤ count)%nat →
  ∃ more, rep step 1 None false fuel count st = st :: more.
Proof.
  intros Hc. destruct fuel; cbn [rep]; rewrite decide_True by lia;
    eexists; reflexivity.
Qed.

(** The first match of [^(.+?)T]: the shortest first group after which [T]
    matches. *)
Lemma first_split T s n y :
  (1 ≤ n)%nat → (∀ k, (k < n)%nat → ∃ c, s !! k = Some c ∧ c ≠ LF) →
  (∀ p, (1 ≤ p < n)%nat → exec T s (mkState p (<[1 := (0, p)]> ∅)) = []) →
  head (exec T s (mkState n (<[1 := (0, n)]> ∅))) = Some y →
  head (exec (Cat Bol (Cat (Group 1 (plus_lazy Dot)) T)) s (mkState 0 ∅)) = Some y.
Proof.
  intros Hn Hs Hskip Hy.
  assert (n ≤ length s)%nat as Hlen.
  { destruct (Hs (n - 1)%nat) as (c & Hc%lookup_lt_Some & _); lia. }
  destruct (length s) as [|fuel] eqn:Efuel; [lia|].
  assert (∃ more,
            rep (exec Dot s) 1 None false (Datatypes.S fuel) 0 (mkState 0 ∅)
            = ((λ q, mkState q ∅) <$> seq 1 (n - 1)) ++ mkState n ∅ :: more)
    as [more Hrep].
  { cbn [rep]. rewrite decide_False by lia. cbn [below app].
    destruct (Hs 0) as (c & Hc & Hne); [lia|]. cbn [exec].
    rewrite (step_char_ok _ s (mkState 0 ∅) c Hc) by by apply bool_decide_eq_true.
    cbn [mbind list_bind pos caps]. rewrite decide_True by lia. rewrite !app_nil_r.
    rewrite (rep_lazy_dot s (n - 1)); [|intros k ?; apply Hs; lia|lia..].
    replace (1 + (n - 1))%nat with n by lia.
    destruct (rep_lazy_head (exec Dot s) (fuel - (n - 1)) n (mkState n ∅))
      as [more Hmore]; [lia|].
    exists more. f_equal. exact Hmore. }
  change (exec (Cat Bol ?b) s ?st) with (st1 ← exec Bol s st; exec b s st1).
  cbn [exec]. rewrite decide_True by done. cbn [mbind list_bind]. rewrite app_nil_r.
  change (exec (plus_lazy Dot) s ?st)
    with (rep (exec Dot s) 1 None false (length s) 0 st).
  rewrite Efuel, Hrep, fmap_app, fmap_cons, <-list_fmap_compose.
  apply head_bind_skip; [|exact Hy].
  intros a (p & -> & Hp%elem_of_seq)%list_elem_of_fmap. cbn. apply Hskip. lia.
Qed.

End split_well_formed.

Section split_round_trip.
Import Re NBAScraper.
Implicit Types (s name team code : list ascii) (codes : list (list ascii)).

(** The team pattern of [standard_re], respectively of [multi_team_re]. *)
Lemma split_at_name (multi : bool) name team c c' :
  let s := name ++ team in
  let B := if multi
           then Cat (Rep AZ 2 (Some 4) true)
                    (plus (Cat (Lit "/") (Rep AZ 2 (Some 4) true)))
           else Rep AZ 2 (Some 4) true in
  LF ∉ name → last name = Some c → in_range "A" "Z" c = false → c ≠ "/"%char →
  last team = Some c' → c' ≠ LF →
  matches B s (length name) (length s) →
  re_match (Cat Bol (Cat (Group 1 (plus_lazy Dot)) (Cat (Group 2 B) Eol)))
           (string_of_list_ascii s)
  = Some (mkMatch s (<[2 := (length name, length s)]>
                       (<[1 := (0, length name)]> ∅))).
Proof.
  intros s B HLF Hlast Hc Hslash Hlast' Hc' HB.
  assert (groups B = []) as HgB by by destruct multi.
  assert (length name ≠ 0) as Hn.
  { intros Hn%nil_length_inv. by rewrite Hn in Hlast. }
  assert (team ≠ []) as Hteam by (intros ->; done).
  assert (last s = Some c') as Hlast_s.
  { unfold s. by rewrite last_app, Hlast'. }
  assert (length name < length s)%nat as Hlt.
  { unfold s. rewrite length_app. destruct team; [done|]. simpl. lia. }
  unfold re_match. rewrite list_ascii_of_string_of_list_ascii.
  rewrite (first_split _ s (length name)
             (mkState (length s) (<[2 := (length name, length s)]>
                                    (<[1 := (0, length name)]> ∅)))); [done|lia|..].
  - intros k Hk. destruct (lookup_lt_is_Some_2 name k Hk) as [x Hx].
    exists x. split; [unfold s; by rewrite lookup_app_l|].
    intros ->. apply HLF. by eapply list_elem_of_lookup_2.
  - intros p Hp. apply elem_of_nil_inv. intros st' Hin.
    apply exec_group2_eol in Hin as (Hm & Heol & _); [|done]. cbn [pos] in Hm.
    apply (at_eol_end _ _ _ Hlast_s Hc') in Heol. rewrite Heol in Hm.
    apply (team_chars multi) in Hm as [_ Hchars].
    destruct (Hchars (length name - 1)%nat) as (x & Hx & Hup); [lia|].
    rewrite last_lookup in Hlast.
    replace (pred (length name)) with (length name - 1)%nat in Hlast by lia.
    unfold s in Hx. rewrite lookup_app_l in Hx by lia.
    assert (x = c) as -> by congruence. destruct Hup; congruence.
  - apply head_unique.
    + destruct (exec_complete (Cat (Group 2 B) Eol) s
                  (mkState (length name) (<[1 := (0, length name)]> ∅)) (length s))
        as (st' & Hin & _).
      { cbn [matches pos]. exists (length s). split; [done|]. split; [done|].
        unfold at_eol. by rewrite bool_decide_eq_true_2. }
      intros Hnil. rewrite Hnil in Hin. by apply elem_of_nil in Hin.
    + intros st' Hin. apply exec_group2_eol in Hin as (_ & Heol & Hcaps); [|done].
      apply (at_eol_end _ _ _ Hlast_s Hc') in Heol. cbn [pos caps] in Hcaps.
      destruct st' as [p cs]. cbn [pos caps] in *. by subst.
Qed.

Lemma last_code code :
  is_team_code code = true →
  ∃ c', last code = Some c' ∧ in_range "A" "Z" c' = true.
Proof.
  intros [Hlen Hall]%is_team_code_spec. rewrite last_lookup.
  destruct (lookup_lt_is_Some_2 code (pred (length code))) as [c' Hc']; [lia|].
  exists c'. split; [done|]. by eapply Hall.
Qed.

Lemma last_slash_tail codes :
  codes ≠ [] → Forall (λ code, is_team_code code = true) codes →
  ∃ c', last (slash_tail codes) = Some c' ∧ in_range "A" "Z" c' = true.
Proof.
  intros Hne Hall. induction Hall as [|code codes Hcode Hall IH]; [done|].
  change (slash_tail (code :: codes)) with (("/"%char :: code) ++ slash_tail codes).
  rewrite last_app. destruct codes as [|code' codes].
  - cbn. apply last_code in Hcode as (c' & Hl & Hu). exists c'.
    split; [|done]. destruct code; [done|]. exact Hl.
  - destruct IH as (c' & -> & Hu); [done|]. eauto.
Qed.

Lemma last_join_slash codes :
  codes ≠ [] → Forall (λ code, is_team_code code = true) codes →
  ∃ c', last (join_slash codes) = Some c' ∧ in_range "A" "Z" c' = true.
Proof.
  intros Hne Hall. destruct Hall as [|code codes Hcode Hall]; [done|].
  cbn [join_slash]. rewrite last_app. destruct codes as [|code' codes].
  - cbn. by apply last_code.
  - destruct (last_slash_tail (code' :: codes)) as (c' & -> & Hu); [done..|]. eauto.
Qed.

Lemma group_spans name team :
  let m := mkMatch (name ++ team)
             (<[2 := (length name, length (name ++ team))]>
                (<[1 := (0, length name)]> ∅)) in
  (group m 1, group m 2) = (string_of_list_ascii name, string_of_list_ascii team).
Proof.
  cbn zeta. rewrite group_1, group_2, take_app_length, drop_app_length.
  rewrite take_ge; [done|]. rewrite length_app. lia.
Qed.

End split_round_trip.

(** X10. The splitter inverts the format of a name cell.  Take a player
    name without a line feed whose last character is neither an uppercase
    letter nor a slash, and one or more team codes of two to four uppercase
    letters each; with a single code, let the name have no slash.  From the
    name followed by the codes joined with slashes, the splitter returns the
    name and the joined codes.  (The condition on the last character is
    needed: from a name that ends in uppercase letters the pattern takes
    them into the team.) *)
Theorem split_inverts_the_cell_format
    (player : list ascii) (codes : list (list ascii)) (c : ascii) :
  Re.LF ∉ player → last player = Some c →
  is_upper c = false → c ≠ "/"%char →
  codes ≠ [] → Forall (λ code, is_team_code code = true) codes →
  (length codes = 1 → "/"%char ∉ player) →
  NBAScraper.extract_player_name_and_team
    (string_of_list_ascii (player ++ join_slash codes))
  = (string_of_list_ascii player, string_of_list_ascii (join_slash codes)).
Proof.
  intros HLF Hlast Hup Hsl Hne Hall Hsingle.
  destruct (last_join_slash codes Hne Hall) as (c' & Hlast' & Hup').
  apply upper_not_LF in Hup' as [Hc' _].
  unfold NBAScraper.extract_player_name_and_team, NBAScraper.contains_slash.
  unfold NBAScraper.standard_re, NBAScraper.multi_team_re.
  rewrite list_ascii_of_string_of_list_ascii.
  destruct codes as [|code [|code' codes]]; [done|..].
  - apply Forall_cons in Hall as [Hcode _].
    rewrite bool_decide_eq_false_2.
    2:{ intros [Hin|Hin]%elem_of_app; [by apply Hsingle|].
        cbn in Hin. rewrite app_nil_r in Hin.
        apply list_elem_of_lookup in Hin as [k Hk].
        apply is_team_code_spec in Hcode as [_ Hcode].
        by apply Hcode, upper_not_LF in Hk as [_ ?]. }
    rewrite (split_at_name false player (join_slash [code]) c c'); try done.
    + apply group_spans.
    + cbn zeta. rewrite length_app. cbn. rewrite app_nil_r.
      apply (matches_code true _ _ code []); [|done].
      by rewrite drop_app_length, app_nil_r.
  - apply Forall_cons in Hall as [Hcode Hall].
    rewrite bool_decide_eq_true_2.
    2:{ apply elem_of_app. right. cbn. apply elem_of_app. right. left. }
    rewrite (split_at_name true player (join_slash (code :: code' :: codes)) c c');
      try done.
    + apply group_spans.
    + cbn zeta. cbn [matches]. exists (length player + length code)%nat. split.
      * apply (matches_code true _ _ code (slash_tail (code' :: codes))); [|done].
        by rewrite drop_app_length.
      * exists (length (code' :: codes)). split; [simpl; lia|]. split; [done|].
        apply matches_slash_codes; [| |done].
        -- rewrite length_app. cbn [join_slash]. rewrite length_app. lia.
        -- rewrite <-drop_drop, drop_app_length. cbn [join_slash].
           by rewrite drop_app_length.
Qed.

Lemma split_inverts_the_cell_format_witness :
  NBAScraper.extract_player_name_and_team
    (string_of_list_ascii
       (list_ascii_of_string "De'Aaron Fox"
        ++ join_slash [list_ascii_of_string "SAC"; list_ascii_of_string "SA"]))
  = (string_of_list_ascii (list_ascii_of_string "De'Aaron Fox"),
     string_of_list_ascii
       (join_slash [list_ascii_of_string "SAC"; list_ascii_of_string "SA"])).
Proof.
  apply (split_inverts_the_cell_format _ _ "x"%char).
  - apply (bool_decide_unpack _). vm_compute. reflexivity.
  - reflexivity.
  - reflexivity.
  - discriminate.
  - discriminate.
  - apply (bool_decide_unpack _). vm_compute. reflexivity.
  - discriminate.
Defined.

(** A name that ends in uppercase letters loses them to the team. *)
Example split_takes_an_uppercase_ending :
  NBAScraper.extract_player_name_and_team "Robert Williams IIIBOS"
  = ("Robert Williams II", "IBOS").
Proof. vm_compute. reflexivity. Qed.

(** ** The session: one browser for all seasons *)

Section metered_run.
Context {W T F : Type} (c : Chrome W T).
Implicit Types (s : scraper (W * (nat * nat)) F) (r : run (W * (nat * nat)) F).

Lemma load_more_loop_meters (b : Browser W) n clicks (w : W) (m : nat * nat) :
  (BartTorvikScraper.load_more_loop (metered_paging b) n clicks (w, m)).2.2 = m.
Proof.
  revert clicks w. induction n as [|n IH]; intros clicks w; [done|].
  simpl. destruct (wait_clickable b w) as [[] w1]; simpl; [|done].
  destruct (click b w1) as [[] w2]; simpl; [|done]. apply IH.
Qed.

Lemma show_more_loop_meters (b : Browser W) n clicks prev (w : W) (m : nat * nat) :
  (NBAScraper.show_more_loop (metered_paging b) n clicks prev (w, m)).2.2 = m.
Proof.
  revert clicks prev w. induction n as [|n IH]; intros clicks prev w; [done|].
  simpl. destruct (wait_clickable b w) as [[] w1]; simpl; [|done].
  destruct (click b w1) as [[] w2]; simpl; [|done].
  destruct (decide (2 ≤ length (table_rows b (sleep b w2)))%nat); [|apply IH].
  destruct (decide (_ = _)); [done|apply IH].
Qed.

Lemma get_driver_in_session s :
  in_session s →
  in_session (_get_driver (metered c) s).2
  ∧ driver (_get_driver (metered c) s).2 = (_get_driver (metered c) s).1
  ∧ excel (_get_driver (metered c) s).2 = excel s.
Proof.
  intros Hs. unfold _get_driver.
  destruct (driver s) eqn:Ed; [done|].
  destruct Hs as [Hq Hl]. rewrite Ed in Hl.
  destruct s as [[w [l q]] d e]. simpl in *. subst.
  destruct (launch c w) as [[] w']; done.
Qed.

(** A call of [scrape_data] keeps the meters in step with [driver] and the
    sheet as it is; it returns a frame only with a driver held. *)
Lemma scrape_in_session url settle load_all render extract year s :
  (∀ (w : W) (m : nat * nat),
     (load_all (metered_paging (paging c)) (w, m)).2.2 = m) →
  in_session s →
  let out := scrape (metered c) url settle load_all render extract year s in
  in_session out.2 ∧ excel out.2 = excel s
  ∧ (driver s = true → driver out.2 = true)
  ∧ (∀ df, out.1 = inr df → driver out.2 = true).
Proof.
  intros Hload Hs. cbn zeta. unfold scrape.
  destruct (get_driver_in_session s Hs) as ([Hq Hl] & Hd & He).
  assert (driver s = true → (_get_driver (metered c) s).1 = true) as Hkeep.
  { intros Ed. unfold _get_driver. by rewrite Ed. }
  destruct (_get_driver (metered c) s) as [launched s1]. simpl in *.
  destruct launched; simpl.
  2:{ split_and!; [by split|done|by intros ?%Hkeep|done]. }
  destruct s1 as [[w m] d1 e1]. simpl in *. subst d1.
  destruct (get c url w) as [[] w1]; simpl; [|by split_and!; [split|..]].
  destruct (wait_present c w1) as [[] w2]; simpl; [|by split_and!; [split|..]].
  pose proof (Hload (pause c settle w2) m) as Hm.
  destruct (load_all _ _) as [k [w3 m3]]. simpl in *. subst m3.
  destruct (extract _ year); simpl; by split_and!; [split|..].
Qed.

Lemma seasons_in_session
    (scrape_data : Z → scraper (W * (nat * nat)) F
                   → (failure + DataFrame) * scraper (W * (nat * nat)) F)
    (append_to_excel : F → DataFrame → bool * F) years r :
  (∀ year s, in_session s →
     in_session (scrape_data year s).2
     ∧ excel (scrape_data year s).2 = excel s
     ∧ (driver s = true → driver (scrape_data year s).2 = true)
     ∧ (∀ df, (scrape_data year s).1 = inr df →
              driver (scrape_data year s).2 = true)) →
  in_session (self r) → ((0 < successful r)%nat → driver (self r) = true) →
  let r' := foldl (season scrape_data append_to_excel) r years in
  in_session (self r')
  ∧ (successful r' + failed r' = successful r + failed r + length years)%nat
  ∧ ((0 < successful r')%nat → driver (self r') = true)
  ∧ (driver (self r) = true → driver (self r') = true)
  ∧ (driver (self r') = false →
     excel (self r') = excel (self r)
     ∧ failed r' = (failed r + length years)%nat).
Proof.
  intros Hscrape. revert r. induction years as [|year years IH]; intros r Hs Hd.
  { simpl. split_and!; try done; lia. }
  cbn [foldl length]. set (r1 := season scrape_data append_to_excel r year).
  destruct (Hscrape year (self r) Hs) as (Hs1 & He1 & Hd1 & Hdf1).
  assert (in_session (self r1)
          ∧ (successful r1 + failed r1 = successful r + failed r + 1)%nat
          ∧ ((0 < successful r1)%nat → driver (self r1) = true)
          ∧ (driver (self r) = true → driver (self r1) = true)
          ∧ (driver (self r1) = false →
             excel (self r1) = excel (self r)
             ∧ failed r1 = (failed r + 1)%nat))
    as (Hs' & Ht' & Hd' & Hm' & He').
  { subst r1. unfold season.
    destruct (scrape_data year (self r)) as [[e|df] s1]; simpl in *.
    - split_and!; [done|lia| |done|done]. intros Hpos. by apply Hd1, Hd.
    - specialize (Hdf1 df eq_refl).
      destruct (append_to_excel (excel s1) df) as [[] file]; simpl.
      + split_and!; [done|lia|done|done|]. intros Hoff. congruence.
      + split_and!; [done|lia|done|done|]. intros Hoff. congruence. }
  destruct (IH r1 Hs' Hd') as (Hs2 & Ht2 & Hd2 & Hm2 & He2). cbn zeta in *.
  split_and!; [done|lia|done|by auto|].
  intros Hoff. destruct (He2 Hoff) as [Hex Hfail].
  assert (driver (self r1) = false) as Hoff1.
  { destruct (driver (self r1)); [|done]. by rewrite Hm2 in Hoff. }
  destruct (He' Hoff1) as [Hex1 Hfail1]. split; [congruence|lia].
Qed.

Lemma main_block_in_session
    (scrape_data : Z → scraper (W * (nat * nat)) F
                   → (failure + DataFrame) * scraper (W * (nat * nat)) F)
    (append_to_excel : F → DataFrame → bool * F) years (w : W) (file : F) :
  (∀ year s, in_session s →
     in_session (scrape_data year s).2
     ∧ excel (scrape_data year s).2 = excel s
     ∧ (driver s = true → driver (scrape_data year s).2 = true)
     ∧ (∀ df, (scrape_data year s).1 = inr df →
              driver (scrape_data year s).2 = true)) →
  let r := main_block (metered c) scrape_data append_to_excel years
             {| world := (w, (0, 0)); driver := false; excel := file |} in
  (successful r + failed r = length years)%nat
  ∧ driver (self r) = false
  ∧ (world (self r)).2.1 = (world (self r)).2.2
  ∧ ((world (self r)).2.1 ≤ 1)%nat
  ∧ ((0 < successful r)%nat → (world (self r)).2.1 = 1)
  ∧ ((world (self r)).2.1 = 0 →
     failed r = length years ∧ excel (self r) = file).
Proof.
  intros Hscrape. cbn zeta. unfold main_block.
  destruct (seasons_in_session scrape_data append_to_excel years
              {| self := {| world := (w, (0, 0)); driver := false; excel := file |};
                 successful := 0; failed := 0 |} Hscrape)
    as ([Hq Hl] & Ht & Hd & _ & He); [done|simpl; lia|].
  cbn zeta in *. cbn [self successful failed] in *.
  set (r := foldl _ _ _) in *. clearbody r. unfold close_driver.
  destruct r as [[[w' [l q]] d e] ok ko]. simpl in *. subst q.
  destruct d; simpl in *; subst l; split_and!; try done; try lia.
  intros _. destruct He as [-> ->]; done.
Qed.

End metered_run.

(** X11. One browser session serves all seasons of a run, and no session is
    left open.  Whatever the browser, the sites and the file do, the main
    block of either file counts every season once (successful and failed
    add up to 18, respectively 24), launches a browser successfully at most
    once however many seasons fail, quits every browser it launched, and
    ends without a driver; a season can succeed only with the browser
    launched, and a run in which no browser could be launched fails every
    season and leaves the file as it was.  A season that fails with the
    browser launched may have written the file. *)
Theorem one_session_serves_all_seasons :
  (∀ (W F : Type) (x : Excel F) (c : Chrome W (list (list string))) (w : W)
     (file : F),
     let r := BartTorvikRun.main x (metered c)
                {| world := (w, (0, 0)); driver := false; excel := file |} in
     (successful r + failed r = 18)%nat
     ∧ driver (self r) = false
     ∧ (world (self r)).2.1 = (world (self r)).2.2
     ∧ ((world (self r)).2.1 ≤ 1)%nat
     ∧ ((0 < successful r)%nat → (world (self r)).2.1 = 1)
     ∧ ((world (self r)).2.1 = 0 → failed r = 18 ∧ excel (self r) = file))
  ∧ (∀ (W F : Type) (x : Excel F) (c : Chrome W NBAScraper.table) (w : W)
       (file : F),
       let r := NBARun.main x (metered c)
                  {| world := (w, (0, 0)); driver := false; excel := file |} in
       (successful r + failed r = 24)%nat
       ∧ driver (self r) = false
       ∧ (world (self r)).2.1 = (world (self r)).2.2
       ∧ ((world (self r)).2.1 ≤ 1)%nat
       ∧ ((0 < successful r)%nat → (world (self r)).2.1 = 1)
       ∧ ((world (self r)).2.1 = 0 → failed r = 24 ∧ excel (self r) = file)).
Proof.
  split; intros W F x c w file.
  - apply (main_block_in_session c (BartTorvikRun.scrape_data (metered c))
             (BartTorvikRun.append_to_excel x) BartTorvikRun.years).
    intros year s Hs. apply (scrape_in_session c); [|done].
    intros w' m. apply load_more_loop_meters.
  - apply (main_block_in_session c (NBARun.scrape_data (metered c))
             (NBARun.append_to_excel x) NBARun.years).
    intros year s Hs. apply (scrape_in_session c); [|done].
    intros w' m. apply show_more_loop_meters.
Qed.

(** A season that fails after it has written: on a file whose prints raise,
    a season of source A is counted as failed, and the file holds what it
    scraped. *)
Example failed_season_has_written :
  let x := {| read_excel := λ file : option DataFrame, file;
              to_excel := λ combined_df _, (true, Some combined_df);
              report := λ _, false |} in
  let r := season (BartTorvikRun.scrape_data static_site)
                  (BartTorvikRun.append_to_excel x)
                  {| self := fresh_scraper; successful := 0; failed := 0 |}
                  2021 in
  successful r = 0 ∧ failed r = 1
  ∧ rows <$> excel (self r) = Some (norm cols_a <$> rows torvik_frame_2021).
Proof. by vm_compute. Qed.
(** ** A run of the main block: what is read of the file, season by season *)

Section scrape_facts.
Context {W T F : Type} (c : Chrome W T).

Lemma scrape_excel url settle load_all render extract year (s : scraper W F) :
  excel (scrape c url settle load_all render extract year s).2 = excel s.
Proof.
  unfold scrape, _get_driver. destruct (driver s).
  - simpl. destruct (get c url (world s)) as [[] w1]; simpl; [|done].
    destruct (wait_present c w1) as [[] w2]; simpl; [|done].
    destruct (load_all _ _) as [k w3]. by destruct (extract _ year).
  - destruct (launch c (world s)) as [[] w0]; simpl; [|done].
    destruct (get c url w0) as [[] w1]; simpl; [|done].
    destruct (wait_present c w1) as [[] w2]; simpl; [|done].
    destruct (load_all _ _) as [k w3]. by destruct (extract _ year).
Qed.

Lemma scrape_returns url settle load_all render extract year (s : scraper W F) df :
  (scrape c url settle load_all render extract year s).1 = inr df →
  ∃ tables, extract tables year = Ok df.
Proof.
  unfold scrape, _get_driver. destruct (driver s).
  - simpl. destruct (get c url (world s)) as [[] w1]; simpl; [|done].
    destruct (wait_present c w1) as [[] w2]; simpl; [|done].
    destruct (load_all _ _) as [k w3].
    destruct (extract _ year) eqn:E; simpl; [|done]. intros [= <-]. eauto.
  - destruct (launch c (world s)) as [[] w0]; simpl; [|done].
    destruct (get c url w0) as [[] w1]; simpl; [|done].
    destruct (wait_present c w1) as [[] w2]; simpl; [|done].
    destruct (load_all _ _) as [k w3].
    destruct (extract _ year) eqn:E; simpl; [|done]. intros [= <-]. eauto.
Qed.

End scrape_facts.

Section year_counts.
Implicit Types (df e sheet : DataFrame) (cols : list string) (y v year : Z).

Lemma year_row_cell r : year_row r = true → ∃ y, cell "Year" r = VInt y.
Proof. unfold year_row. destruct (cell "Year" r); eauto; done. Qed.

(** An empty frame of stamped rows has no row. *)
Lemma loaded_rows_stamped e :
  wf e → Forall (λ r, year_row r = true) (rows e) →
  loaded_rows (Some e) = rows e.
Proof.
  intros [_ Hok] Hst. unfold loaded_rows.
  destruct (load (Some e)) as [e'|] eqn:El.
  - by apply load_Some in El as [[= <-] _].
  - apply load_None in El as [|(e' & [= <-] & [Hnil|Hnil])]; [done|done|].
    destruct (rows e) as [|r rs]; [done|]. exfalso.
    apply Forall_cons in Hst as [[y Hy]%year_row_cell _].
    apply Forall_cons in Hok as [Hr _].
    assert (is_Some (r !! "Year")) as HS.
    { unfold cell in Hy. destruct (r !! "Year"); [eauto|done]. }
    apply (row_ok_lookup _ _ _ Hr) in HS. rewrite Hnil in HS.
    by apply elem_of_nil in HS.
Qed.

(** The rows of the year [v] in a merged sheet: the new records when they
    carry it, else those the merge started from. *)
Lemma merged_year_rows cols store df v year :
  "Year" ∈ cols →
  (∀ r, r ∈ rows df → r !! "Year" = Some (VInt year)) →
  filter (λ r, cell "Year" r = VInt v) (rows (merged cols store df))
  = norm cols <$>
      (if decide (v = year ∧ rows df ≠ []) then rows df
       else filter (λ r, cell "Year" r = VInt v) (loaded_rows store)).
Proof.
  intros HY Hall. unfold merged, loaded_rows. cbn [rows]. rewrite filter_app.
  assert (∀ r, r ∈ rows df → cell "Year" (norm cols r) = VInt year) as Hnew.
  { intros r Hr. rewrite cell_norm by done. by apply lookup_Year_cell, Hall. }
  destruct (decide (rows df = [])) as [Hnil|Hne].
  - rewrite decide_False by tauto. rewrite Hnil, fmap_nil, filter_nil, app_nil_r.
    destruct (load store) as [e|]; [|done].
    rewrite kept_null by (unfold year_to_append; by rewrite Hnil).
    rewrite filter_fmap_comm. f_equal. apply list_filter_iff. intros r.
    by rewrite cell_norm.
  - assert (year_to_append df = VInt year) as Hya.
    { apply year_to_append_all; [done|]. intros r Hr.
      by apply lookup_Year_cell, Hall. }
    destruct (decide (v = year)) as [->|Hv].
    + rewrite decide_True by done.
      rewrite (filter_all _ (norm cols <$> rows df)).
      2:{ intros r' (r & -> & Hr)%list_elem_of_fmap. by apply Hnew. }
      rewrite filter_none; [done|]. destruct (load store) as [e|]; [|by intros ? ?%elem_of_nil].
      rewrite kept_rows, Hya by done.
      intros r' (r & -> & [Hr _]%list_elem_of_filter)%list_elem_of_fmap.
      by rewrite cell_norm.
    + rewrite decide_False by tauto.
      rewrite (filter_none _ (norm cols <$> rows df)).
      2:{ intros r' (r & -> & Hr)%list_elem_of_fmap. rewrite Hnew by done.
          congruence. }
      rewrite app_nil_r. destruct (load store) as [e|]; [|done].
      rewrite kept_rows, Hya by done. rewrite filter_fmap_comm. f_equal.
      rewrite list_filter_filter. apply list_filter_iff. intros r.
      rewrite cell_norm by done. split; [tauto|]. intros ->.
      split; [done|congruence].
Qed.

(** A merge of stamped records into stamped rows writes stamped rows. *)
Lemma merged_stamped cols store df year :
  "Year" ∈ cols → (0 ≤ year < 10000)%Z →
  (∀ r, r ∈ rows df → r !! "Year" = Some (VInt year)) →
  Forall (λ r, year_row r = true) (loaded_rows store) →
  Forall (λ r, year_row r = true) (rows (merged cols store df)).
Proof.
  intros HY Hyear Hall Hst. unfold merged, loaded_rows in *. cbn [rows].
  apply Forall_app. split.
  - destruct (load store) as [e|]; [|done].
    rewrite kept_rows by done. rewrite Forall_fmap.
    assert (Forall (λ r, year_row (norm cols r) = true) (rows e)) as Hn.
    { eapply Forall_impl; [exact Hst|]. intros r Hr. unfold year_row in *.
      by rewrite cell_norm. }
    destruct (year_to_append df); [done|by apply Forall_filter_keep..].
  - rewrite Forall_fmap. apply Forall_forall. intros r Hr. cbn [compose].
    unfold year_row. rewrite cell_norm by done.
    rewrite (lookup_Year_cell _ _ (Hall r Hr)).
    by apply bool_decide_eq_true.
Qed.

End year_counts.

Section file_facts.
Context {F : Type} (x : Excel F).
Hypothesis Hkeeps : keeps_years x.
Implicit Types (df e sheet : DataFrame) (file : F) (y v year : Z).

Lemma year_rows_loaded file v :
  stamped x file →
  year_rows x v file
  = filter (λ r, cell "Year" r = VInt v) (loaded_rows (read_excel x file)).
Proof.
  intros Hst. unfold year_rows. destruct (read_excel x file) as [e|] eqn:E; [|done].
  destruct (Hst e E) as [Hwf Hrows]. by rewrite loaded_rows_stamped.
Qed.

Lemma loaded_stamped file :
  stamped x file → Forall (λ r, year_row r = true) (loaded_rows (read_excel x file)).
Proof.
  intros Hst. destruct (read_excel x file) as [e|] eqn:E; [|by constructor].
  destruct (Hst e E) as [Hwf Hrows]. by rewrite loaded_rows_stamped.
Qed.

(** Saving a merge of stamped records: the file is stamped again, and has
    under every year the rows the merged sheet has. *)
Lemma save_merged cols store df year file v :
  NoDup cols → "Year" ∈ cols → (0 ≤ year < 10000)%Z →
  (∀ r, r ∈ rows df → r !! "Year" = Some (VInt year)) →
  Forall (λ r, year_row r = true) (loaded_rows store) →
  let file' := (save x (merged cols store df) file).2 in
  stamped x file'
  ∧ length (year_rows x v file')
    = if decide (v = year ∧ rows df ≠ []) then length (rows df)
      else length (filter (λ r, cell "Year" r = VInt v) (loaded_rows store)).
Proof.
  intros Hnd HY Hyear Hall Hst. cbn zeta.
  destruct (Hkeeps (merged cols store df) file) as (_ & e & He & Hwf & Hsame);
    [by apply merged_wf|by eapply merged_stamped|].
  assert ((save x (merged cols store df) file).2
          = (to_excel x (merged cols store df) file).2) as ->.
  { unfold save. by destruct (to_excel x _ file). }
  split.
  - intros e' He'. rewrite He in He'. injection He' as <-. split; [done|].
    pose proof (merged_stamped cols store df year HY Hyear Hall Hst) as Hm.
    unfold same_years in Hsame. clear -Hsame Hm.
    induction Hsame as [|r r' l l' Hr _ IH]; [done|].
    apply Forall_cons in Hm as [Hm1 Hm2]. constructor; [|by apply IH].
    unfold year_row in *. by rewrite Hr.
  - unfold year_rows. rewrite He.
    rewrite (filter_length_Forall2 (λ r, cell "Year" r = VInt v)
               (λ r, cell "Year" r = VInt v) (rows (merged cols store df))).
    + rewrite (merged_year_rows _ _ _ _ year) by done. rewrite length_fmap.
      by destruct (decide _).
    + eapply Forall2_impl; [exact Hsame|]. intros r r' ->. done.
Qed.

End file_facts.

(** The rows of a year a run leaves in the file, for a main block whose
    calls are given by what they do to the file. *)
Section run_counts.
Context {W T F : Type} (x : Excel F).
Variable scrape_data : Z → scraper W F → (failure + DataFrame) * scraper W F.
Variable append_to_excel : F → DataFrame → bool * F.
Implicit Types (df : DataFrame) (file : F) (y v year : Z) (r : run W F).

Hypothesis scrape_keeps_file :
  ∀ year s, excel (scrape_data year s).2 = excel s.
Hypothesis scrape_frames :
  ∀ year s df, (scrape_data year s).1 = inr df →
    wf df ∧ ∀ row, row ∈ rows df → row !! "Year" = Some (VInt year).
Hypothesis append_counts :
  ∀ file df year v,
    stamped x file → (0 ≤ year < 10000)%Z → wf df →
    (∀ row, row ∈ rows df → row !! "Year" = Some (VInt year)) →
    stamped x (append_to_excel file df).2
    ∧ length (year_rows x v (append_to_excel file df).2)
      = if decide (v = year ∧ rows df ≠ []) then length (rows df)
        else length (year_rows x v file).

Lemma season_counts r year v :
  stamped x (excel (self r)) → (0 ≤ year < 10000)%Z →
  let r' := season scrape_data append_to_excel r year in
  stamped x (excel (self r'))
  ∧ length (year_rows x v (excel (self r')))
    = match (scrape_data year (self r)).1 with
      | inr df => if decide (v = year ∧ rows df ≠ []) then length (rows df)
                  else length (year_rows x v (excel (self r)))
      | inl _ => length (year_rows x v (excel (self r)))
      end.
Proof.
  intros Hst Hyear. cbn zeta. unfold season.
  pose proof (scrape_keeps_file year (self r)) as Hex.
  pose proof (scrape_frames year (self r)) as Hall.
  destruct (scrape_data year (self r)) as [[e|df] s']; cbn [fst snd] in *.
  - cbn [self excel]. by rewrite Hex.
  - destruct (Hall df eq_refl) as [Hwf Hstamp]. rewrite Hex.
    destruct (append_counts (excel (self r)) df year v Hst Hyear Hwf Hstamp)
      as [Hst' Hcount].
    destruct (append_to_excel (excel (self r)) df) as [[] file'];
      cbn [fst snd self excel] in *; done.
Qed.

Lemma seasons_stamped r years :
  stamped x (excel (self r)) → Forall (λ year, 0 ≤ year < 10000)%Z years →
  stamped x (excel (self (foldl (season scrape_data append_to_excel) r years))).
Proof.
  revert r. induction years as [|year years IH]; intros r Hst Hy; [done|].
  apply Forall_cons in Hy as [Hyear Hy]. cbn [foldl]. apply IH; [|done].
  by apply (season_counts r year 0).
Qed.

(** The seasons of other years leave the number of rows of the year [v]
    as it is. *)
Lemma seasons_keep_count r years v :
  stamped x (excel (self r)) → Forall (λ year, 0 ≤ year < 10000)%Z years →
  v ∉ years →
  length (year_rows x v
            (excel (self (foldl (season scrape_data append_to_excel) r years))))
  = length (year_rows x v (excel (self r))).
Proof.
  revert r. induction years as [|year years IH]; intros r Hst Hy Hv; [done|].
  apply Forall_cons in Hy as [Hyear Hy]. apply not_elem_of_cons in Hv as [Hne Hv].
  cbn [foldl]. destruct (season_counts r year v Hst Hyear) as [Hst' Hcount].
  cbn zeta in *. rewrite IH by done. rewrite Hcount.
  destruct (scrape_data year (self r)).1 as [e|df]; [done|].
  by rewrite decide_False by tauto.
Qed.

Lemma main_block_excel (c : Chrome W T) years (scraper0 : scraper W F) :
  excel (self (main_block c scrape_data append_to_excel years scraper0))
  = excel (self (foldl (season scrape_data append_to_excel)
                       {| self := scraper0; successful := 0; failed := 0 |}
                       years)).
Proof. unfold main_block, close_driver. cbn [self]. by destruct (driver _). Qed.

(** A season that was scraped with at least one record has that many rows
    in the file the run leaves. *)
Lemma run_keeps_scraped (c : Chrome W T) years before after y df
    (scraper0 : scraper W F) :
  years = before ++ y :: after → NoDup years →
  Forall (λ year, 0 ≤ year < 10000)%Z years →
  stamped x (excel scraper0) →
  (scrape_data y
     (self (foldl (season scrape_data append_to_excel)
                  {| self := scraper0; successful := 0; failed := 0 |}
                  before))).1 = inr df →
  rows df ≠ [] →
  length (year_rows x y
            (excel (self (main_block c scrape_data append_to_excel years
                            scraper0))))
  = length (rows df).
Proof.
  intros -> Hnd Hvalid Hst Hdf Hrows. rewrite main_block_excel, foldl_app.
  cbn [foldl]. set (r1 := foldl _ _ before) in *.
  apply Forall_app in Hvalid as [Hbefore [Hy Hafter]%Forall_cons].
  apply NoDup_app in Hnd as (_ & _ & [Hnotin _]%NoDup_cons).
  assert (stamped x (excel (self r1))) as Hst1 by by apply seasons_stamped.
  destruct (season_counts r1 y y Hst1 Hy) as [Hst2 Hcount]. cbn zeta in *.
  rewrite seasons_keep_count by done. rewrite Hcount, Hdf.
  by rewrite decide_True.
Qed.

(** The rows of a year the run does not scrape are as many as before. *)
Lemma run_keeps_others (c : Chrome W T) years v (scraper0 : scraper W F) :
  Forall (λ year, 0 ≤ year < 10000)%Z years → v ∉ years →
  stamped x (excel scraper0) →
  stamped x (excel (self (main_block c scrape_data append_to_excel years
                            scraper0)))
  ∧ length (year_rows x v
              (excel (self (main_block c scrape_data append_to_excel years
                              scraper0))))
    = length (year_rows x v (excel scraper0)).
Proof.
  intros Hvalid Hv Hst. rewrite main_block_excel. split.
  - by apply seasons_stamped.
  - by rewrite seasons_keep_count.
Qed.

End run_counts.

Section run_a.
Context {W F : Type} (x : Excel F) (c : Chrome W (list (list string))).
Hypothesis Hkeeps : keeps_years x.
Implicit Types (s : scraper W F) (df : DataFrame) (y v year : Z).

Lemma scrape_a_excel year s :
  excel (BartTorvikRun.scrape_data c year s).2 = excel s.
Proof. apply scrape_excel. Qed.

Lemma scrape_a_frame year s df :
  (BartTorvikRun.scrape_data c year s).1 = inr df →
  wf df ∧ ∀ row, row ∈ rows df → row !! "Year" = Some (VInt year).
Proof.
  intros [tables Hdf]%scrape_returns. split; [by eapply extract_a_wf|].
  apply extract_a_inv in Hdf as (_ & _ & ->). intros row. apply set_column_stamp.
Qed.

Lemma append_a_counts (file : F) df year v :
  stamped x file → (0 ≤ year < 10000)%Z → wf df →
  (∀ row, row ∈ rows df → row !! "Year" = Some (VInt year)) →
  stamped x (BartTorvikRun.append_to_excel x file df).2
  ∧ length (year_rows x v (BartTorvikRun.append_to_excel x file df).2)
    = if decide (v = year ∧ rows df ≠ []) then length (rows df)
      else length (year_rows x v file).
Proof.
  intros Hst Hyear Hwf Hall. unfold BartTorvikRun.append_to_excel.
  rewrite append_to_excel_a_shape; [|done|].
  2:{ intros e He. by apply Hst. }
  rewrite (year_rows_loaded x file v Hst).
  apply (save_merged x Hkeeps cols_a (read_excel x file) df year file v);
    [apply cols_a_NoDup|apply cols_a_Year|done..|by apply loaded_stamped].
Qed.

End run_a.

Section run_b.
Context {W F : Type} (x : Excel F) (c : Chrome W NBAScraper.table).
Hypothesis Hkeeps : keeps_years x.
Implicit Types (s : scraper W F) (df : DataFrame) (y v year : Z).

Lemma scrape_b_excel year s :
  excel (NBARun.scrape_data c year s).2 = excel s.
Proof. apply scrape_excel. Qed.

Lemma scrape_b_frame year s df :
  (NBARun.scrape_data c year s).1 = inr df →
  wf df ∧ ∀ row, row ∈ rows df → row !! "Year" = Some (VInt year).
Proof.
  intros [tables Hdf]%scrape_returns.
  pose proof (extract_b_frame _ _ _ Hdf) as (Hwf & HY & _).
  split; [done|].
  apply extract_b_inv in Hdf as (? & ? & ? & ? & _ & _ & ->).
  intros row. apply set_column_stamp.
Qed.

Lemma append_b_counts (file : F) df year v :
  stamped x file → (0 ≤ year < 10000)%Z → wf df →
  (∀ row, row ∈ rows df → row !! "Year" = Some (VInt year)) →
  stamped x (NBARun.append_to_excel x file df).2
  ∧ length (year_rows x v (NBARun.append_to_excel x file df).2)
    = if decide (v = year ∧ rows df ≠ []) then length (rows df)
      else length (year_rows x v file).
Proof.
  intros Hst Hyear Hwf Hall. unfold NBARun.append_to_excel.
  destruct (decide (rows df = [])) as [Hnil|Hrows].
  - assert (empty df = true) as ->.
    { unfold empty. by rewrite (bool_decide_eq_true_2 _ Hnil). }
    cbn [snd]. split; [done|]. by rewrite decide_False by tauto.
  - assert ("Year" ∈ columns df) as HY by by eapply has_Year_column.
    assert (empty df = false) as Hne.
    { apply not_empty; [done|]. intros Hc. rewrite Hc in HY.
      by apply elem_of_nil in HY. }
    rewrite Hne. rewrite append_to_excel_b_shape; [|done| |done].
    2:{ intros e He. by apply Hst. }
    rewrite (year_rows_loaded x file v Hst).
    apply (save_merged x Hkeeps (cols_b (read_excel x file) df)
             (read_excel x file) df year file v);
      [by apply cols_b_NoDup|apply cols_b_elem; by left|done..
      |by apply loaded_stamped].
Qed.

End run_b.

Section run_years.

Lemma years_a_valid : Forall (λ year, 0 ≤ year < 10000)%Z BartTorvikRun.years.
Proof. apply (bool_decide_unpack _). by vm_compute. Qed.

Lemma years_a_NoDup : NoDup BartTorvikRun.years.
Proof. apply (bool_decide_unpack _). by vm_compute. Qed.

Lemma years_b_valid : Forall (λ year, 0 ≤ year < 10000)%Z NBARun.years.
Proof. apply (bool_decide_unpack _). by vm_compute. Qed.

Lemma years_b_NoDup : NoDup NBARun.years.
Proof. apply (bool_decide_unpack _). by vm_compute. Qed.

End run_years.

(** The file of [typed_file] is read with the years it was written with. *)
Section typed.

Lemma retype_lookup df (r : gmap string value) col :
  retype_row df r !! col
  = (λ v, if numeric_column df col then to_number v else v) <$> r !! col.
Proof. unfold retype_row. rewrite map_lookup_imap. by destruct (r !! col). Qed.

Lemma retype_wf df : wf df → wf (retype df).
Proof.
  intros [Hnd Hok]. split; [done|]. unfold retype. cbn [columns rows].
  rewrite Forall_fmap. eapply Forall_impl; [exact Hok|]. intros r Hr.
  unfold compose, row_ok in *. rewrite <-Hr. apply set_eq. intros col.
  rewrite !elem_of_dom, retype_lookup. by rewrite fmap_is_Some.
Qed.

Lemma retype_same_years df :
  Forall (λ r, year_row r = true) (rows df) → same_years df (retype df).
Proof.
  intros Hst. unfold same_years, retype. cbn [rows].
  apply Forall2_fmap_r, Forall_Forall2_diag.
  eapply Forall_impl; [exact Hst|]. intros r [y Hy]%year_row_cell.
  unfold compose, cell in *. rewrite retype_lookup.
  destruct (r !! "Year") as [v|]; [|done]. simpl in *. subst v.
  by destruct (numeric_column df "Year").
Qed.

Lemma typed_file_keeps_years : keeps_years typed_file.
Proof.
  intros sheet file Hwf Hst. split; [done|]. exists (retype sheet).
  split_and!; [done|by apply retype_wf|by apply retype_same_years].
Qed.

End typed.

(** ** The address of a season *)

Section urls.

Lemma list_ascii_of_app (a b : string) :
  list_ascii_of_string (a +:+ b)
  = list_ascii_of_string a ++ list_ascii_of_string b.
Proof.
  induction a as [|x a IH]; [done|].
  change (x :: list_ascii_of_string (a +:+ b)
          = x :: (list_ascii_of_string a ++ list_ascii_of_string b)).
  by rewrite IH.
Qed.

Lemma list_ascii_of_string_inj (a b : string) :
  list_ascii_of_string a = list_ascii_of_string b → a = b.
Proof.
  intros H. rewrite <-(string_of_list_ascii_of_string a),
    <-(string_of_list_ascii_of_string b). by rewrite H.
Qed.

Lemma append_inv_tail (a b t : string) : a +:+ t = b +:+ t → a = b.
Proof.
  intros H. apply list_ascii_of_string_inj.
  apply (f_equal list_ascii_of_string) in H. rewrite !list_ascii_of_app in H.
  by apply app_inv_tail in H.
Qed.

(** Two texts that agree up to and after the first separator. *)
Lemma app_sep_inj {A} (x : A) (p1 p2 r1 r2 : list A) :
  x ∉ p1 → x ∉ p2 → p1 ++ x :: r1 = p2 ++ x :: r2 → p1 = p2.
Proof.
  revert p2. induction p1 as [|a p1 IH]; intros [|b p2] H1 H2 H; simpl in *.
  - done.
  - injection H as -> _. destruct H2. left.
  - injection H as -> _. destruct H1. left.
  - injection H as -> H. f_equal. apply (IH p2); [| |done].
    + intros ?. apply H1. by right.
    + intros ?. apply H2. by right.
Qed.

Lemma pretty_N_go_chars x s c :
  c ∈ list_ascii_of_string (pretty_N_go x s) →
  c ∈ list_ascii_of_string s ∨ digit_or_dash c.
Proof.
  revert s. induction (N.lt_wf_0 x) as [x _ IH]; intros s.
  assert (x = 0 ∨ 0 < x)%N as [->|?] by lia.
  - rewrite pretty_N_go_0. by left.
  - rewrite pretty_N_go_step by done. intros Hin.
    apply IH in Hin; [|by apply N.div_lt].
    destruct Hin as [Hin|Hin]; [|by right].
    apply elem_of_cons in Hin as [->|Hin]; [|by left].
    right. right. unfold pretty_N_char.
    repeat case_match; vm_compute; split; discriminate.
Qed.

Lemma pretty_Z_chars (z : Z) c :
  c ∈ list_ascii_of_string (pretty z) → digit_or_dash c.
Proof.
  assert (∀ n : N, c ∈ list_ascii_of_string (pretty n) → digit_or_dash c) as HN.
  { intros n. unfold pretty, pretty_N. case_decide.
    - intros ->%list_elem_of_singleton. right. vm_compute. split; discriminate.
    - intros [Hin|Hin]%pretty_N_go_chars; [by apply elem_of_nil in Hin|done]. }
  unfold pretty, pretty_Z. destruct z as [|p|p].
  - intros ->%list_elem_of_singleton. right. vm_compute. split; discriminate.
  - apply (HN (Npos p)).
  - rewrite list_ascii_of_app. intros [->%list_elem_of_singleton|Hin]%elem_of_app.
    + by left.
    + by apply (HN (Npos p)).
Qed.

End urls.

(** X14. Every season has an address of its own: for either source the
    address of a season determines the season, so no two seasons of a run
    are scraped from the same address.  The address of source A carries the
    year, November 1 of the year before and May 1 of the year; that of
    source B the year. *)
Theorem seasons_have_their_own_address :
  (∀ y1 y2 : Z, BartTorvikRun.get_url y1 = BartTorvikRun.get_url y2 → y1 = y2)
  ∧ (∀ y1 y2 : Z, NBARun.get_url y1 = NBARun.get_url y2 → y1 = y2)
  ∧ NoDup (BartTorvikRun.get_url <$> BartTorvikRun.years)
  ∧ NoDup (NBARun.get_url <$> NBARun.years)
  ∧ BartTorvikRun.get_url 2024
    = "https://barttorvik.com/playerstat.php?link=y&year=2024&start=20231101&end=20240501"
  ∧ NBARun.get_url 2024
    = "https://www.espn.com/nba/stats/player/_/season/2024/seasontype/2".
Proof.
  assert (∀ y1 y2 : Z, BartTorvikRun.get_url y1 = BartTorvikRun.get_url y2 → y1 = y2)
    as Ha.
  { intros y1 y2 H. unfold BartTorvikRun.get_url in H.
    apply (inj (String.append _)) in H. apply (inj (String.append _)) in H.
    apply (f_equal list_ascii_of_string) in H.
    rewrite !(list_ascii_of_app (pretty _)) in H.
    apply (inj pretty), list_ascii_of_string_inj.
    apply (app_sep_inj "&"%char _ _ _ _) in H; [done|..];
      intros [Hd|Hd]%pretty_Z_chars; [discriminate Hd|vm_compute in Hd|
                                       discriminate Hd|vm_compute in Hd];
      by destruct Hd as [Hd _]. }
  assert (∀ y1 y2 : Z, NBARun.get_url y1 = NBARun.get_url y2 → y1 = y2) as Hb.
  { intros y1 y2 H. unfold NBARun.get_url in H.
    apply (inj (String.append _)) in H.
    by apply append_inv_tail, (inj pretty) in H. }
  split_and!; [done|done| | |by vm_compute..].
  - apply (NoDup_fmap_2_strong _); [|compute_done]. intros y1 y2 _ _. apply Ha.
  - apply (NoDup_fmap_2_strong _); [|compute_done]. intros y1 y2 _ _. apply Hb.
Qed.

(** X12. After a run of source A's main block the file holds, for a season
    that was scraped with at least one record, exactly as many rows of that
    year as the scrape gave records: the seasons that fail before or after
    it, the merges of the other seasons, and the reads between the merges
    neither remove nor add a row of that year.  This holds for every file
    that returns the rows of a sheet stamped with years in their order and
    with their years ([keeps_years]), and that is read with stamped rows
    when the run starts; the other cells of a row are what the last read
    made of them. *)
Theorem main_keeps_a_scraped_season
    (W F : Type) (x : Excel F) (c : Chrome W (list (list string)))
    (scraper0 : scraper W F) (before after : list Z) (y : Z) (df : DataFrame) :
  keeps_years x → stamped x (excel scraper0) →
  BartTorvikRun.years = before ++ y :: after →
  (BartTorvikRun.scrape_data c y
     (self (foldl (season (BartTorvikRun.scrape_data c)
                          (BartTorvikRun.append_to_excel x))
                  {| self := scraper0; successful := 0; failed := 0 |}
                  before))).1 = inr df →
  rows df ≠ [] →
  length (year_rows x y (excel (self (BartTorvikRun.main x c scraper0))))
  = length (rows df).
Proof.
  intros Hkeeps Hst Hyears Hdf Hrows. unfold BartTorvikRun.main.
  pose proof years_a_valid as Hvalid. pose proof years_a_NoDup as Hnd.
  revert Hyears Hvalid Hnd. generalize BartTorvikRun.years.
  intros years Hyears Hvalid Hnd.
  apply (run_keeps_scraped x (BartTorvikRun.scrape_data c)
           (BartTorvikRun.append_to_excel x) (scrape_a_excel c)
           (scrape_a_frame c) (append_a_counts x Hkeeps) c years before after);
    done.
Qed.

Lemma main_keeps_a_scraped_season_witness :
  length (year_rows typed_file 2021
            (excel (self (BartTorvikRun.main typed_file static_site
                            fresh_scraper))))
  = length (rows torvik_frame_2021).
Proof.
  apply (main_keeps_a_scraped_season unit (option DataFrame) typed_file
           static_site fresh_scraper
           (take 4 BartTorvikRun.years) (drop 5 BartTorvikRun.years) 2021).
  - apply typed_file_keeps_years.
  - intros e He. vm_compute in He. discriminate.
  - vm_compute. reflexivity.
  - vm_compute. reflexivity.
  - vm_compute. discriminate.
Defined.

(** What that run leaves of the season 2021: one row, with its rank read
    back as a number. *)
Example scraped_season_sample :
  (λ r, (cell "Rk" r, cell "Player" r, cell "Year" r))
    <$> year_rows typed_file 2021
          (excel (self (BartTorvikRun.main typed_file static_site fresh_scraper)))
  = [(VInt 1, VStr "Zach Edey", VInt 2021)]
  ∧ (cell "Rk" <$> rows torvik_frame_2021) = [VStr "1"].
Proof. by vm_compute. Qed.

(** X13. After a run of source B's main block the file holds, for a season
    that was scraped with at least one record, exactly as many rows of that
    year as the scrape gave records, under the same conditions on the file
    as for source A; a season that comes back empty leaves the file alone. *)
Theorem main_keeps_a_scraped_nba_season
    (W F : Type) (x : Excel F) (c : Chrome W NBAScraper.table)
    (scraper0 : scraper W F) (before after : list Z) (y : Z) (df : DataFrame) :
  keeps_years x → stamped x (excel scraper0) →
  NBARun.years = before ++ y :: after →
  (NBARun.scrape_data c y
     (self (foldl (season (NBARun.scrape_data c) (NBARun.append_to_excel x))
                  {| self := scraper0; successful := 0; failed := 0 |}
                  before))).1 = inr df →
  rows df ≠ [] →
  length (year_rows x y (excel (self (NBARun.main x c scraper0))))
  = length (rows df).
Proof.
  intros Hkeeps Hst Hyears Hdf Hrows. unfold NBARun.main.
  pose proof years_b_valid as Hvalid. pose proof years_b_NoDup as Hnd.
  revert Hyears Hvalid Hnd. generalize NBARun.years.
  intros years Hyears Hvalid Hnd.
  apply (run_keeps_scraped x (NBARun.scrape_data c)
           (NBARun.append_to_excel x) (scrape_b_excel c)
           (scrape_b_frame c) (append_b_counts x Hkeeps) c years before after);
    done.
Qed.

Lemma main_keeps_a_scraped_nba_season_witness :
  length (year_rows typed_file 2021
            (excel (self (NBARun.main typed_file static_nba_site fresh_scraper))))
  = length (rows nba_frame_2021).
Proof.
  apply (main_keeps_a_scraped_nba_season unit (option DataFrame) typed_file
           static_nba_site fresh_scraper
           (take 19 NBARun.years) (drop 20 NBARun.years) 2021).
  - apply typed_file_keeps_years.
  - intros e He. vm_compute in He. discriminate.
  - vm_compute. reflexivity.
  - vm_compute. reflexivity.
  - vm_compute. discriminate.
Defined.

(** What that run leaves of the season 2021: the two records, with the
    ranks and the games read back as numbers. *)
Example scraped_nba_season_sample :
  (λ r, (cell "RK" r, cell "Player" r, cell "GP" r))
    <$> year_rows typed_file 2021
          (excel (self (NBARun.main typed_file static_nba_site fresh_scraper)))
  = [(VInt 1, VStr "ray allen", VInt 70);
     (VInt 2, VStr "De'Aaron Fox", VInt 65)].
Proof. by vm_compute. Qed.

(** X15. A run of source A's main block neither removes nor adds a row of a
    year it does not scrape: for every file that keeps the years of what is
    written ([keeps_years]) and is read with stamped rows when the run
    starts, the file the run leaves is read with stamped rows, and with as
    many rows of that year as before. *)
Theorem main_keeps_the_other_seasons
    (W F : Type) (x : Excel F) (c : Chrome W (list (list string)))
    (scraper0 : scraper W F) (v : Z) :
  keeps_years x → stamped x (excel scraper0) → v ∉ BartTorvikRun.years →
  stamped x (excel (self (BartTorvikRun.main x c scraper0)))
  ∧ length (year_rows x v (excel (self (BartTorvikRun.main x c scraper0))))
    = length (year_rows x v (excel scraper0)).
Proof.
  intros Hkeeps Hst. unfold BartTorvikRun.main.
  pose proof years_a_valid as Hvalid. revert Hvalid.
  generalize BartTorvikRun.years. intros years Hvalid Hv.
  apply (run_keeps_others x (BartTorvikRun.scrape_data c)
           (BartTorvikRun.append_to_excel x) (scrape_a_excel c)
           (scrape_a_frame c) (append_a_counts x Hkeeps) c years v); done.
Qed.

Lemma main_keeps_the_other_seasons_witness :
  stamped typed_file
    (excel (self (BartTorvikRun.main typed_file static_site scraper_1999)))
  ∧ length (year_rows typed_file 1999
              (excel (self (BartTorvikRun.main typed_file static_site
                              scraper_1999))))
    = length (year_rows typed_file 1999 (excel scraper_1999)).
Proof.
  apply (main_keeps_the_other_seasons unit (option DataFrame) typed_file
           static_site scraper_1999 1999).
  - apply typed_file_keeps_years.
  - intros e He. vm_compute in He. injection He as <-.
    split; apply (bool_decide_unpack _); vm_compute; reflexivity.
  - apply (bool_decide_unpack _). vm_compute. reflexivity.
Defined.

(** What that run leaves of 1999 and of 2021 in a file that held a row of
    each: the row of 1999, brought to the whitelist, and the record
    scraped for 2021 in place of the old row. *)
Example other_seasons_sample :
  (λ r, (cell "Rk" r, cell "Year" r))
    <$> year_rows typed_file 1999
          (excel (self (BartTorvikRun.main typed_file static_site scraper_1999)))
  = [(VInt 1, VInt 1999)]
  ∧ (λ r, (cell "Player" r, cell "Year" r))
      <$> year_rows typed_file 2021
            (excel (self (BartTorvikRun.main typed_file static_site
                            scraper_1999)))
    = [(VStr "Zach Edey", VInt 2021)].
Proof. by vm_compute. Qed.

(** X16. The same for source B. *)
Theorem main_keeps_the_other_nba_seasons
    (W F : Type) (x : Excel F) (c : Chrome W NBAScraper.table)
    (scraper0 : scraper W F) (v : Z) :
  keeps_years x → stamped x (excel scraper0) → v ∉ NBARun.years →
  stamped x (excel (self (NBARun.main x c scraper0)))
  ∧ length (year_rows x v (excel (self (NBARun.main x c scraper0))))
    = length (year_rows x v (excel scraper0)).
Proof.
  intros Hkeeps Hst. unfold NBARun.main.
  pose proof years_b_valid as Hvalid. revert Hvalid.
  generalize NBARun.years. intros years Hvalid Hv.
  apply (run_keeps_others x (NBARun.scrape_data c)
           (NBARun.append_to_excel x) (scrape_b_excel c)
           (scrape_b_frame c) (append_b_counts x Hkeeps) c years v); done.
Qed.

Lemma main_keeps_the_other_nba_seasons_witness :
  stamped typed_file
    (excel (self (NBARun.main typed_file static_nba_site scraper_1999)))
  ∧ length (year_rows typed_file 1999
              (excel (self (NBARun.main typed_file static_nba_site
                              scraper_1999))))
    = length (year_rows typed_file 1999 (excel scraper_1999)).
Proof.
  apply (main_keeps_the_other_nba_seasons unit (option DataFrame) typed_file
           static_nba_site scraper_1999 1999).
  - apply typed_file_keeps_years.
  - intros e He. vm_compute in He. injection He as <-.
    split; apply (bool_decide_unpack _); vm_compute; reflexivity.
  - apply (bool_decide_unpack _). vm_compute. reflexivity.
Defined.

(** What that run leaves of 1999: the row, with the labels the seasons
    added and with its foreign field. *)
Example other_nba_seasons_sample :
  (λ r, (cell "Rk" r, cell "Scout" r, cell "Player" r, cell "Year" r))
    <$> year_rows typed_file 1999
          (excel (self (NBARun.main typed_file static_nba_site scraper_1999)))
  = [(VInt 1, VStr "x", VNull, VInt 1999)].
Proof. by vm_compute. Qed.

(** ** The name splitter: the fallback, and the shape of what it returns *)

Section split_fallback.
Import Re NBAScraper.
Implicit Types (s name rest : list ascii).

Lemma upper_at_lookup l k :
  upper_at l k = true → ∃ c, l !! k = Some c ∧ in_range "A" "Z" c = true.
Proof.
  unfold upper_at. destruct (l !! k) as [c|]; [|done]. intros H. by exists c.
Qed.

(** The fallback pattern splits at the first place, after the first
    character, where two uppercase letters follow. *)
Lemma fallback_first name rest :
  let s := name ++ rest in
  name ≠ [] → LF ∉ name →
  upper_at rest 0 = true → upper_at rest 1 = true →
  (∀ p, (1 ≤ p < length name)%nat →
        ¬ (upper_at s p = true ∧ upper_at s (Datatypes.S p) = true)) →
  ∃ p2, re_match fallback_re (string_of_list_ascii s)
        = Some (mkMatch s (<[2 := (length name, p2)]>
                             (<[1 := (0, length name)]> ∅))).
Proof.
  intros s Hne HLF Hu0 Hu1 Hfirst.
  assert (length name ≠ 0) as Hn by by intros ?%nil_length_inv.
  set (st := mkState (length name) (<[1 := (0, length name)]> ∅)).
  assert (∃ y, head (exec (Group 2 (Rep AZ 2 (Some 4) true)) s st) = Some y)
    as [y Hy].
  { destruct (exec_complete (Group 2 (Rep AZ 2 (Some 4) true)) s st
                (length name + 2)) as (st' & Hin & _).
    - cbn [matches pos st]. exists 2. split_and!; [lia..|].
      apply power_range_intro. intros k Hk.
      destruct (decide (k = length name)) as [->|Hk'].
      + apply upper_at_lookup in Hu0 as (c0 & Hc0 & Hr0). exists c0.
        split; [|done]. unfold s. rewrite lookup_app_r by lia.
        by rewrite Nat.sub_diag.
      + apply upper_at_lookup in Hu1 as (c1 & Hc1 & Hr1). exists c1.
        split; [|done]. unfold s. rewrite lookup_app_r by lia.
        by replace (k - length name)%nat with 1 by lia.
    - destruct (exec _ s st) as [|y l]; [by apply elem_of_nil in Hin|].
      by exists y. }
  assert (y ∈ exec (Group 2 (Rep AZ 2 (Some 4) true)) s st) as Hin
    by by apply head_Some_elem_of.
  apply exec_Group in Hin as (a & Ha & ->).
  pose proof (exec_caps (Rep AZ 2 (Some 4) true) _ _ _ eq_refl Ha) as Hca.
  exists (pos a). unfold re_match. rewrite list_ascii_of_string_of_list_ascii.
  unfold fallback_re. erewrite (first_split _ s (length name)); [| | | |exact Hy].
  - cbn. by rewrite Hca.
  - lia.
  - intros k Hk. destruct (lookup_lt_is_Some_2 name k Hk) as [x Hx].
    exists x. split; [unfold s; by rewrite lookup_app_l|].
    intros ->. apply HLF. by eapply list_elem_of_lookup_2.
  - intros p Hp. apply elem_of_nil_inv. intros st' Hin.
    apply exec_sound in Hin. cbn [matches pos] in Hin.
    apply matches_team in Hin as [Hlen Hup]. apply (Hfirst p Hp).
    split; apply Hup; lia.
Qed.

End split_fallback.

(** X17. A text with a slash that the multi-team pattern does not match is
    split by the fallback at the first place, after its first character,
    where two uppercase letters follow: the player name is what comes
    before (it holds no line feed), the team is all the rest of the text,
    whatever it holds. *)
Theorem fallback_splits_at_the_first_code (name rest : list ascii) :
  let text := string_of_list_ascii (name ++ rest) in
  "/"%char ∈ name ++ rest →
  Re.re_match NBAScraper.multi_team_re text = None →
  name ≠ [] → Re.LF ∉ name →
  upper_at rest 0 = true → upper_at rest 1 = true →
  (∀ p, (1 ≤ p < length name)%nat →
        ¬ (upper_at (name ++ rest) p = true
           ∧ upper_at (name ++ rest) (S p) = true)) →
  NBAScraper.extract_player_name_and_team text
  = (string_of_list_ascii name, string_of_list_ascii rest).
Proof.
  intros text Hslash Hmulti Hne HLF Hu0 Hu1 Hfirst.
  destruct (fallback_first name rest Hne HLF Hu0 Hu1 Hfirst) as [p2 Hm].
  subst text.
  unfold NBAScraper.extract_player_name_and_team, NBAScraper.contains_slash.
  rewrite Hmulti, Hm.
  rewrite (list_ascii_of_string_of_list_ascii (name ++ rest)).
  rewrite bool_decide_eq_true_2 by done.
  rewrite group_1, take_app_length. f_equal.
  unfold NBAScraper.slice_from.
  rewrite string_length_of, (list_ascii_of_string_of_list_ascii (name ++ rest)).
  by rewrite drop_app_length.
Qed.

Lemma fallback_splits_at_the_first_code_witness :
  NBAScraper.extract_player_name_and_team
    (string_of_list_ascii (list_ascii_of_string "J. Smith"
                           ++ list_ascii_of_string "LAL/B"))
  = (string_of_list_ascii (list_ascii_of_string "J. Smith"),
     string_of_list_ascii (list_ascii_of_string "LAL/B")).
Proof.
  apply (fallback_splits_at_the_first_code
           (list_ascii_of_string "J. Smith") (list_ascii_of_string "LAL/B")).
  - apply (bool_decide_unpack _). vm_compute. reflexivity.
  - vm_compute. reflexivity.
  - discriminate.
  - apply (bool_decide_unpack _). vm_compute. reflexivity.
  - reflexivity.
  - reflexivity.
  - intros p Hp. simpl in Hp.
    assert (p = 1 ∨ p = 2 ∨ p = 3 ∨ p = 4 ∨ p = 5 ∨ p = 6 ∨ p = 7)%nat
      as [->|[->|[->|[->|[->|[->| ->]]]]]] by lia;
      vm_compute; intros [? ?]; discriminate.
Defined.

Section splitter_shape.
Import Re NBAScraper.

Lemma string_of_nonempty (l : list ascii) : l ≠ [] → string_of_list_ascii l ≠ "".
Proof. by destruct l. Qed.

Lemma upper_at_take l n k : (k < n)%nat → upper_at (take n l) k = upper_at l k.
Proof. intros H. unfold upper_at. by rewrite lookup_take_lt. Qed.

Lemma upper_at_drop l n k : upper_at (drop n l) k = upper_at l (n + k).
Proof. unfold upper_at. by rewrite lookup_drop. Qed.

(** What a split at [p1] gives: a name that is not empty, and two uppercase
    letters at the start of the second group and of the rest of the text. *)
Lemma splits_at_shape l m p1 p2 :
  splits_at l m p1 p2 →
  group m 1 ≠ ""
  ∧ upper_at (list_ascii_of_string (group m 2)) 0 = true
  ∧ upper_at (list_ascii_of_string (group m 2)) 1 = true
  ∧ String.length (group m 1) = p1
  ∧ upper_at (drop p1 l) 0 = true ∧ upper_at (drop p1 l) 1 = true.
Proof.
  intros (H1 & H2 & H3 & Hu1 & Hu2 & -> & ->).
  rewrite list_ascii_of_string_of_list_ascii, string_length_of, length_take.
  rewrite !upper_at_take, !upper_at_drop by lia.
  rewrite Nat.add_0_r, Nat.add_1_r. split_and!; try done; [|lia].
  apply string_of_nonempty. intros Hnil%(f_equal length).
  rewrite length_take in Hnil. simpl in Hnil. lia.
Qed.

Lemma standard_re_team (str : string) m :
  re_match standard_re str = Some m →
  is_team_code (list_ascii_of_string (group m 2)) = true.
Proof.
  intros (st' & Hin & ->)%re_match_Some.
  apply exec_two_groups in Hin as (p1 & p2 & HA & HB & _ & Hcaps); [|done..].
  apply matches_player in HA.
  pose proof (matches_bounds _ _ _ _ HB) as Hb.
  apply matches_team in HB as [Hlen Hup].
  rewrite Hcaps, group_2, list_ascii_of_string_of_list_ascii.
  unfold is_team_code. apply andb_true_intro. split.
  - apply bool_decide_eq_true. rewrite length_take, length_drop. lia.
  - apply forallb_forall. intros c Hc%list_elem_of_In.
    apply list_elem_of_lookup in Hc as [k Hk].
    pose proof (lookup_lt_Some _ _ _ Hk) as Hlt.
    rewrite length_take, length_drop in Hlt.
    rewrite lookup_take_lt, lookup_drop in Hk by lia.
    specialize (Hup (p1 + k)%nat). unfold upper_at in Hup. rewrite Hk in Hup.
    apply Hup. lia.
Qed.

End splitter_shape.

(** X18. What the splitter returns has one of two shapes, on every text:
    the text itself with an empty team; or a player name that is not empty
    and a team that starts with two uppercase letters.  On a text without a
    slash a team that is not empty is a team code, two to four uppercase
    letters and nothing else. *)
Theorem split_shape (name_text : string) :
  let player := (NBAScraper.extract_player_name_and_team name_text).1 in
  let team := (NBAScraper.extract_player_name_and_team name_text).2 in
  (team = "" ∧ player = name_text)
  ∨ (player ≠ ""
     ∧ upper_at (list_ascii_of_string team) 0 = true
     ∧ upper_at (list_ascii_of_string team) 1 = true
     ∧ (NBAScraper.contains_slash name_text = false →
        is_team_code (list_ascii_of_string team) = true)).
Proof.
  cbn zeta. unfold NBAScraper.extract_player_name_and_team.
  destruct (NBAScraper.contains_slash name_text) eqn:Hslash.
  - destruct (Re.re_match NBAScraper.multi_team_re name_text) as [m|] eqn:Hm.
    { apply multi_team_re_match in Hm as (p1 & p2 & Hs & _).
      apply splits_at_shape in Hs as (? & ? & ? & _). right. by split_and!. }
    destruct (Re.re_match NBAScraper.fallback_re name_text) as [m|] eqn:Hf.
    { apply fallback_re_match in Hf as (p1 & p2 & Hs).
      apply splits_at_shape in Hs as (? & _ & _ & Hlen & ? & ?). right.
      cbn [fst snd]. unfold NBAScraper.slice_from.
      rewrite list_ascii_of_string_of_list_ascii, Hlen. by split_and!. }
    by left.
  - destruct (Re.re_match NBAScraper.standard_re name_text) as [m|] eqn:Hm.
    { pose proof (standard_re_team _ _ Hm) as Hcode.
      apply standard_re_match in Hm as (p1 & p2 & Hs & _).
      apply splits_at_shape in Hs as (? & ? & ? & _). right. by split_and!. }
    by left.
Qed.

(** ** Stripped cells *)

Section stripped.
Implicit Types (l : list ascii) (c : ascii).

Lemma lstrip_idem l : lstrip (lstrip l) = lstrip l.
Proof.
  induction l as [|c l IH]; [done|]. simpl.
  destruct (is_space c) eqn:E; [done|]. simpl. by rewrite E.
Qed.

Lemma lstrip_snoc l c : is_space c = false → lstrip (l ++ [c]) = lstrip l ++ [c].
Proof.
  intros Hc. induction l as [|x l IH]; simpl; [by rewrite Hc|].
  by destruct (is_space x).
Qed.

Lemma rstrip_idem l : rstrip (rstrip l) = rstrip l.
Proof. unfold rstrip. by rewrite rev_involutive, lstrip_idem. Qed.

(** Stripping on the right does not uncover a space on the left. *)
Lemma lstrip_rstrip l : lstrip l = l → lstrip (rstrip l) = rstrip l.
Proof.
  destruct l as [|c l]; [done|]. simpl.
  destruct (is_space c) eqn:E.
  - intros H. apply (f_equal length) in H. simpl in H.
    assert (∀ k, length (lstrip k) ≤ length k)%nat as Hle.
    { clear. induction k as [|x k IH]; simpl; [done|].
      destruct (is_space x); simpl; lia. }
    specialize (Hle l). lia.
  - intros _. unfold rstrip. simpl. rewrite lstrip_snoc by done.
    rewrite rev_app_distr. simpl. by rewrite E.
Qed.

Lemma strip_idem (t : string) : strip (strip t) = strip t.
Proof.
  unfold strip. rewrite list_ascii_of_string_of_list_ascii. f_equal.
  rewrite lstrip_rstrip by apply lstrip_idem. apply rstrip_idem.
Qed.

End stripped.

Section stripped_cells.

Lemma parse_row_stripped (cells : list string) field v :
  Dict.get field (BartTorvikScraper.parse_row cells) = Some v →
  ∃ text, v = VStr (strip text).
Proof.
  intros Hget.
  assert (field ∈ Dict.keys (BartTorvikScraper.parse_row cells)) as Hk
    by (apply dict_get_keys; eauto).
  apply parse_row_key in Hk as (pos & Hpos & _).
  rewrite (parse_row_layout _ _ _ Hpos) in Hget.
  apply fmap_Some in Hget as (text & _ & ->). by exists text.
Qed.

Lemma get_add_stats_cases j headers cells d k v :
  Dict.get k (NBAScraper.add_stats j headers cells d) = Some v →
  (∃ text, v = VStr (strip text)) ∨ Dict.get k d = Some v.
Proof.
  revert j d. induction headers as [|h hs IH]; intros j d; cbn [NBAScraper.add_stats];
    [by right|].
  intros [Hs|Hget]%IH; [by left|].
  destruct (decide (j < length cells)%nat); [|by right].
  rewrite dict_get_set in Hget. case_decide; [|by right].
  injection Hget as <-. left. eauto.
Qed.

End stripped_cells.

(** X19. The texts of an extracted frame are stored stripped: stripping a
    text cell of a record again changes nothing.  This holds for every text
    cell of source A's records, and for every text cell of source B's
    records outside [Player] and [Team]; these two are cut out of a stripped
    text, and the player name keeps a space that stands before the team
    code. *)
Theorem extracted_texts_are_stripped :
  (∀ (tables : list (list (list string))) (year : Z) (df : DataFrame)
     (r : gmap string value) (field t : string),
     BartTorvikScraper.extract tables year = Ok df →
     r ∈ rows df → r !! field = Some (VStr t) → strip t = t)
  ∧ (∀ (tables : list NBAScraper.table) (year : Z) (df : DataFrame)
       (r : gmap string value) (col t : string),
       NBAScraper.extract tables year = Ok df →
       r ∈ rows df → col ≠ "Player" → col ≠ "Team" →
       r !! col = Some (VStr t) → strip t = t)
  ∧ NBAScraper.extract_player_name_and_team (strip " ray allen MIA ")
    = ("ray allen ", "MIA").
Proof.
  split_and!.
  - intros tables year df r field t Hdf Hr Hcell.
    apply extract_a_frame in Hdf. cbn zeta in Hdf. rewrite Hdf in Hr.
    cbn [rows] in Hr. apply list_elem_of_fmap in Hr as (cells & -> & _).
    destruct (decide (field = "Year")) as [->|Hne].
    { by rewrite lookup_insert_eq in Hcell. }
    rewrite lookup_insert_ne in Hcell by done.
    rewrite lookup_project in Hcell. case_decide; [|done].
    rewrite lookup_fill_row, dict_get_to_map in Hcell.
    destruct (Dict.get field _) as [v|] eqn:Hget; [|by case_decide].
    apply parse_row_stripped in Hget as [text ->].
    injection Hcell as <-. apply strip_idem.
  - intros tables year df r col t Hdf Hr HP HT Hcell.
    apply extract_b_rows in Hdf as (? & ? & ? & ? & _ & _ & Hdf).
    cbn zeta in Hdf. destruct Hdf as [_ Hrows]. rewrite Hrows in Hr.
    apply list_elem_of_fmap in Hr as (p & -> & _).
    destruct (decide (col = "Year")) as [->|Hne].
    { by rewrite lookup_insert_eq in Hcell. }
    rewrite lookup_insert_ne in Hcell by done.
    rewrite lookup_fill_row, dict_get_to_map in Hcell.
    destruct (Dict.get col _) as [v|] eqn:Hget; [|by case_decide].
    injection Hcell as ->. unfold build_record in Hget.
    apply get_add_stats_cases in Hget as [[text [= ->]]|Hget];
      [apply strip_idem|].
    cbn [Dict.get] in Hget. repeat case_decide; try done.
    injection Hget as <-. apply strip_idem.
  - vm_compute. reflexivity.
Qed.
